(** * Session and request-interception subsystem of the Warhammer 40k wiki front end

    A shallow embedding of [src/api/client.ts] (credential store, request and
    response interceptors, return-to helpers), of the login functions of
    [src/api/endpoints.ts], of the thunks of [features/auth/authSlice.ts] and of
    the redirect logic of [ProfilePage] and [LoginForm], followed by the
    properties established about them.  Beside the session code the file
    embeds the splice of [addContent] ([src/api/endpoints.ts]), the list editor
    of [components/ContentBlockEditor.tsx], the arithmetic of
    [features/ui/Paginator.tsx] and the button of [LoginForm].

    Conventions of the embedding.
    - Browser state (localStorage, sessionStorage, [location], the default
      headers of the shared axios instance, the Redux auth slice) is one record,
      [World]; every function of the source that touches it is a computation in
      the monad [JS], which threads the world and carries thrown exceptions and
      rejected promises.
    - A browser may refuse access to its storage (private mode, blocked site
      data): then every [getItem], [setItem] and [removeItem] throws.  The world
      records that refusal in [storage_denied], which no function of the client
      changes; the [try]/[catch] blocks of the source around storage accesses
      are modelled as written.
    - [Date.now()] is an effect: every call consumes the next reading of the
      world's clock, so two calls in one function may observe different times.
    - Numbers that are integers (clock readings, day counts, indices) are kept
      in [Z].  Doubles hold integers exactly up to [2^53]: where a property
      depends on it, it says so ([exact_expiry], [safe_integer]), and the sums
      of the paginator are rounded by [to_double] as a double rounds them.
      An assignment to [location.href] is recorded in [href_assignments]; the
      path the code reads stays that of the document displayed until the
      browser loads another.
    - User strings (login, password) are sequences of UTF-16 code units, because
      [btoa] throws on a code unit above 255 and [trim]/[length] count code units.
      Keys, paths and header names are ASCII and are plain [string]s.
    - An [await] runs to completion before the caller continues: a call is
      modelled with its network round trip, interleavings of several calls in
      flight are not. *)

From Stdlib Require Import ZArith NArith String Ascii List Bool Lia DecimalString.
From Stdlib Require Import QArith Qround.
From stdpp Require Import base option gmap strings list.

Local Open Scope string_scope.
Local Open Scope list_scope.

(** ** Strings *)

Fixpoint string_drop (n : nat) (s : string) : string :=
  match n, s with
  | O, _ => s
  | S n', String _ s' => string_drop n' s'
  | S _, EmptyString => EmptyString
  end.

(** [p] is a prefix of [s]. *)
Fixpoint is_prefix (p s : string) : bool :=
  match p, s with
  | EmptyString, _ => true
  | String c p', String d s' => Ascii.eqb c d && is_prefix p' s'
  | String _ _, EmptyString => false
  end.

(** [s.startsWith(p)] *)
Definition startsWith (s p : string) : bool := is_prefix p s.

(** [s.replace(pat, rep)] with a string pattern: the first occurrence only. *)
Fixpoint replace_first (pat rep s : string) : string :=
  if is_prefix pat s then rep +:+ string_drop (String.length pat) s
  else match s with
       | EmptyString => EmptyString
       | String c s' => String c (replace_first pat rep s')
       end.

(** [s.replace(/\/+$/, "")]: the trailing run of slashes is removed. *)
Fixpoint strip_trailing_slashes (s : string) : string :=
  match s with
  | EmptyString => EmptyString
  | String c s' =>
      let r := strip_trailing_slashes s' in
      if Ascii.eqb c "/" && String.eqb r "" then "" else String c r
  end.

Definition lower_ascii (c : ascii) : ascii :=
  let n := nat_of_ascii c in
  if (65 <=? n)%nat && (n <=? 90)%nat then ascii_of_nat (n + 32) else c.

(** [k.toLowerCase()] on header names, which are ASCII tokens. *)
Fixpoint toLowerCase (s : string) : string :=
  match s with
  | EmptyString => EmptyString
  | String c s' => String (lower_ascii c) (toLowerCase s')
  end.

Fixpoint string_mem (c : ascii) (s : string) : bool :=
  match s with
  | EmptyString => false
  | String d s' => Ascii.eqb c d || string_mem c s'
  end.

(** Template-literal rendering of an integer number such as an HTTP status. *)
Definition number_to_string (z : Z) : string :=
  NilZero.string_of_int (Z.to_int z).

(** A JavaScript string as its UTF-16 code units. *)
Abbreviation jsstring := (list N).

Fixpoint js (s : string) : jsstring :=
  match s with
  | EmptyString => []
  | String c s' => N_of_ascii c :: js s'
  end.

(** White space and line terminators removed by [String.prototype.trim]. *)
Definition is_js_space (c : N) : bool :=
  ((9 <=? c) && (c <=? 13) || (c =? 32) || (c =? 160) || (c =? 5760)
   || (8192 <=? c) && (c <=? 8202) || (c =? 8232) || (c =? 8233)
   || (c =? 8239) || (c =? 8287) || (c =? 12288) || (c =? 65279))%N.

Fixpoint trimStart (s : jsstring) : jsstring :=
  match s with
  | c :: s' => if is_js_space c then trimStart s' else s
  | [] => []
  end.

Definition trim (s : jsstring) : jsstring := rev (trimStart (rev (trimStart s))).

(** ** [btoa] *)

Definition b64_alphabet : string :=
  "ABCDEFGHIJKLMNOPQRSTUVWXYZabcdefghijklmnopqrstuvwxyz0123456789+/".

Definition b64_char (n : N) : ascii :=
  match String.get (N.to_nat n) b64_alphabet with
  | Some c => c
  | None => "="%char
  end.

Fixpoint b64_encode (l : list N) : string :=
  match l with
  | [] => ""
  | [a] =>
      String (b64_char (a / 4)) (String (b64_char (a mod 4 * 16)) "==")
  | [a; b] =>
      String (b64_char (a / 4))
        (String (b64_char (a mod 4 * 16 + b / 16))
           (String (b64_char (b mod 16 * 4)) "="))
  | a :: b :: c :: rest =>
      String (b64_char (a / 4))
        (String (b64_char (a mod 4 * 16 + b / 16))
           (String (b64_char (b mod 16 * 4 + c / 64))
              (String (b64_char (c mod 64)) (b64_encode rest))))
  end%N.

(** [btoa(s)]: the base64 text of a string of Latin-1 code units; [None] stands
    for the [InvalidCharacterError] thrown when a code unit exceeds 255. *)
Definition btoa (s : jsstring) : option string :=
  if forallb (fun c => c <=? 255)%N s then Some (b64_encode s) else None.

(** [`${username}:${password}`] *)
Definition colon_join (u p : jsstring) : jsstring := u ++ 58%N :: p.

(** ** Numbers

    A JavaScript number is an IEEE 754 double.  The numbers this development
    keeps in [Z] are integers: readings of the clock in milliseconds, counts of
    days, and the indices and counts of a list.  Sums and products of integers
    are exact in doubles as long as the operands and the result stay within
    [2^53] in absolute value; beyond that the result is rounded. *)

(** The integers every double operation on integers is exact for. *)
Definition safe_integer (z : Z) : Prop := (- 2 ^ 53 <= z <= 2 ^ 53)%Z.

(** The double nearest to the integer [z], ties to the even significand: what
    [+], [-] and [*] return when the exact result of their integer operands is
    [z], below the overflow threshold [2^1024]. *)
Definition to_double (z : Z) : Z :=
  let a := Z.abs z in
  if (a <? 2 ^ 53)%Z then z
  else
    let ulp := (2 ^ (Z.log2 a - 52))%Z in
    let q := (a / ulp)%Z in
    let r := (a mod ulp)%Z in
    let q' := if (2 * r <? ulp)%Z then q
              else if (ulp <? 2 * r)%Z then (q + 1)%Z
              else if Z.even q then q else (q + 1)%Z in
    (Z.sgn z * (q' * ulp))%Z.

(** [now + days * 24 * 3600 * 1000] as doubles compute it, one rounding for
    each operation, the products from left to right. *)
Definition double_expiry (now days : Z) : Z :=
  to_double (now + to_double (to_double (to_double (days * 24) * 3600) * 1000)).

(** The readings and day counts for which that expiry is the integer
    [now + days * 24 * 3600 * 1000]: [days] an integer, and the reading, the
    product and the sum within the exact range.  A reading of a real clock
    (about [1.7 * 10^12]) with the 7 or 1 days the callers pass is far inside. *)
Definition exact_expiry (now days : Z) : Prop :=
  safe_integer now /\ safe_integer (days * 24 * 3600 * 1000) /\
  safe_integer (now + days * 24 * 3600 * 1000).

(** ** Data model *)

(** [AUTH_MODE]: the three values of the union type. *)
Inductive AuthMode := ModeLocal | ModeBasic | ModeHybrid.

Definition is_local (m : AuthMode) : bool :=
  match m with ModeLocal => true | _ => false end.

(** Configuration read once at start-up from [import.meta.env]. *)
Class Config := {
  AUTH_MODE : AuthMode;
  env_BASE_URL : string  (* import.meta.env.BASE_URL *)
}.

(** [(import.meta.env.BASE_URL || "/").replace(/\/+$/, "")] *)
Definition BASE_URL `{Config} : string :=
  strip_trailing_slashes (if String.eqb env_BASE_URL "" then "/" else env_BASE_URL).

Definition AUTH_BASIC_KEY_PRIMARY : string := "fw_auth".
Definition AUTH_BASIC_KEY_SECOND : string := "fw_auth_basic".
Definition AUTH_LOCAL_KEY : string := "fw_auth_local".
Definition RETURN_TO_KEY : string := "return_to".

(** What [JSON.parse] yields for a stored credential text, read through the
    types [BasicStored] and [LocalStored]: every field may be missing; a field
    that is present has its declared type, with [exp] an integer number of
    milliseconds.  A JSON value that is not an object has no field at all. *)
Record StoredRecord := {
  username : option jsstring;
  password : option jsstring;
  exp : option Z
}.

(** The text held under a storage key: either the serialization of a record, or
    a text on which [JSON.parse] throws (the empty text included). *)
Inductive StoredText :=
| Unparsable (s : string)
| Serialized (o : StoredRecord).

Definition JSON_stringify (o : StoredRecord) : StoredText := Serialized o.

(** [UserProfile] as far as the session code reads or builds it. *)
Record ApiUserProfile := {
  id : option Z;
  name : jsstring;
  ava : option jsstring;
  user_id : option Z;
  authored : option Z;
  totalArticles : option Z
}.

(** The header containers axios may hand to an interceptor: an [AxiosHeaders]
    instance, whose names are matched without regard to case (keyed here by the
    lower-cased name), or a plain object with its own properties in order. *)
Inductive Headers :=
| AxiosHeaders (h : gmap string string)
| PlainObject (h : list (string * string)).

Record RequestConfig := {
  url : string;
  headers : option Headers
}.

(** Messages passed to [rejectWithValue]. *)
Inductive Message :=
| Msg_login_too_short        (* "Логин слишком короткий" *)
| Msg_bad_login_or_password  (* "Неверный логин или пароль" *)
| Msg_login_error            (* "Ошибка входа" *)
| Msg_not_authed             (* "not authed" *)
| Msg_of_thrown_error.       (* the [message] of a caught error object *)

(** What a promise is rejected with, or what a statement throws. *)
Inductive JsError :=
| AxiosError (code : option string) (response_status : option Z)
             (config : option RequestConfig)
| InvalidCharacterError      (* DOMException thrown by btoa *)
| SyntaxError                (* thrown by JSON.parse *)
| SecurityError              (* thrown by a storage access the browser denies *)
| RejectedWithValue (m : Message).

(** The outcome the network gives to a request that was sent. *)
Inductive Outcome :=
| Responded (status : Z) (data : ApiUserProfile)
| NoResponse (code : option string).

Inductive Status := Idle | Loading | Succeeded | Failed.

Record AuthState := {
  me : option ApiUserProfile;
  isAuthed : bool;
  status : Status;
  error : option Message
}.

Record Location := {
  pathname : string;
  search : string
}.

Record World := {
  storage_denied : bool;             (* the browser refuses localStorage and sessionStorage *)
  localStorage : gmap string StoredText;
  sessionStorage : gmap string string;
  defaults_headers_common : list (string * string);  (* api.defaults.headers.common *)
  location : Location;
  href_assignments : list string;    (* each [location.href = ...], oldest first *)
  router_navigations : list string;  (* each [nav(to, {replace: true})] *)
  sent_requests : list RequestConfig; (* each request handed to the network *)
  clock : nat -> Z;                  (* the n-th reading of Date.now() *)
  clock_reads : nat;
  auth : AuthState                   (* the Redux auth slice *)
}.

Definition with_localStorage (f : gmap string StoredText -> gmap string StoredText)
    (w : World) : World :=
  {| storage_denied := storage_denied w; localStorage := f (localStorage w); sessionStorage := sessionStorage w;
     defaults_headers_common := defaults_headers_common w; location := location w;
     href_assignments := href_assignments w;
     router_navigations := router_navigations w; sent_requests := sent_requests w;
     clock := clock w; clock_reads := clock_reads w; auth := auth w |}.

Definition with_sessionStorage (f : gmap string string -> gmap string string)
    (w : World) : World :=
  {| storage_denied := storage_denied w; localStorage := localStorage w; sessionStorage := f (sessionStorage w);
     defaults_headers_common := defaults_headers_common w; location := location w;
     href_assignments := href_assignments w;
     router_navigations := router_navigations w; sent_requests := sent_requests w;
     clock := clock w; clock_reads := clock_reads w; auth := auth w |}.

Definition with_defaults (f : list (string * string) -> list (string * string))
    (w : World) : World :=
  {| storage_denied := storage_denied w; localStorage := localStorage w; sessionStorage := sessionStorage w;
     defaults_headers_common := f (defaults_headers_common w); location := location w;
     href_assignments := href_assignments w;
     router_navigations := router_navigations w; sent_requests := sent_requests w;
     clock := clock w; clock_reads := clock_reads w; auth := auth w |}.

Definition with_href (f : list string -> list string) (w : World) : World :=
  {| storage_denied := storage_denied w; localStorage := localStorage w; sessionStorage := sessionStorage w;
     defaults_headers_common := defaults_headers_common w; location := location w;
     href_assignments := f (href_assignments w);
     router_navigations := router_navigations w; sent_requests := sent_requests w;
     clock := clock w; clock_reads := clock_reads w; auth := auth w |}.

Definition with_router (f : list string -> list string) (w : World) : World :=
  {| storage_denied := storage_denied w; localStorage := localStorage w; sessionStorage := sessionStorage w;
     defaults_headers_common := defaults_headers_common w; location := location w;
     href_assignments := href_assignments w;
     router_navigations := f (router_navigations w); sent_requests := sent_requests w;
     clock := clock w; clock_reads := clock_reads w; auth := auth w |}.

Definition with_sent (f : list RequestConfig -> list RequestConfig) (w : World) : World :=
  {| storage_denied := storage_denied w; localStorage := localStorage w; sessionStorage := sessionStorage w;
     defaults_headers_common := defaults_headers_common w; location := location w;
     href_assignments := href_assignments w;
     router_navigations := router_navigations w; sent_requests := f (sent_requests w);
     clock := clock w; clock_reads := clock_reads w; auth := auth w |}.

Definition with_clock_reads (f : nat -> nat) (w : World) : World :=
  {| storage_denied := storage_denied w; localStorage := localStorage w; sessionStorage := sessionStorage w;
     defaults_headers_common := defaults_headers_common w; location := location w;
     href_assignments := href_assignments w;
     router_navigations := router_navigations w; sent_requests := sent_requests w;
     clock := clock w; clock_reads := f (clock_reads w); auth := auth w |}.

Definition with_auth (f : AuthState -> AuthState) (w : World) : World :=
  {| storage_denied := storage_denied w; localStorage := localStorage w; sessionStorage := sessionStorage w;
     defaults_headers_common := defaults_headers_common w; location := location w;
     href_assignments := href_assignments w;
     router_navigations := router_navigations w; sent_requests := sent_requests w;
     clock := clock w; clock_reads := clock_reads w; auth := f (auth w) |}.

(** ** The monad of effects *)

Inductive Completion (A : Type) :=
| Normal (a : A)
| Thrown (e : JsError).
Arguments Normal {A} a.
Arguments Thrown {A} e.

Definition JS (A : Type) : Type := World -> Completion A * World.

Definition ret {A} (a : A) : JS A := fun w => (Normal a, w).

Definition throw {A} (e : JsError) : JS A := fun w => (Thrown e, w).

Definition bind {A B} (m : JS A) (k : A -> JS B) : JS B :=
  fun w =>
    match m w with
    | (Normal a, w') => k a w'
    | (Thrown e, w') => (Thrown e, w')
    end.

(** [try { m } catch (e) { h e }] *)
Definition try_catch {A} (m : JS A) (h : JsError -> JS A) : JS A :=
  fun w =>
    match m w with
    | (Normal a, w') => (Normal a, w')
    | (Thrown e, w') => h e w'
    end.

Definition get_world : JS World := fun w => (Normal w, w).

Definition modify (f : World -> World) : JS unit := fun w => (Normal tt, f w).

Notation "x <- m ;; k" := (bind m (fun x => k))
  (at level 100, m at next level, right associativity).
Notation "m ;;; k" := (bind m (fun _ => k))
  (at level 100, right associativity).

Definition when (b : bool) (m : JS unit) : JS unit := if b then m else ret tt.

(** [Date.now()] *)
Definition Date_now : JS Z :=
  fun w => (Normal (clock w (clock_reads w)), with_clock_reads S w).

(** Every access to a storage the browser denies throws. *)
Definition storage_access {A} (m : JS A) : JS A :=
  fun w => if storage_denied w then (Thrown SecurityError, w) else m w.

Definition localStorage_getItem (key : string) : JS (option StoredText) :=
  storage_access (fun w => (Normal (localStorage w !! key), w)).

Definition localStorage_setItem (key : string) (v : StoredText) : JS unit :=
  storage_access (modify (with_localStorage (insert key v))).

Definition localStorage_removeItem (key : string) : JS unit :=
  storage_access (modify (with_localStorage (delete key))).

Definition sessionStorage_getItem (key : string) : JS (option string) :=
  storage_access (fun w => (Normal (sessionStorage w !! key), w)).

Definition sessionStorage_setItem (key v : string) : JS unit :=
  storage_access (modify (with_sessionStorage (insert key v))).

Definition sessionStorage_removeItem (key : string) : JS unit :=
  storage_access (modify (with_sessionStorage (delete key))).

Definition JSON_parse (t : StoredText) : JS StoredRecord :=
  match t with
  | Unparsable _ => throw SyntaxError
  | Serialized o => ret o
  end.

Definition btoa_js (s : jsstring) : JS string :=
  match btoa s with
  | Some t => ret t
  | None => throw InvalidCharacterError
  end.

(** Truthiness of a string-typed field that may be missing. *)
Definition truthy (f : option jsstring) : bool :=
  match f with
  | Some (_ :: _) => true
  | _ => false
  end.

(** [`${f}`] for such a field. *)
Definition field_text (f : option jsstring) : jsstring :=
  match f with
  | Some s => s
  | None => js "undefined"
  end.

(** [now > Number(exp)]: [Number(undefined)] is NaN and every comparison with
    NaN is false. *)
Definition later_than (now : Z) (e : option Z) : bool :=
  match e with
  | Some t => (t <? now)%Z
  | None => false
  end.

(** ** Header containers *)

(** [o[k] = v] on a plain object: an own property keeps its place. *)
Fixpoint plain_assign (k v : string) (o : list (string * string)) : list (string * string) :=
  match o with
  | [] => [(k, v)]
  | (k', v') :: o' =>
      if String.eqb k k' then (k, v) :: o' else (k', v') :: plain_assign k v o'
  end.

(** [delete o[k]] *)
Definition plain_delete (k : string) (o : list (string * string)) : list (string * string) :=
  List.filter (fun kv => negb (String.eqb k (fst kv))) o.

(** [o[k]] *)
Fixpoint plain_get (k : string) (o : list (string * string)) : option string :=
  match o with
  | [] => None
  | (k', v) :: o' => if String.eqb k k' then Some v else plain_get k o'
  end.

(** The loop of [getHeaderValue] over [Object.keys(bag)]. *)
Fixpoint scan_keys (nameLower : string) (bag : list (string * string)) : option string :=
  match bag with
  | [] => None
  | (k, v) :: bag' =>
      if String.eqb (toLowerCase k) nameLower then Some v else scan_keys nameLower bag'
  end.

(** [getHeaderValue(headers, nameLower)].  On an [AxiosHeaders] instance the
    answer is that of [headers.get]; the scan of [toJSON()] that follows a miss
    reads the same entries and finds nothing more. *)
Definition getHeaderValue (headers : option Headers) (nameLower : string) : option string :=
  match headers with
  | None => None
  | Some (AxiosHeaders h) => h !! toLowerCase nameLower
  | Some (PlainObject o) => scan_keys nameLower o
  end.

(** [AxiosHeaders.concat(common, own)]: later entries replace earlier ones,
    names compared without regard to case.  axios is a dependency of the
    project and its code is not part of the repository: this is a model of its
    merge on the headers this program sets, whose names are non-empty tokens
    ([Authorization], [X-Skip-Auth-Redirect]) and whose values have no control
    characters and no surrounding blanks, so that axios stores them as they
    are.  Nothing is claimed of the merge outside such headers. *)
Definition AxiosHeaders_concat (common own : list (string * string)) : gmap string string :=
  fold_left (fun h kv => <[toLowerCase (fst kv) := snd kv]> h) (common ++ own) ∅.

(** The code axios gives the error of a response outside 2xx. *)
Definition error_code_of_status (st : Z) : option string :=
  if (400 <=? st)%Z && (st <? 500)%Z then Some "ERR_BAD_REQUEST"
  else if (500 <=? st)%Z && (st <? 600)%Z then Some "ERR_BAD_RESPONSE"
  else None.

Definition truthy_string (v : option string) : bool :=
  match v with
  | Some (String _ _) => true
  | _ => false
  end.

(** One alternative [name(\/|$)] of the whitelist pattern, at the start of [s]. *)
Definition segment_at (name s : string) : bool :=
  is_prefix name s &&
  match string_drop (String.length name) s with
  | EmptyString => true
  | String c _ => Ascii.eqb c "/"
  end.

(** [/^\/(error(\/|$)|network(\/|$)|profile(\/|$)|register(\/|$))/.test(s)] *)
Definition whitelist_test (s : string) : bool :=
  match s with
  | String c r =>
      Ascii.eqb c "/" &&
      (segment_at "error" r || segment_at "network" r
       || segment_at "profile" r || segment_at "register" r)
  | EmptyString => false
  end.

Definition handled : list Z := [404; 409; 418; 429; 500; 502; 503; 504]%Z.

(** [handled.includes(status)] *)
Definition includes (l : list Z) (z : Z) : bool := existsb (Z.eqb z) l.

(** ** [src/api/client.ts] *)

Section Client.
Context `{Config}.

Definition go (to : string) : JS unit :=
  let path := if startsWith to "/" then to else "/" +:+ to in
  let href := BASE_URL +:+ path in
  w <- get_world ;;
  when (negb (String.eqb (pathname (location w) +:+ search (location w)) href))
       (modify (with_href (fun l => l ++ [href]))).

Definition tryRead (key : string) : JS (option StoredRecord) :=
  try_catch
    (raw <- localStorage_getItem key ;;
     match raw with
     | None => ret None
     | Some (Unparsable EmptyString) => ret None
     | Some text =>
         parsed <- JSON_parse text ;;
         if negb (truthy (username parsed)) then
           localStorage_removeItem key ;;; ret None
         else if negb (truthy (password parsed)) then
           localStorage_removeItem key ;;; ret None
         else
           now <- Date_now ;;
           if later_than now (exp parsed) then
             localStorage_removeItem key ;;; ret None
           else ret (Some parsed)
     end)
    (fun _ => localStorage_removeItem key ;;; ret None).

Definition readBasicAuth : JS (option StoredRecord) :=
  r <- tryRead AUTH_BASIC_KEY_PRIMARY ;;
  match r with
  | Some s => ret (Some s)
  | None => tryRead AUTH_BASIC_KEY_SECOND
  end.

Definition basic_header (token : string) : string := "Basic " +:+ token.

(** [rememberBasicAuth(username, password, days)].  [days] is an integer and
    the expiry is written as the integer [now + days * 24 * 3600 * 1000]: this
    is the double the code computes, [double_expiry now days], whenever
    [exact_expiry now days].  A fractional, infinite or NaN [days], or a
    product beyond [2^53], is outside this definition. *)
Definition rememberBasicAuth (username password : jsstring) (days : Z) : JS unit :=
  now <- Date_now ;;
  let exp := (now + days * 24 * 3600 * 1000)%Z in
  localStorage_setItem AUTH_BASIC_KEY_PRIMARY
    (JSON_stringify {| username := Some username; password := Some password;
                       exp := Some exp |}) ;;;
  token <- btoa_js (colon_join username password) ;;
  modify (with_defaults (plain_assign "Authorization" (basic_header token))).

Definition readLocalAuth : JS (option StoredRecord) :=
  try_catch
    (raw <- localStorage_getItem AUTH_LOCAL_KEY ;;
     match raw with
     | None => ret None
     | Some (Unparsable EmptyString) => ret None
     | Some text =>
         parsed <- JSON_parse text ;;
         if negb (truthy (username parsed)) then
           localStorage_removeItem AUTH_LOCAL_KEY ;;; ret None
         else
           now <- Date_now ;;
           if later_than now (exp parsed) then
             localStorage_removeItem AUTH_LOCAL_KEY ;;; ret None
           else ret (Some parsed)
     end)
    (fun _ => localStorage_removeItem AUTH_LOCAL_KEY ;;; ret None).

(** [rememberLocalAuth(username, days)], with the expiry as in
    [rememberBasicAuth]: exact for an integer [days] with
    [exact_expiry now days]. *)
Definition rememberLocalAuth (username : jsstring) (days : Z) : JS unit :=
  now <- Date_now ;;
  let exp := (now + days * 24 * 3600 * 1000)%Z in
  localStorage_setItem AUTH_LOCAL_KEY
    (JSON_stringify {| username := Some username; password := None; exp := Some exp |}).

Definition rememberHybridAuth (username password : jsstring) (days : Z) : JS unit :=
  rememberBasicAuth username password days ;;;
  rememberLocalAuth username days.

Definition bootstrapAuthFromStorage : JS unit :=
  if negb (is_local AUTH_MODE) then
    s <- readBasicAuth ;;
    match s with
    | None => ret tt
    | Some s =>
        token <- btoa_js (colon_join (field_text (username s)) (field_text (password s))) ;;
        modify (with_defaults (plain_assign "Authorization" (basic_header token)))
    end
  else modify (with_defaults (plain_delete "Authorization")).

Definition dropAuth : JS unit :=
  try_catch
    (localStorage_removeItem AUTH_LOCAL_KEY ;;;
     localStorage_removeItem AUTH_BASIC_KEY_PRIMARY ;;;
     localStorage_removeItem AUTH_BASIC_KEY_SECOND)
    (fun _ => ret tt) ;;;
  modify (with_defaults (plain_delete "Authorization")).

Definition saveReturnTo (path : option string) : JS unit :=
  try_catch
    (w <- get_world ;;
     let p := if truthy_string path then default "" path
              else pathname (location w) +:+ search (location w) in
     sessionStorage_setItem RETURN_TO_KEY p)
    (fun _ => ret tt).

Definition consumeReturnTo : JS (option string) :=
  try_catch
    (v <- sessionStorage_getItem RETURN_TO_KEY ;;
     when (truthy_string v) (sessionStorage_removeItem RETURN_TO_KEY) ;;;
     ret v)
    (fun _ => ret None).

Definition with_headers (config : RequestConfig) (h : Headers) : RequestConfig :=
  {| url := url config; headers := Some h |}.

(** The handler given to [api.interceptors.request.use]. *)
Definition request_interceptor (config : RequestConfig) : JS RequestConfig :=
  if negb (is_local AUTH_MODE) then
    s <- readBasicAuth ;;
    match s with
    | Some s =>
        token <- btoa_js (colon_join (field_text (username s)) (field_text (password s))) ;;
        match headers config with
        | Some (AxiosHeaders h) =>
            ret (with_headers config
                   (AxiosHeaders (<[toLowerCase "Authorization" := basic_header token]> h)))
        | Some (PlainObject o) =>
            ret (with_headers config
                   (PlainObject (plain_assign "Authorization" (basic_header token) o)))
        | None =>
            ret (with_headers config
                   (PlainObject (plain_assign "Authorization" (basic_header token) [])))
        end
    | None => ret config
    end
  else ret config.

Definition err_code (err : JsError) : option string :=
  match err with
  | AxiosError c _ _ => c
  | _ => None
  end.

Definition err_response_status (err : JsError) : option Z :=
  match err with
  | AxiosError _ r _ => r
  | _ => None
  end.

Definition err_config_headers (err : JsError) : option Headers :=
  match err with
  | AxiosError _ _ (Some c) => headers c
  | _ => None
  end.

Definition is_auth_status (status : Z) : bool := ((status =? 401) || (status =? 403))%Z.

(** The error handler given to [api.interceptors.response.use]; it always ends
    in [Promise.reject(err)]. *)
Definition response_interceptor_onRejected {A} (err : JsError) : JS A :=
  w0 <- get_world ;;
  if bool_decide (err_code err = Some "ERR_NETWORK")
     || bool_decide (err_response_status err = None) then
    when (negb (startsWith (pathname (location w0)) (BASE_URL +:+ "/network")))
         (go "/network") ;;;
    throw err
  else
    let status := default 0%Z (err_response_status err) in
    let path := pathname (location w0) in
    let search := search (location w0) in
    if is_auth_status status && is_local AUTH_MODE then throw err
    else
      let headerVal := getHeaderValue (err_config_headers err) "x-skip-auth-redirect" in
      let skipAuthRedirect := bool_decide (headerVal = Some "1") in
      let isWhitelisted := whitelist_test (replace_first BASE_URL "" path) in
      if is_auth_status status && negb skipAuthRedirect then
        dropAuth ;;;
        when (negb isWhitelisted && negb (String.eqb path (BASE_URL +:+ "/profile")))
             (saveReturnTo (Some (path +:+ search)) ;;;
              go "/profile?expired=1") ;;;
        throw err
      else
        when (includes handled status)
             (when (negb (startsWith path (BASE_URL +:+ "/error/")))
                   (go ("/error/" +:+ number_to_string status))) ;;;
        throw err.

(** A request through the shared client [api], as axios runs it: the default
    headers are merged under the call's own, the request interceptor runs, the
    request is handed to the network, a status outside 2xx or a missing
    response becomes an [AxiosError]; a rejection at any of these steps,
    the interceptor's included, reaches the response error handler. *)
Definition api_request (url : string) (own : list (string * string))
    (net : RequestConfig -> Outcome) : JS ApiUserProfile :=
  try_catch
    (w <- get_world ;;
     config <- request_interceptor
       {| url := url;
          headers := Some (AxiosHeaders (AxiosHeaders_concat (defaults_headers_common w) own)) |} ;;
     modify (with_sent (fun l => l ++ [config])) ;;;
     match net config with
     | Responded st d =>
         if (200 <=? st)%Z && (st <? 300)%Z then ret d
         else throw (AxiosError (error_code_of_status st) (Some st) (Some config))
     | NoResponse c => throw (AxiosError c None (Some config))
     end)
    response_interceptor_onRejected.

Definition fetchMyProfileWithBasic (username password : jsstring)
    (net : RequestConfig -> Outcome) : JS ApiUserProfile :=
  token <- btoa_js (colon_join username password) ;;
  api_request "/myProfile" [("Authorization", basic_header token)] net.

Definition rememberAuth (username password : jsstring) (days : Z) : JS unit :=
  match AUTH_MODE with
  | ModeLocal => rememberLocalAuth username days
  | ModeHybrid => rememberHybridAuth username password days
  | ModeBasic => rememberBasicAuth username password days
  end.

End Client.

(** ** [src/api/endpoints.ts] *)

Section Endpoints.
Context `{Config}.

Definition myProfileSilent (net : RequestConfig -> Outcome) : JS ApiUserProfile :=
  api_request "/myProfile" [("X-Skip-Auth-Redirect", "1")] net.

Definition myProfile (net : RequestConfig -> Outcome) : JS ApiUserProfile :=
  api_request "/myProfile" [] net.

(** The profile [loginUserApi] builds in local mode. *)
Definition localProfile (name : jsstring) (ava : jsstring) : ApiUserProfile :=
  {| id := Some 0%Z; name := name; authored := Some 0%Z; totalArticles := Some 0%Z;
     ava := Some ava; user_id := Some 0%Z |}.

Definition loginUserApi (login password : jsstring)
    (net : RequestConfig -> Outcome) : JS ApiUserProfile :=
  rememberAuth login password 7 ;;;
  if is_local AUTH_MODE then ret (localProfile login [])
  else myProfile net.

(** [registerUserApi(p)]; [net_register] answers the POST to [/register],
    [net] the profile request that follows it. *)
Definition registerUserApi (name login password : jsstring) (ava : option jsstring)
    (net_register net : RequestConfig -> Outcome) : JS ApiUserProfile :=
  api_request "/register" [] net_register ;;;
  if negb (is_local AUTH_MODE) then
    rememberAuth login password 7 ;;;
    myProfile net
  else ret (localProfile name (if truthy ava then field_text ava else [])).

End Endpoints.

(** ** [src/features/auth/authSlice.ts] *)

(** How a thunk's payload creator ends: with a payload, or with
    [rejectWithValue(m)]. *)
Inductive ThunkOutcome :=
| Fulfilled (payload : ApiUserProfile)
| Rejected (m : Message).

(** The argument of the login thunks. *)
Record LoginArgs := {
  arg_username : jsstring;
  arg_password : jsstring;
  arg_remember : option bool
}.

(** [{ id: 0, name: username, ava: "" } as UserProfile] *)
Definition placeholderProfile (username : jsstring) : ApiUserProfile :=
  {| id := Some 0%Z; name := username; ava := Some []; user_id := None;
     authored := None; totalArticles := None |}.

Definition normalizeUser (p : ApiUserProfile) : ApiUserProfile :=
  {| id := Some (match id p with
                 | Some i => i
                 | None => default 0%Z (user_id p)
                 end);
     name := name p; ava := ava p; user_id := user_id p;
     authored := authored p; totalArticles := totalArticles p |}.

(** [await dispatch(thunk).unwrap()]: the payload, or the rejection value thrown. *)
Definition unwrap (t : JS ThunkOutcome) : JS ApiUserProfile :=
  r <- t ;;
  match r with
  | Fulfilled p => ret p
  | Rejected m => throw (RejectedWithValue m)
  end.

Definition initialState : AuthState :=
  {| me := None; isAuthed := false; status := Idle; error := None |}.

(** Reducers of the slice, by action. *)
Definition login_pending (s : AuthState) : AuthState :=
  {| me := me s; isAuthed := isAuthed s; status := Loading; error := None |}.

Definition login_fulfilled (payload : ApiUserProfile) (s : AuthState) : AuthState :=
  {| me := Some payload; isAuthed := true; status := Succeeded; error := error s |}.

Definition login_rejected (payload : Message) (s : AuthState) : AuthState :=
  {| me := None; isAuthed := false; status := Failed; error := Some payload |}.

Definition initAuth_pending (s : AuthState) : AuthState :=
  {| me := me s; isAuthed := isAuthed s; status := Loading; error := None |}.

Definition initAuth_fulfilled (payload : ApiUserProfile) (s : AuthState) : AuthState :=
  {| me := Some payload; isAuthed := true; status := Succeeded; error := error s |}.

Definition initAuth_rejected (s : AuthState) : AuthState :=
  {| me := None; isAuthed := false; status := Idle; error := error s |}.

Definition logout_fulfilled (s : AuthState) : AuthState :=
  {| me := None; isAuthed := false; status := Idle; error := error s |}.

Section AuthSlice.
Context `{Config}.

Definition remember_or_default (r : option bool) : bool := default true r.

Definition loginLocal (p : LoginArgs) : JS ThunkOutcome :=
  if (length (trim (arg_username p)) <? 3)%nat then ret (Rejected Msg_login_too_short)
  else
    when (remember_or_default (arg_remember p)) (rememberLocalAuth (arg_username p) 7) ;;;
    ret (Fulfilled (placeholderProfile (arg_username p))).

Definition loginBasic (p : LoginArgs) (net : RequestConfig -> Outcome) : JS ThunkOutcome :=
  try_catch
    (raw <- fetchMyProfileWithBasic (arg_username p) (arg_password p) net ;;
     let me := normalizeUser raw in
     rememberBasicAuth (arg_username p) (arg_password p) 7 ;;;
     ret (Fulfilled me))
    (fun _ => ret (Rejected Msg_bad_login_or_password)).

Definition loginHybrid (p : LoginArgs) (net : RequestConfig -> Outcome) : JS ThunkOutcome :=
  try_catch
    (raw <- fetchMyProfileWithBasic (arg_username p) (arg_password p) net ;;
     let me := normalizeUser raw in
     rememberHybridAuth (arg_username p) (arg_password p)
       (if remember_or_default (arg_remember p) then 7 else 1) ;;;
     ret (Fulfilled me))
    (fun _ =>
       if (3 <=? length (trim (arg_username p)))%nat then
         rememberLocalAuth (arg_username p) 7 ;;;
         ret (Fulfilled (placeholderProfile (arg_username p)))
       else ret (Rejected Msg_bad_login_or_password)).

(** [e?.message || "Ошибка входа"]: a rejection value is a string and has no
    [message]; an error object carries its own. *)
Definition message_of_caught (e : JsError) : Message :=
  match e with
  | RejectedWithValue _ => Msg_login_error
  | _ => Msg_of_thrown_error
  end.

(** The payload creator of the facade thunk [login]. *)
Definition login (p : LoginArgs) (net : RequestConfig -> Outcome) : JS ThunkOutcome :=
  try_catch
    (match AUTH_MODE with
     | ModeLocal => r <- unwrap (loginLocal p) ;; ret (Fulfilled r)
     | ModeHybrid => r <- unwrap (loginHybrid p net) ;; ret (Fulfilled r)
     | ModeBasic => r <- unwrap (loginBasic p net) ;; ret (Fulfilled r)
     end)
    (fun e => ret (Rejected (message_of_caught e))).

(** [dispatch(login(p))]: the pending reducer, the payload creator, then the
    reducer of its outcome. *)
Definition dispatch_login (p : LoginArgs) (net : RequestConfig -> Outcome) : JS ThunkOutcome :=
  modify (with_auth login_pending) ;;;
  r <- login p net ;;
  match r with
  | Fulfilled payload => modify (with_auth (login_fulfilled payload))
  | Rejected m => modify (with_auth (login_rejected m))
  end ;;;
  ret r.

Definition initAuth (net : RequestConfig -> Outcome) : JS ThunkOutcome :=
  match AUTH_MODE with
  | ModeLocal =>
      s <- readLocalAuth ;;
      match s with
      | None => ret (Rejected Msg_not_authed)
      | Some s => ret (Fulfilled (placeholderProfile (field_text (username s))))
      end
  | ModeHybrid =>
      try_catch
        (data <- api_request "/myProfile" [("X-Skip-Auth-Redirect", "1")] net ;;
         ret (Fulfilled (normalizeUser data)))
        (fun _ =>
           s <- readLocalAuth ;;
           match s with
           | Some s => ret (Fulfilled (placeholderProfile (field_text (username s))))
           | None => ret (Rejected Msg_not_authed)
           end)
  | ModeBasic =>
      try_catch
        (data <- api_request "/myProfile" [("X-Skip-Auth-Redirect", "1")] net ;;
         ret (Fulfilled (normalizeUser data)))
        (fun _ => ret (Rejected Msg_not_authed))
  end.

(** [dispatch(initAuth())]: the pending reducer, the payload creator, then the
    reducer of its outcome.  A payload creator that throws (a denied storage
    makes [readLocalAuth] throw) is caught by [createAsyncThunk], which
    dispatches the rejected action with the error: the dispatch never throws. *)
Definition dispatch_initAuth (net : RequestConfig -> Outcome) : JS ThunkOutcome :=
  modify (with_auth initAuth_pending) ;;;
  r <- try_catch (initAuth net) (fun _ => ret (Rejected Msg_of_thrown_error)) ;;
  match r with
  | Fulfilled payload => modify (with_auth (initAuth_fulfilled payload))
  | Rejected _ => modify (with_auth initAuth_rejected)
  end ;;;
  ret r.

Definition dispatch_logout : JS unit :=
  dropAuth ;;;
  modify (with_auth logout_fulfilled).

End AuthSlice.

(** ** Redirect after login: [ProfilePage] and [LoginForm] *)

(** [nav(to, { replace: true })] *)
Definition nav (to : string) : JS unit :=
  modify (with_router (fun l => l ++ [to])).

Section Pages.
Context `{Config}.

(** The effect of [ProfilePage] that runs when [isAuthed] changes; [from] is
    [loc.state?.from?.pathname].  The two loads it dispatches outside local
    mode are asynchronous thunks of the profile slice: they only start here. *)
Definition ProfilePage_effect (from : option string) : JS unit :=
  w <- get_world ;;
  if negb (isAuthed (auth w)) then ret tt
  else if truthy_string from then nav (default "" from)
  else
    back <- sessionStorage_getItem RETURN_TO_KEY ;;
    when (truthy_string back)
         (sessionStorage_removeItem RETURN_TO_KEY ;;;
          nav (default "" back)).

(** [target || "/"] *)
Definition target_or_root (target : option string) : string :=
  if truthy_string target then default "" target else "/".

(** [handleLogin] of [LoginForm]; toasts are not part of the state. *)
Definition handleLogin (username password : jsstring)
    (net : RequestConfig -> Outcome) : JS unit :=
  let blank (s : jsstring) := bool_decide (trim s = []) in
  if (if is_local AUTH_MODE then blank username else blank username || blank password)
  then ret tt
  else
    try_catch
      (unwrap (dispatch_login
                 {| arg_username := username; arg_password := password;
                    arg_remember := None |} net) ;;;
       target <- consumeReturnTo ;;
       nav (target_or_root target))
      (fun _ => ret tt).

End Pages.

(** ** Sessions: the operations the application runs against one page load *)

(** [api.defaults.headers.common] as [axios.create] and the assignment of
    [Accept] leave it. *)
Definition page_load_defaults : list (string * string) :=
  [("Accept", "application/json")].

(** The world at page load, before [bootstrapAuthFromStorage]. *)
Definition page_load (ls : gmap string StoredText) (ss : gmap string string)
    (loc : Location) (clk : nat -> Z) : World :=
  {| storage_denied := false; localStorage := ls; sessionStorage := ss;
     defaults_headers_common := page_load_defaults; location := loc;
     href_assignments := []; router_navigations := []; sent_requests := [];
     clock := clk; clock_reads := 0; auth := initialState |}.

Inductive Op :=
| Op_bootstrapAuthFromStorage
| Op_initAuth (net : RequestConfig -> Outcome)
| Op_login (p : LoginArgs) (net : RequestConfig -> Outcome)
| Op_logout
| Op_rememberAuth (username password : jsstring) (days : Z)
| Op_loginUserApi (login password : jsstring) (net : RequestConfig -> Outcome)
| Op_registerUserApi (name login password : jsstring) (ava : option jsstring)
    (net_register net : RequestConfig -> Outcome)
| Op_handleLogin (username password : jsstring) (net : RequestConfig -> Outcome)
| Op_ProfilePage_effect (from : option string)
| Op_request (url : string) (own : list (string * string))
    (net : RequestConfig -> Outcome).

(** The world a computation leaves, whether it returned or threw. *)
Definition world_after {A} (m : JS A) (w : World) : World := snd (m w).

Definition result_of {A} (m : JS A) (w : World) : Completion A := fst (m w).

Section Session.
Context `{Config}.

Definition run_op (op : Op) : World -> World :=
  match op with
  | Op_bootstrapAuthFromStorage => world_after bootstrapAuthFromStorage
  | Op_initAuth net => world_after (dispatch_initAuth net)
  | Op_login p net => world_after (dispatch_login p net)
  | Op_logout => world_after dispatch_logout
  | Op_rememberAuth u p days => world_after (rememberAuth u p days)
  | Op_loginUserApi u p net => world_after (loginUserApi u p net)
  | Op_registerUserApi n l p a net_register net =>
      world_after (registerUserApi n l p a net_register net)
  | Op_handleLogin u p net => world_after (handleLogin u p net)
  | Op_ProfilePage_effect from => world_after (ProfilePage_effect from)
  | Op_request url own net => world_after (api_request url own net)
  end.

Definition run_ops (ops : list Op) (w : World) : World :=
  fold_left (fun w op => run_op op w) ops w.

(** The response error handler applied to a series of failures, one after the
    other. *)
Definition handle_failures (errs : list JsError) (w : World) : World :=
  fold_left (fun w err => world_after (response_interceptor_onRejected (A := unit) err) w) errs w.

End Session.

(** The own headers of a call name no [Authorization]. *)
Definition no_authorization (own : list (string * string)) : bool :=
  forallb (fun kv => negb (String.eqb (toLowerCase (fst kv)) "authorization")) own.

Definition op_without_authorization (op : Op) : bool :=
  match op with
  | Op_request _ own _ => no_authorization own
  | _ => true
  end.

(** [location] as the URL API gives it: a query that is empty or starts with
    a question mark, and none in the path. *)
Definition wf_location (l : Location) : bool :=
  negb (string_mem "?" (pathname l)) &&
  (String.eqb (search l) "" || is_prefix "?" (search l)).

Definition wf_base `{Config} : bool := negb (string_mem "?" BASE_URL).

(** The network view: the route [BASE_URL/network] itself or a path below it.
    The guard of the handler is a weaker test, [startsWith]. *)
Definition on_network_view `{Config} (path : string) : bool :=
  String.eqb path (BASE_URL +:+ "/network") || startsWith path (BASE_URL +:+ "/network/").

(** ** Vocabulary of the properties *)

(** A required field that is missing or empty. *)
Definition missing_or_empty (f : option jsstring) : Prop := f = None \/ f = Some [].

(** The record carries an expiry strictly earlier than [now]. *)
Definition expired_at (now : Z) (r : StoredRecord) : Prop :=
  exists e, exp r = Some e /\ (e < now)%Z.

(** What makes a stored Basic text unusable at a reading [now]: a text that
    is not empty and does not parse, a missing or empty [username] or
    [password], or an expiry strictly before [now]. *)
Definition stale_basic (now : Z) (t : StoredText) : Prop :=
  match t with
  | Unparsable s => s <> ""
  | Serialized r =>
      missing_or_empty (username r) \/ missing_or_empty (password r)
      \/ expired_at now r
  end.

(** The same for a Local text, which has no [password]. *)
Definition stale_local (now : Z) (t : StoredText) : Prop :=
  match t with
  | Unparsable s => s <> ""
  | Serialized r => missing_or_empty (username r) \/ expired_at now r
  end.

(** The next value [Date.now()] will return. *)
Definition next_reading (w : World) : Z := clock w (clock_reads w).

Definition basic_record (u p : jsstring) (e : Z) : StoredRecord :=
  {| username := Some u; password := Some p; exp := Some e |}.

Definition local_record (u : jsstring) (e : Z) : StoredRecord :=
  {| username := Some u; password := None; exp := Some e |}.

Definition ms_per_day : Z := 24 * 3600 * 1000.

(** Clocks for examples: one that stands still, one that advances by a
    millisecond at every reading. *)
Definition frozen_clock (t : Z) : nat -> Z := fun _ => t.
Definition ticking_clock (t : Z) : nat -> Z := fun n => (t + Z.of_nat n)%Z.

Definition at_path (p : string) : Location := {| pathname := p; search := "" |}.

Definition basic_root : Config := {| AUTH_MODE := ModeBasic; env_BASE_URL := "/" |}.
Definition hybrid_root : Config := {| AUTH_MODE := ModeHybrid; env_BASE_URL := "/" |}.
Definition local_root : Config := {| AUTH_MODE := ModeLocal; env_BASE_URL := "/" |}.

(** The request carried the opt-out header with the value "1". *)
Definition skips_auth_redirect (err : JsError) : bool :=
  bool_decide (getHeaderValue (err_config_headers err) "x-skip-auth-redirect" = Some "1").

(** The names of the whitelist pattern. *)
Definition exempt_segments : list string := ["error"; "network"; "profile"; "register"].

(** The guard of the auth redirect, as the handler computes it. *)
Definition exempt_from_redirect `{Config} (path : string) : bool :=
  whitelist_test (replace_first BASE_URL "" path)
  || String.eqb path (BASE_URL +:+ "/profile").

(** C1 in its own words: the path with the base prefix stripped starts with
    one of the four addresses, or the path is the profile path. *)
Definition strip_base_prefix `{Config} (path : string) : string :=
  if startsWith path BASE_URL then string_drop (String.length BASE_URL) path else path.

Definition claimed_exempt `{Config} (path : string) : bool :=
  let p := strip_base_prefix path in
  startsWith p "/error" || startsWith p "/network" || startsWith p "/profile"
  || startsWith p "/register" || String.eqb path (BASE_URL +:+ "/profile").

(** The request as sent names no [Authorization] header. *)
Definition unauthenticated (req : RequestConfig) : Prop :=
  getHeaderValue (headers req) "authorization" = None.

(** The default headers hold [Authorization] under that spelling only, as the
    assignments of the client write it. *)
Definition code_written_defaults (w : World) : bool :=
  forallb (fun kv => negb (String.eqb (toLowerCase (fst kv)) "authorization")
                     || String.eqb (fst kv) "Authorization")
    (defaults_headers_common w).

(** A record with a non-empty [username] [u] and [password] [p] that has not
    expired at the reading [now]. *)
Definition valid_at (now : Z) (r : StoredRecord) (u p : jsstring) : Prop :=
  username r = Some u /\ u <> [] /\ password r = Some p /\ p <> [] /\
  forall e, exp r = Some e -> (now <= e)%Z.

(** The valid Basic record in force, in a browser that grants access to the
    storage: the one under the primary key, or the one under the secondary key
    when the read of the primary key gives null. *)
Definition in_force (w : World) (r : StoredRecord) (u p : jsstring) : Prop :=
  storage_denied w = false /\
  ((localStorage w !! AUTH_BASIC_KEY_PRIMARY = Some (Serialized r) /\
    valid_at (next_reading w) r u p)
   \/
   (result_of (tryRead AUTH_BASIC_KEY_PRIMARY) w = Normal None /\
    localStorage w !! AUTH_BASIC_KEY_SECOND = Some (Serialized r) /\
    valid_at (next_reading (world_after (tryRead AUTH_BASIC_KEY_PRIMARY) w)) r u p)).

(** No credential is primed and none was sent. *)
Definition credential_free (w : World) : Prop :=
  no_authorization (defaults_headers_common w) = true /\
  Forall unauthenticated (sent_requests w).

(** A computation that leaves the permission of the storage as it found it. *)
Definition keeps_access {A} (m : JS A) : Prop :=
  forall w, storage_denied (world_after m w) = storage_denied w.

(** A computation that keeps a world credential-free, however it ends. *)
Definition preserves {A} (m : JS A) : Prop :=
  forall w, credential_free w -> credential_free (world_after m w).

(** Servers for examples. *)
Definition no_profile : ApiUserProfile :=
  {| id := None; name := []; ava := None; user_id := None; authored := None;
     totalArticles := None |}.

Definition server_down : RequestConfig -> Outcome :=
  fun _ => NoResponse (Some "ERR_NETWORK").

Definition server_status (st : Z) : RequestConfig -> Outcome :=
  fun _ => Responded st no_profile.

(** The [validation] of [handleLogin] lets the form through. *)
Definition form_filled `{Config} (u p : jsstring) : bool :=
  negb (if is_local AUTH_MODE then bool_decide (trim u = [])
        else bool_decide (trim u = []) || bool_decide (trim p = [])).

(** C7 in its own words: the destination, and the persisted value afterwards. *)
Definition resolve_as_claimed (from persisted : option string) (fixed : string)
    : string * option string :=
  if truthy_string from then (default "" from, persisted)
  else if truthy_string persisted then (default "" persisted, None)
  else (fixed, None).

(** ** Frames *)

(** Every run of the computation relates the world it starts from to the world
    it ends in, however it ends. *)
Definition respects (R : World -> World -> Prop) {A} (m : JS A) : Prop :=
  forall w, R w (world_after m w).

(** The part of the world a projection reads is the same in both worlds. *)
Definition same {B} (f : World -> B) : World -> World -> Prop :=
  fun w w' => f w' = f w.

(** Nothing was added to the credentials: every entry of localStorage in the
    second world is an entry of the first, and so is a default [Authorization]
    header. *)
Definition forgets (w w' : World) : Prop :=
  localStorage w' ⊆ localStorage w /\
  forall v, plain_get "Authorization" (defaults_headers_common w') = Some v ->
            plain_get "Authorization" (defaults_headers_common w) = Some v.

(** The world at page load in a browser that denies the storage. *)
Definition page_load_denied (loc : Location) (clk : nat -> Z) : World :=
  {| storage_denied := true; localStorage := ∅; sessionStorage := ∅;
     defaults_headers_common := page_load_defaults; location := loc;
     href_assignments := []; router_navigations := []; sent_requests := [];
     clock := clk; clock_reads := 0; auth := initialState |}.

(** A server that accepts one [Authorization] value: it answers 200 with
    [prof] to a request that carries it and 401 to any other. *)
Definition server_accepting (authorization : string) (prof : ApiUserProfile)
    : RequestConfig -> Outcome :=
  fun config =>
    if bool_decide (getHeaderValue (headers config) "authorization" = Some authorization)
    then Responded 200 prof
    else Responded 401 no_profile.

(** A run of [n] slashes. *)
Fixpoint slashes (n : nat) : string :=
  match n with
  | O => ""
  | S n' => String "/" (slashes n')
  end.

(** ** Article content: [addContent] of [src/api/endpoints.ts] *)

(** A JavaScript number: a finite value (every finite double is a rational
    number), NaN, or an infinity. *)
Inductive JsNumber :=
| Finite (q : Q)
| NaN
| PosInfinity
| NegInfinity.

(** [Number(v)] for [v] a number or [undefined]. *)
Definition Number_of (v : option JsNumber) : JsNumber := default NaN v.

(** [Number.isFinite(n)] *)
Definition Number_isFinite (n : JsNumber) : bool :=
  match n with Finite _ => true | _ => false end.

(** [Math.max(a, b)] *)
Definition Math_max (a b : JsNumber) : JsNumber :=
  match a, b with
  | NaN, _ | _, NaN => NaN
  | PosInfinity, _ | _, PosInfinity => PosInfinity
  | NegInfinity, x | x, NegInfinity => x
  | Finite x, Finite y => Finite (if Qle_bool x y then y else x)
  end.

(** Truncation towards zero, the integer [ToIntegerOrInfinity] makes of a
    finite number. *)
Definition truncate (q : Q) : Z := if Qle_bool 0 q then Qfloor q else Qceiling q.

(** The index [Array.prototype.slice] makes of an argument, for an array of
    length [len]: a negative one counts from the end, and all are clamped to
    the array. *)
Definition relative_index (n : JsNumber) (len : nat) : nat :=
  match n with
  | NaN => 0
  | NegInfinity => 0
  | PosInfinity => len
  | Finite q =>
      let k := truncate q in
      if (k <? 0)%Z then Z.to_nat (Z.max (Z.of_nat len + k) 0)
      else Nat.min (Z.to_nat k) len
  end.

(** [a.slice(start, stop)], and [a.slice(start)] when [stop] is omitted. *)
Definition slice {A} (a : list A) (start : JsNumber) (stop : option JsNumber) : list A :=
  let k := relative_index start (length a) in
  let final := match stop with
               | Some e => relative_index e (length a)
               | None => length a
               end in
  firstn (final - k) (skipn k a).

(** The array [next] that [addContent] sends as the article's new
    [mainContent]: [mainContent] is that of the article as fetched (it may be
    missing), [position] the optional third argument. *)
Definition addContent_next {A} (mainContent : option (list A)) (blocks : list A)
    (position : option JsNumber) : list A :=
  let exist := default [] mainContent in
  let pos :=
    if Number_isFinite (Number_of position) && bool_decide (position <> None)
    then Math_max (Finite 0) (Number_of position)
    else Finite (inject_Z (Z.of_nat (length exist))) in
  let head := slice exist (Finite 0) (Some pos) in
  let tail := slice exist pos None in
  head ++ blocks ++ tail.

(** ** The list editor of [src/components/ContentBlockEditor.tsx] *)

(** An element of the [content] array of a list block: a string, or an object
    whose [content] may be missing. *)
Inductive UlItem :=
| Li_string (s : jsstring)
| Li_object (content : option jsstring).

(** [block.content]: a string for the text blocks, an array for a list. *)
Inductive BlockContent :=
| Content_text (s : jsstring)
| Content_list (l : list UlItem).

(** [typeof li === "string" ? li : li?.content ?? ""] *)
Definition li_text (li : UlItem) : jsstring :=
  match li with
  | Li_string s => s
  | Li_object c => default [] c
  end.

(** [lines.join("\n")] *)
Fixpoint join_lines (lines : list jsstring) : jsstring :=
  match lines with
  | [] => []
  | [l] => l
  | l :: rest => l ++ 10%N :: join_lines rest
  end.

(** [text.split("\n")] *)
Fixpoint split_lines (text : jsstring) : list jsstring :=
  match text with
  | [] => [[]]
  | c :: text' =>
      if (c =? 10)%N then [] :: split_lines text'
      else match split_lines text' with
           | l :: rest => (c :: l) :: rest
           | [] => [[c]]
           end
  end.

Definition getUlTextareaValue (content : BlockContent) : jsstring :=
  match content with
  | Content_list l => join_lines (map li_text l)
  | Content_text _ => []
  end.

(** What [setUlFromTextarea(text)] passes to [onUpdate] as the new content. *)
Definition setUlFromTextarea (text : jsstring) : list UlItem :=
  map (fun line => Li_object (Some line))
    (List.filter (fun s => negb (bool_decide (s = []))) (map trim (split_lines text))).

(** A line the editor keeps: not empty, trimmed, without a line break. *)
Definition kept_line (l : jsstring) : Prop := l <> [] /\ trim l = l /\ ~ In 10%N l.

(** ** [Paginator] of [src/features/ui/Paginator.tsx] *)

(** [start], [limit] and [total] are numbers holding counts of articles:
    integers.  Each sum and difference is rounded as a double rounds it. *)
Definition hasNext (start limit total : Z) : bool := (to_double (start + limit) <? total)%Z.

Definition endIndex (start limit total : Z) : Z :=
  Z.min (to_double (start + limit)) (Z.max total 0).

Definition hasPrev (start : Z) : bool := (0 <? start)%Z.

(** The component renders nothing: [totalCount <= limit && start === 0]. *)
Definition Paginator_hidden (start limit total : Z) : bool :=
  (total <=? limit)%Z && (start =? 0)%Z.

(** The [start] the two buttons dispatch. *)
Definition Paginator_back (start limit : Z) : Z := Z.max 0 (to_double (start - limit)).

Definition Paginator_forward (start limit : Z) : Z := to_double (start + limit).

(** The first number of the range shown: [totalCount === 0 ? 0 : start + 1]. *)
Definition Paginator_first (start total : Z) : Z :=
  if (total =? 0)%Z then 0%Z else to_double (start + 1).

(** ** The button of [LoginForm] *)

(** [disabled], with [mode] the mode of the slice, which is [AUTH_MODE]. *)
Definition LoginForm_disabled `{Config} (username password : jsstring) (loading : bool)
    : bool :=
  let filled (s : jsstring) := negb (bool_decide (trim s = [])) in
  if is_local AUTH_MODE then negb (filled username) || loading
  else negb (filled username && filled password) || loading.

(** * Properties *)

Example btoa_u_p : btoa (colon_join (js "user") (js "pw")) = Some "dXNlcjpwdw==".
Proof. reflexivity. Qed.

Example btoa_cyrillic : btoa (colon_join [1046%N] (js "pw")) = None.
Proof. reflexivity. Qed.

Example trim_example : trim (js "  ab ") = js "ab".
Proof. reflexivity. Qed.

Example replace_first_example : replace_first "/app" "" "/app/profile" = "/profile".
Proof. reflexivity. Qed.

Example strip_example : strip_trailing_slashes "/wiki//" = "/wiki".
Proof. reflexivity. Qed.

Example number_to_string_example : number_to_string 404 = "404".
Proof. reflexivity. Qed.

(** ** Numbers *)

(** Rounding at the first integers a double cannot hold: [2^53 + 1] lies half
    way and goes to the even neighbour, [2^53 + 3] goes up. *)
Example to_double_rounds :
  to_double (2 ^ 53 + 1) = (2 ^ 53)%Z /\ to_double (2 ^ 53 + 3) = (2 ^ 53 + 4)%Z /\
  to_double (- (2 ^ 53 + 1)) = (- 2 ^ 53)%Z.
Proof. vm_compute. repeat split. Qed.

(** Within the exact range a double holds the integer itself. *)
Lemma to_double_safe z : safe_integer z -> to_double z = z.
Proof.
  unfold safe_integer, to_double. intros Hz.
  destruct (Z.ltb_spec (Z.abs z) (2 ^ 53)) as [_ | Hge]; [reflexivity|].
  assert (Hcases : z = (2 ^ 53)%Z \/ z = (- 2 ^ 53)%Z) by lia.
  destruct Hcases as [-> | ->]; vm_compute; reflexivity.
Qed.

(** The expiry the code computes in doubles is the integer the model writes. *)
Lemma double_expiry_exact now days :
  exact_expiry now days -> double_expiry now days = (now + days * 24 * 3600 * 1000)%Z.
Proof.
  unfold exact_expiry, double_expiry. intros (Hn & Hp & Hs).
  assert (H24 : safe_integer (days * 24)) by (unfold safe_integer in *; lia).
  assert (H3600 : safe_integer (days * 24 * 3600)) by (unfold safe_integer in *; lia).
  rewrite (to_double_safe _ H24), (to_double_safe _ H3600), (to_double_safe _ Hp).
  by apply to_double_safe.
Qed.

(** ** Evaluation of the credential store *)

Lemma truthy_false f : truthy f = false <-> missing_or_empty f.
Proof.
  unfold missing_or_empty.
  destruct f as [[|c s]|]; simpl; split; intros Hf; auto; try discriminate;
    destruct Hf; discriminate.
Qed.

Lemma later_than_true now r : later_than now (exp r) = true <-> expired_at now r.
Proof.
  unfold expired_at, later_than. destruct (exp r) as [e|]; split.
  - intros Hlt. exists e. split; [reflexivity | lia].
  - intros (e' & He & Hlt). injection He as <-. lia.
  - discriminate.
  - intros (e' & He & _). discriminate.
Qed.

Lemma tryRead_eval key w :
  storage_denied w = false ->
  tryRead key w =
  match localStorage w !! key with
  | None => (Normal None, w)
  | Some (Unparsable EmptyString) => (Normal None, w)
  | Some (Unparsable _) => (Normal None, with_localStorage (delete key) w)
  | Some (Serialized r) =>
      if truthy (username r) && truthy (password r) then
        if later_than (next_reading w) (exp r)
        then (Normal None, with_localStorage (delete key) (with_clock_reads S w))
        else (Normal (Some r), with_clock_reads S w)
      else (Normal None, with_localStorage (delete key) w)
  end.
Proof.
  intros Hok.
  unfold tryRead, try_catch, bind, localStorage_getItem, localStorage_removeItem,
    storage_access, next_reading.
  rewrite Hok.
  destruct (localStorage w !! key) as [[[|c s]|r]|]; try reflexivity.
  - cbn [JSON_parse throw modify with_localStorage storage_denied].
    by rewrite Hok.
  - cbn [JSON_parse ret].
    destruct (truthy (username r)); cbn [negb andb].
    2:{ cbn [modify with_localStorage storage_denied]. by rewrite Hok. }
    destruct (truthy (password r)); cbn [negb andb].
    2:{ cbn [modify with_localStorage storage_denied]. by rewrite Hok. }
    unfold Date_now. destruct (later_than _ _); [|reflexivity].
    cbn [modify with_localStorage with_clock_reads storage_denied]. by rewrite Hok.
Qed.

(** With storage denied the read throws: the access throws, and so does the
    removal in the handler that catches it. *)
Lemma tryRead_denied key w :
  storage_denied w = true -> tryRead key w = (Thrown SecurityError, w).
Proof.
  intros Hno.
  unfold tryRead, try_catch, bind, localStorage_getItem, localStorage_removeItem,
    storage_access.
  rewrite Hno. cbv beta iota. by rewrite Hno.
Qed.

Lemma readLocalAuth_eval w :
  storage_denied w = false ->
  readLocalAuth w =
  match localStorage w !! AUTH_LOCAL_KEY with
  | None => (Normal None, w)
  | Some (Unparsable EmptyString) => (Normal None, w)
  | Some (Unparsable _) => (Normal None, with_localStorage (delete AUTH_LOCAL_KEY) w)
  | Some (Serialized r) =>
      if truthy (username r) then
        if later_than (next_reading w) (exp r)
        then (Normal None, with_localStorage (delete AUTH_LOCAL_KEY) (with_clock_reads S w))
        else (Normal (Some r), with_clock_reads S w)
      else (Normal None, with_localStorage (delete AUTH_LOCAL_KEY) w)
  end.
Proof.
  intros Hok.
  unfold readLocalAuth, try_catch, bind, localStorage_getItem, localStorage_removeItem,
    storage_access, next_reading.
  rewrite Hok.
  destruct (localStorage w !! AUTH_LOCAL_KEY) as [[[|c s]|r]|]; try reflexivity.
  - cbn [JSON_parse throw modify with_localStorage storage_denied].
    by rewrite Hok.
  - cbn [JSON_parse ret].
    destruct (truthy (username r)); cbn [negb].
    2:{ cbn [modify with_localStorage storage_denied]. by rewrite Hok. }
    unfold Date_now. destruct (later_than _ _); [|reflexivity].
    cbn [modify with_localStorage with_clock_reads storage_denied]. by rewrite Hok.
Qed.

Lemma readBasicAuth_eval w :
  readBasicAuth w =
  match tryRead AUTH_BASIC_KEY_PRIMARY w with
  | (Normal (Some r), w1) => (Normal (Some r), w1)
  | (Normal None, w1) => tryRead AUTH_BASIC_KEY_SECOND w1
  | (Thrown e, w1) => (Thrown e, w1)
  end.
Proof.
  unfold readBasicAuth, bind.
  destruct (tryRead AUTH_BASIC_KEY_PRIMARY w) as [[[r|]|e] w1]; reflexivity.
Qed.

(** A read leaves the permission of the storage as it was. *)
Lemma tryRead_access key w :
  storage_denied (world_after (tryRead key) w) = storage_denied w.
Proof.
  unfold world_after. destruct (storage_denied w) eqn:Hd.
  - by rewrite tryRead_denied.
  - rewrite tryRead_eval by exact Hd.
    destruct (localStorage w !! key) as [[[|c s]|r]|]; try exact Hd.
    destruct (_ && _); [destruct (later_than _ _)|]; exact Hd.
Qed.

(** No read of the credential store throws while the storage is accessible. *)
Lemma tryRead_returns key w :
  storage_denied w = false -> exists r, result_of (tryRead key) w = Normal r.
Proof.
  intros Hok. unfold result_of. rewrite tryRead_eval by exact Hok.
  destruct (localStorage w !! key) as [[[|c s]|r]|]; simpl; eauto.
  destruct (truthy (username r) && truthy (password r)); simpl; eauto.
  destruct (later_than _ _); simpl; eauto.
Qed.

Lemma readBasicAuth_returns w :
  storage_denied w = false -> exists r, result_of readBasicAuth w = Normal r.
Proof.
  intros Hok. unfold result_of. rewrite readBasicAuth_eval.
  destruct (tryRead_returns AUTH_BASIC_KEY_PRIMARY w Hok) as [r Hr].
  pose proof (tryRead_access AUTH_BASIC_KEY_PRIMARY w) as Hacc.
  unfold result_of in Hr. unfold world_after in Hacc.
  destruct (tryRead AUTH_BASIC_KEY_PRIMARY w) as [c w1]. simpl in Hr, Hacc. subst c.
  destruct r as [r|]; simpl; eauto. apply tryRead_returns. congruence.
Qed.

Lemma readLocalAuth_returns w :
  storage_denied w = false -> exists r, result_of readLocalAuth w = Normal r.
Proof.
  intros Hok. unfold result_of. rewrite readLocalAuth_eval by exact Hok.
  destruct (localStorage w !! AUTH_LOCAL_KEY) as [[[|c s]|r]|]; simpl; eauto.
  destruct (truthy (username r)); simpl; eauto.
  destruct (later_than _ _); simpl; eauto.
Qed.

Lemma tryRead_stale key w r :
  storage_denied w = false ->
  localStorage w !! key = Some (Serialized r) ->
  missing_or_empty (username r) \/ missing_or_empty (password r)
  \/ expired_at (next_reading w) r ->
  result_of (tryRead key) w = Normal None /\
  localStorage (world_after (tryRead key) w) = delete key (localStorage w).
Proof.
  intros Hok Hget Hstale. unfold result_of, world_after.
  rewrite tryRead_eval by exact Hok. rewrite Hget.
  destruct (truthy (username r)) eqn:Hu; simpl.
  2:{ split; reflexivity. }
  destruct (truthy (password r)) eqn:Hp; simpl.
  2:{ split; reflexivity. }
  destruct Hstale as [Hm | [Hm | He]].
  - apply truthy_false in Hm. congruence.
  - apply truthy_false in Hm. congruence.
  - apply later_than_true in He. rewrite He. split; reflexivity.
Qed.

Lemma tryRead_unparsable key w s :
  storage_denied w = false ->
  localStorage w !! key = Some (Unparsable s) -> s <> "" ->
  result_of (tryRead key) w = Normal None /\
  localStorage (world_after (tryRead key) w) = delete key (localStorage w).
Proof.
  intros Hok Hget Hs. unfold result_of, world_after.
  rewrite tryRead_eval by exact Hok. rewrite Hget.
  destruct s; [congruence | split; reflexivity].
Qed.

Lemma tryRead_absent key w :
  storage_denied w = false ->
  localStorage w !! key = None -> tryRead key w = (Normal None, w).
Proof. intros Hok Hget. rewrite tryRead_eval by exact Hok. by rewrite Hget. Qed.

Lemma tryRead_keeps_other_keys key key' w :
  key <> key' ->
  localStorage (world_after (tryRead key) w) !! key' = localStorage w !! key'.
Proof.
  intros Hne. unfold world_after. destruct (storage_denied w) eqn:Hd.
  { by rewrite tryRead_denied. }
  rewrite tryRead_eval by exact Hd.
  destruct (localStorage w !! key) as [[[|c s]|r]|]; simpl; try reflexivity.
  - by rewrite lookup_delete_ne.
  - destruct (truthy (username r) && truthy (password r)); simpl.
    + destruct (later_than _ _); simpl; [by rewrite lookup_delete_ne | reflexivity].
    + by rewrite lookup_delete_ne.
Qed.

Lemma tryRead_stale_text key w t :
  storage_denied w = false ->
  localStorage w !! key = Some t -> stale_basic (next_reading w) t ->
  result_of (tryRead key) w = Normal None /\
  localStorage (world_after (tryRead key) w) = delete key (localStorage w).
Proof.
  destruct t as [s|r]; simpl; intros Hok Hget Hstale.
  - by apply (tryRead_unparsable key w s).
  - by apply (tryRead_stale key w r).
Qed.

Lemma readLocalAuth_stale_text w t :
  storage_denied w = false ->
  localStorage w !! AUTH_LOCAL_KEY = Some t -> stale_local (next_reading w) t ->
  result_of readLocalAuth w = Normal None /\
  localStorage (world_after readLocalAuth w) = delete AUTH_LOCAL_KEY (localStorage w).
Proof.
  intros Hok Hget Hstale. unfold result_of, world_after.
  rewrite readLocalAuth_eval by exact Hok. rewrite Hget.
  destruct t as [s|r]; simpl in Hstale.
  - destruct s; [congruence | split; reflexivity].
  - destruct (truthy (username r)) eqn:Hu; simpl; [|split; reflexivity].
    destruct Hstale as [Hm | He].
    + apply truthy_false in Hm. congruence.
    + apply later_than_true in He. rewrite He. split; reflexivity.
Qed.

Lemma readBasicAuth_after_null w :
  result_of (tryRead AUTH_BASIC_KEY_PRIMARY) w = Normal None ->
  readBasicAuth w = tryRead AUTH_BASIC_KEY_SECOND (world_after (tryRead AUTH_BASIC_KEY_PRIMARY) w).
Proof.
  unfold result_of, world_after. rewrite readBasicAuth_eval.
  destruct (tryRead AUTH_BASIC_KEY_PRIMARY w) as [c w1]. simpl. by intros ->.
Qed.

Lemma tryRead_valid key w r u p :
  storage_denied w = false ->
  localStorage w !! key = Some (Serialized r) -> valid_at (next_reading w) r u p ->
  tryRead key w = (Normal (Some r), with_clock_reads S w).
Proof.
  intros Hok Hget (Hu & Hune & Hp & Hpne & Hexp).
  rewrite tryRead_eval by exact Hok. rewrite Hget, Hu, Hp.
  destruct u as [|c u]; [congruence|]. destruct p as [|d p]; [congruence|].
  cbn [truthy andb].
  destruct (later_than (next_reading w) (exp r)) eqn:El; [|reflexivity].
  exfalso. apply later_than_true in El as (e & He & Hlt). specialize (Hexp e He). lia.
Qed.

Lemma readLocalAuth_valid w r u :
  storage_denied w = false ->
  localStorage w !! AUTH_LOCAL_KEY = Some (Serialized r) ->
  username r = Some u -> u <> [] ->
  (forall e, exp r = Some e -> (next_reading w <= e)%Z) ->
  readLocalAuth w = (Normal (Some r), with_clock_reads S w).
Proof.
  intros Hok Hget Hu Hne Hexp. rewrite readLocalAuth_eval by exact Hok.
  rewrite Hget, Hu. destruct u as [|c u]; [congruence|]. cbn [truthy].
  destruct (later_than (next_reading w) (exp r)) eqn:El; [|reflexivity].
  exfalso. apply later_than_true in El as (e & He & Hlt). specialize (Hexp e He). lia.
Qed.

(** A read that returned a record leaves the secondary key unread. *)
Lemma readBasicAuth_after_record w r :
  result_of (tryRead AUTH_BASIC_KEY_PRIMARY) w = Normal (Some r) ->
  readBasicAuth w = tryRead AUTH_BASIC_KEY_PRIMARY w.
Proof.
  unfold result_of. rewrite readBasicAuth_eval.
  destruct (tryRead AUTH_BASIC_KEY_PRIMARY w) as [[[r'|]|e] w1]; simpl;
    intros Hr; by inversion Hr.
Qed.

(** [readBasicAuth] gives null only when both reads do. *)
Lemma readBasicAuth_null w :
  result_of readBasicAuth w = Normal None ->
  result_of (tryRead AUTH_BASIC_KEY_PRIMARY) w = Normal None /\
  result_of (tryRead AUTH_BASIC_KEY_SECOND) (world_after (tryRead AUTH_BASIC_KEY_PRIMARY) w)
  = Normal None.
Proof.
  unfold result_of, world_after. rewrite readBasicAuth_eval.
  destruct (tryRead AUTH_BASIC_KEY_PRIMARY w) as [[[r|]|e] w1]; simpl;
    intros Hr; try discriminate.
  by split.
Qed.

(** C2, as amended.  While the browser grants access to the storage, a read
    of a credential key returns null and removes that key's entry when the
    stored text is not empty and fails to parse, when a required field is
    missing or empty, or when the expiry is strictly earlier than the reading
    of [Date.now()]; a record with its required fields whose expiry is not
    earlier than the reading, the reading itself included, is returned and its
    entry stays.  This holds of [tryRead] on either Basic key and of
    [readLocalAuth].  [readBasicAuth] reads the primary key first and the
    secondary key only after the primary read gave null: when the primary read
    gives a record, that record is the answer and the secondary entry is left
    as it is, stale or not; it returns null only when both reads do; a stale
    primary entry is always removed, a stale secondary entry is removed, and
    null returned, when the primary read gave null.  No read throws. *)
Theorem C2_stale_credentials_are_purged (w : World) :
  storage_denied w = false ->
  (forall key t,
     localStorage w !! key = Some t -> stale_basic (next_reading w) t ->
     result_of (tryRead key) w = Normal None /\
     localStorage (world_after (tryRead key) w) = delete key (localStorage w)) /\
  (forall t,
     localStorage w !! AUTH_LOCAL_KEY = Some t -> stale_local (next_reading w) t ->
     result_of readLocalAuth w = Normal None /\
     localStorage (world_after readLocalAuth w) = delete AUTH_LOCAL_KEY (localStorage w)) /\
  (forall key r u p,
     localStorage w !! key = Some (Serialized r) -> valid_at (next_reading w) r u p ->
     result_of (tryRead key) w = Normal (Some r) /\
     localStorage (world_after (tryRead key) w) = localStorage w) /\
  (forall r u,
     localStorage w !! AUTH_LOCAL_KEY = Some (Serialized r) ->
     username r = Some u -> u <> [] ->
     (forall e, exp r = Some e -> (next_reading w <= e)%Z) ->
     result_of readLocalAuth w = Normal (Some r) /\
     localStorage (world_after readLocalAuth w) = localStorage w) /\
  (forall r,
     result_of (tryRead AUTH_BASIC_KEY_PRIMARY) w = Normal (Some r) ->
     readBasicAuth w = tryRead AUTH_BASIC_KEY_PRIMARY w /\
     localStorage (world_after readBasicAuth w) !! AUTH_BASIC_KEY_SECOND
     = localStorage w !! AUTH_BASIC_KEY_SECOND) /\
  (result_of readBasicAuth w = Normal None ->
   result_of (tryRead AUTH_BASIC_KEY_PRIMARY) w = Normal None /\
   result_of (tryRead AUTH_BASIC_KEY_SECOND) (world_after (tryRead AUTH_BASIC_KEY_PRIMARY) w)
   = Normal None) /\
  (forall t,
     localStorage w !! AUTH_BASIC_KEY_PRIMARY = Some t ->
     stale_basic (next_reading w) t ->
     localStorage (world_after readBasicAuth w) !! AUTH_BASIC_KEY_PRIMARY = None /\
     readBasicAuth w
     = tryRead AUTH_BASIC_KEY_SECOND (world_after (tryRead AUTH_BASIC_KEY_PRIMARY) w)) /\
  (forall t,
     result_of (tryRead AUTH_BASIC_KEY_PRIMARY) w = Normal None ->
     localStorage w !! AUTH_BASIC_KEY_SECOND = Some t ->
     stale_basic (next_reading (world_after (tryRead AUTH_BASIC_KEY_PRIMARY) w)) t ->
     result_of readBasicAuth w = Normal None /\
     localStorage (world_after readBasicAuth w) !! AUTH_BASIC_KEY_SECOND = None) /\
  (exists r, result_of readBasicAuth w = Normal r) /\
  (exists r, result_of readLocalAuth w = Normal r).
Proof.
  intros Hok.
  split; [intros key t; by apply tryRead_stale_text|].
  split; [intros t; by apply readLocalAuth_stale_text|].
  split.
  { intros key r u p Hget Hv. unfold result_of, world_after.
    by rewrite (tryRead_valid key w r u p Hok Hget Hv). }
  split.
  { intros r u Hget Hu Hne Hexp. unfold result_of, world_after.
    by rewrite (readLocalAuth_valid w r u Hok Hget Hu Hne Hexp). }
  split.
  { intros r Hr. split; [exact (readBasicAuth_after_record w r Hr)|].
    unfold world_after at 1. rewrite (readBasicAuth_after_record w r Hr).
    fold (world_after (tryRead AUTH_BASIC_KEY_PRIMARY) w).
    by apply tryRead_keeps_other_keys. }
  split; [apply readBasicAuth_null|].
  split; [|split; [|split; [by apply readBasicAuth_returns | by apply readLocalAuth_returns]]].
  - intros t Hget Hstale.
    destruct (tryRead_stale_text _ _ _ Hok Hget Hstale) as [Hres Hls].
    split; [|exact (readBasicAuth_after_null w Hres)].
    unfold world_after at 1. rewrite (readBasicAuth_after_null w Hres).
    fold (world_after (tryRead AUTH_BASIC_KEY_SECOND)
            (world_after (tryRead AUTH_BASIC_KEY_PRIMARY) w)).
    rewrite tryRead_keeps_other_keys by discriminate.
    rewrite Hls. apply lookup_delete_eq.
  - intros t Hres Hget Hstale.
    set (w1 := world_after (tryRead AUTH_BASIC_KEY_PRIMARY) w) in *.
    assert (Hok1 : storage_denied w1 = false).
    { unfold w1. by rewrite tryRead_access. }
    assert (Hget1 : localStorage w1 !! AUTH_BASIC_KEY_SECOND = Some t).
    { unfold w1. rewrite tryRead_keeps_other_keys by discriminate. exact Hget. }
    destruct (tryRead_stale_text _ _ _ Hok1 Hget1 Hstale) as [Hres2 Hls2].
    unfold result_of at 1, world_after at 1.
    rewrite (readBasicAuth_after_null w Hres). fold w1.
    split; [exact Hres2|].
    fold (world_after (tryRead AUTH_BASIC_KEY_SECOND) w1).
    rewrite Hls2. apply lookup_delete_eq.
Qed.

(** C2 at concrete stores: a Basic record that expired a millisecond ago is
    removed, one that expires at the very reading is returned and kept. *)
Lemma C2_stale_credentials_witness :
  let w := page_load {[ AUTH_BASIC_KEY_PRIMARY :=
                          Serialized (basic_record (js "user") (js "pw") 999) ]}
             ∅ (at_path "/") (frozen_clock 1000) in
  let v := page_load {[ AUTH_BASIC_KEY_PRIMARY :=
                          Serialized (basic_record (js "user") (js "pw") 1000) ]}
             ∅ (at_path "/") (frozen_clock 1000) in
  (result_of (tryRead AUTH_BASIC_KEY_PRIMARY) w = Normal None /\
   localStorage (world_after (tryRead AUTH_BASIC_KEY_PRIMARY) w)
   = delete AUTH_BASIC_KEY_PRIMARY (localStorage w)) /\
  (result_of (tryRead AUTH_BASIC_KEY_PRIMARY) v
   = Normal (Some (basic_record (js "user") (js "pw") 1000)) /\
   localStorage (world_after (tryRead AUTH_BASIC_KEY_PRIMARY) v) = localStorage v).
Proof.
  intros w v. split.
  - apply (proj1 (C2_stale_credentials_are_purged w eq_refl) AUTH_BASIC_KEY_PRIMARY
             (Serialized (basic_record (js "user") (js "pw") 999))).
    + reflexivity.
    + right. right. exists 999%Z. split; [reflexivity | vm_compute; reflexivity].
  - apply (proj1 (proj2 (proj2 (C2_stale_credentials_are_purged v eq_refl)))
             AUTH_BASIC_KEY_PRIMARY _ (js "user") (js "pw")).
    + reflexivity.
    + repeat split; try discriminate.
      intros e He. injection He as <-. vm_compute. discriminate.
Defined.

(** C2 as stated fails at the boundary: a record whose expiry equals the
    reading of [Date.now()] satisfies [expiresAt <= Date.now()], yet
    [readBasicAuth] returns it and its entry stays; and an expired record under
    the secondary key is neither examined nor removed while the primary key
    holds a valid record. *)
Lemma C2_expiry_boundary_counterexample :
  let r := basic_record (js "user") (js "pw") 1000 in
  let w := page_load {[ AUTH_BASIC_KEY_PRIMARY := Serialized r ]} ∅ (at_path "/")
             (frozen_clock 1000) in
  let old := basic_record (js "old") (js "pw") 5 in
  let w2 := page_load {[ AUTH_BASIC_KEY_PRIMARY := Serialized r;
                         AUTH_BASIC_KEY_SECOND := Serialized old ]} ∅ (at_path "/")
              (frozen_clock 1000) in
  (1000 <= next_reading w)%Z /\
  result_of readBasicAuth w = Normal (Some r) /\
  localStorage (world_after readBasicAuth w) !! AUTH_BASIC_KEY_PRIMARY = Some (Serialized r) /\
  (5 <= next_reading w2)%Z /\
  result_of readBasicAuth w2 = Normal (Some r) /\
  localStorage (world_after readBasicAuth w2) !! AUTH_BASIC_KEY_SECOND
  = Some (Serialized old).
Proof. vm_compute. repeat split; intros; discriminate. Qed.

(** ** Remembering credentials *)

Lemma plain_get_assign k v o : plain_get k (plain_assign k v o) = Some v.
Proof.
  induction o as [|[k' v'] o IH]; simpl.
  - by rewrite String.eqb_refl.
  - destruct (String.eqb k k') eqn:E; simpl; rewrite ?String.eqb_refl, ?E; auto.
Qed.

Lemma plain_get_delete k o : plain_get k (plain_delete k o) = None.
Proof.
  induction o as [|[k' v'] o IH]; simpl; [reflexivity|].
  destruct (String.eqb k k') eqn:E; simpl; [exact IH|]. by rewrite E.
Qed.

Lemma rememberBasicAuth_eval u p days w :
  storage_denied w = false ->
  rememberBasicAuth u p days w =
  let stored :=
    with_localStorage
      (insert AUTH_BASIC_KEY_PRIMARY
         (Serialized (basic_record u p (next_reading w + days * 24 * 3600 * 1000))))
      (with_clock_reads S w) in
  match btoa (colon_join u p) with
  | Some token =>
      (Normal tt, with_defaults (plain_assign "Authorization" (basic_header token)) stored)
  | None => (Thrown InvalidCharacterError, stored)
  end.
Proof.
  intros Hok.
  unfold rememberBasicAuth, bind, Date_now, localStorage_setItem, storage_access, modify,
    btoa_js, JSON_stringify, basic_record, next_reading.
  cbn [storage_denied with_clock_reads]. rewrite Hok.
  destruct (btoa (colon_join u p)); reflexivity.
Qed.

Lemma rememberLocalAuth_eval u days w :
  storage_denied w = false ->
  rememberLocalAuth u days w =
  (Normal tt,
   with_localStorage
     (insert AUTH_LOCAL_KEY
        (Serialized (local_record u (next_reading w + days * 24 * 3600 * 1000))))
     (with_clock_reads S w)).
Proof.
  intros Hok.
  unfold rememberLocalAuth, bind, Date_now, localStorage_setItem, storage_access, modify.
  cbn [storage_denied with_clock_reads]. by rewrite Hok.
Qed.




(** ** Strings, paths and queries *)

Lemma append_cons c a b : String c a +:+ b = String c (a +:+ b).
Proof. reflexivity. Qed.

Lemma append_nil_l b : "" +:+ b = b.
Proof. reflexivity. Qed.

Lemma append_nil_r s : s +:+ "" = s.
Proof.
  induction s as [|c s IH]; [reflexivity|]. by rewrite append_cons, IH.
Qed.

Lemma append_assoc a b c : (a +:+ b) +:+ c = a +:+ (b +:+ c).
Proof.
  induction a as [|x a IH]; [reflexivity|]. by rewrite !append_cons, IH.
Qed.

Lemma string_mem_app c a b : string_mem c (a +:+ b) = string_mem c a || string_mem c b.
Proof.
  induction a as [|x a IH]; [reflexivity|].
  rewrite append_cons. simpl. by rewrite IH, orb_assoc.
Qed.

Lemma is_prefix_refl s : is_prefix s s = true.
Proof.
  induction s as [|c s IH]; simpl; [reflexivity|]. by rewrite Ascii.eqb_refl.
Qed.

Lemma is_prefix_app p s : is_prefix p (p +:+ s) = true.
Proof.
  induction p as [|c p IH]; [reflexivity|].
  rewrite append_cons. simpl. by rewrite Ascii.eqb_refl.
Qed.

Lemma is_prefix_drop p s :
  is_prefix p s = true -> s = p +:+ string_drop (String.length p) s.
Proof.
  revert s. induction p as [|c p IH]; intros s Hp; [reflexivity|].
  destruct s as [|d s]; simpl in Hp; [discriminate|].
  apply andb_true_iff in Hp as [Hc Hp]. apply Ascii.eqb_eq in Hc as ->.
  rewrite append_cons. simpl. f_equal. by apply IH.
Qed.

Lemma string_drop_app p s : string_drop (String.length p) (p +:+ s) = s.
Proof. induction p as [|c p IH]; [by destruct s | exact IH]. Qed.

Lemma is_prefix_mem q r s : is_prefix (String q r) s = true -> string_mem q s = true.
Proof.
  destruct s as [|c s]; simpl; [discriminate|]. intros Hp.
  apply andb_true_iff in Hp as [Hc _]. by rewrite Hc.
Qed.

Lemma query_free_whole l target :
  wf_location l = true ->
  string_mem "?" target = false ->
  pathname l +:+ search l = target -> pathname l = target.
Proof.
  unfold wf_location. intros Hwf Ht Heq.
  apply andb_true_iff in Hwf as [_ Hs]. apply orb_true_iff in Hs as [Hs | Hs].
  - apply String.eqb_eq in Hs. rewrite Hs in Heq. by rewrite append_nil_r in Heq.
  - exfalso. subst target. rewrite string_mem_app in Ht.
    apply orb_false_iff in Ht as [_ Ht].
    apply is_prefix_mem in Hs. congruence.
Qed.

Lemma query_split_gen q a b c d r :
  string_mem q a = false -> string_mem q c = false ->
  b = "" \/ is_prefix (String q "") b = true -> is_prefix (String q r) d = true ->
  a +:+ b = c +:+ d -> a = c.
Proof.
  revert c. induction a as [|x a IH]; intros c Ha Hc Hb Hd Heq.
  - rewrite append_nil_l in Heq. destruct c as [|y c]; [reflexivity|]. exfalso.
    destruct Hb as [-> | Hb]; [discriminate|].
    subst b. rewrite append_cons in Hb. simpl in Hb, Hc.
    apply andb_true_iff in Hb as [Hb _]. by rewrite Hb in Hc.
  - destruct c as [|y c].
    + exfalso. rewrite append_nil_l, append_cons in Heq. subst d. simpl in Hd, Ha.
      apply andb_true_iff in Hd as [Hd _]. by rewrite Hd in Ha.
    + rewrite !append_cons in Heq. injection Heq as -> Heq. f_equal.
      simpl in Ha, Hc.
      apply orb_false_iff in Ha as [_ Ha]. apply orb_false_iff in Hc as [_ Hc].
      by apply (IH c).
Qed.

Lemma query_split l base :
  wf_location l = true -> string_mem "?" base = false ->
  pathname l +:+ search l = base +:+ "?expired=1" -> pathname l = base.
Proof.
  unfold wf_location. intros Hwf Hb Heq.
  apply andb_true_iff in Hwf as [Hp Hs]. apply negb_true_iff in Hp.
  apply (query_split_gen "?" (pathname l) (search l) base "?expired=1" "expired=1");
    auto.
  apply orb_true_iff in Hs as [Hs | Hs]; [left; by apply String.eqb_eq | by right].
Qed.

(** ** The response error handler *)

Section Interceptor.
Context `{Config}.

Lemma go_eval to w :
  go to w =
  let href := BASE_URL +:+ (if startsWith to "/" then to else "/" +:+ to) in
  (Normal tt,
   if String.eqb (pathname (location w) +:+ search (location w)) href then w
   else with_href (fun l => l ++ [href]) w).
Proof.
  unfold go, bind, get_world, when, modify, ret. simpl.
  destruct (String.eqb _ _); reflexivity.
Qed.

(** [dropAuth] swallows a denied storage and still deletes the default header. *)
Lemma dropAuth_eval w :
  dropAuth w =
  (Normal tt,
   with_defaults (plain_delete "Authorization")
     (if storage_denied w then w
      else with_localStorage
             (fun ls => delete AUTH_BASIC_KEY_SECOND
                          (delete AUTH_BASIC_KEY_PRIMARY (delete AUTH_LOCAL_KEY ls))) w)).
Proof.
  unfold dropAuth, try_catch, bind, localStorage_removeItem, storage_access, modify, ret.
  destruct (storage_denied w) eqn:Hd; [reflexivity|].
  cbn [storage_denied with_localStorage]. rewrite Hd.
  cbn [storage_denied with_localStorage]. rewrite Hd. reflexivity.
Qed.

Lemma saveReturnTo_current w :
  saveReturnTo (Some (pathname (location w) +:+ search (location w))) w =
  (Normal tt,
   if storage_denied w then w
   else with_sessionStorage
          (insert RETURN_TO_KEY (pathname (location w) +:+ search (location w))) w).
Proof.
  unfold saveReturnTo, try_catch, bind, get_world, sessionStorage_setItem, storage_access,
    modify, ret.
  destruct (storage_denied w); [reflexivity|].
  destruct (pathname (location w) +:+ search (location w)) eqn:E; simpl; by rewrite ?E.
Qed.

(** A failure without a response, or with the code [ERR_NETWORK]. *)
Lemma onRejected_network {A} err w :
  err_code err = Some "ERR_NETWORK" \/ err_response_status err = None ->
  response_interceptor_onRejected (A := A) err w =
  (Thrown err,
   if startsWith (pathname (location w)) (BASE_URL +:+ "/network") then w
   else world_after (go "/network") w).
Proof.
  intros Hnet. unfold response_interceptor_onRejected, bind, get_world. simpl.
  assert (Hb : bool_decide (err_code err = Some "ERR_NETWORK")
               || bool_decide (err_response_status err = None) = true).
  { destruct Hnet as [Hc | Hr]; [rewrite (bool_decide_eq_true_2 _ Hc) |
      rewrite (bool_decide_eq_true_2 _ Hr), orb_true_r]; reflexivity. }
  rewrite Hb. unfold when, world_after.
  destruct (startsWith _ _); simpl; [reflexivity|].
  rewrite go_eval. reflexivity.
Qed.

Lemma if_same {B} (b : bool) (x : B) : (if b then x else x) = x.
Proof. by destruct b. Qed.

Lemma go_absolute to w :
  startsWith to "/" = true ->
  go to w =
  (Normal tt,
   if String.eqb (pathname (location w) +:+ search (location w)) (BASE_URL +:+ to) then w
   else with_href (fun l => l ++ [BASE_URL +:+ to]) w).
Proof. intros Hto. rewrite go_eval. cbv zeta. by rewrite Hto. Qed.

(** Navigation to a target without a query, from a path that does not start
    with one of the target's prefixes, is never suppressed by [go]'s own guard. *)
Lemma go_assigns to guard w :
  wf_base = true -> wf_location (location w) = true ->
  startsWith to "/" = true -> string_mem "?" to = false ->
  is_prefix guard (BASE_URL +:+ to) = true ->
  startsWith (pathname (location w)) guard = false ->
  go to w = (Normal tt, with_href (fun l => l ++ [BASE_URL +:+ to]) w).
Proof.
  intros Hbase Hloc Hto Hq Hguard Hnot. rewrite go_absolute by exact Hto.
  destruct (String.eqb _ _) eqn:E; [|reflexivity]. exfalso.
  apply String.eqb_eq in E.
  apply (query_free_whole (location w)) in E; [|exact Hloc|].
  - unfold startsWith in Hnot. rewrite E in Hnot. congruence.
  - rewrite string_mem_app, Hq. unfold wf_base in Hbase.
    apply negb_true_iff in Hbase. by rewrite Hbase.
Qed.

Lemma go_total to w : go to w = (Normal tt, world_after (go to) w).
Proof. unfold world_after. by rewrite go_eval. Qed.

Lemma dropAuth_total w : dropAuth w = (Normal tt, world_after dropAuth w).
Proof. unfold world_after. by rewrite dropAuth_eval. Qed.

Lemma saveReturnTo_total p w :
  saveReturnTo p w = (Normal tt, world_after (saveReturnTo p) w).
Proof.
  unfold world_after, saveReturnTo, try_catch, bind, get_world, sessionStorage_setItem,
    storage_access, modify, ret.
  by destruct (storage_denied w).
Qed.

Lemma onRejected_response {A} err st w :
  err_response_status err = Some st -> err_code err <> Some "ERR_NETWORK" ->
  response_interceptor_onRejected (A := A) err w =
  (Thrown err,
   let path := pathname (location w) in
   if is_auth_status st && is_local AUTH_MODE then w
   else if is_auth_status st && negb (skips_auth_redirect err) then
     let w1 := world_after dropAuth w in
     if negb (whitelist_test (replace_first BASE_URL "" path))
        && negb (String.eqb path (BASE_URL +:+ "/profile"))
     then world_after (go "/profile?expired=1")
            (world_after (saveReturnTo (Some (path +:+ search (location w)))) w1)
     else w1
   else if includes handled st && negb (startsWith path (BASE_URL +:+ "/error/"))
     then world_after (go ("/error/" +:+ number_to_string st)) w
     else w).
Proof.
  intros Hst Hcode. unfold response_interceptor_onRejected, bind, get_world.
  cbv beta iota zeta.
  rewrite (bool_decide_eq_false_2 _ Hcode).
  rewrite Hst. rewrite bool_decide_eq_false_2 by discriminate.
  cbv beta iota zeta. change (false || false) with false. cbv iota.
  change (default 0%Z (Some st)) with st.
  destruct (is_auth_status st && is_local AUTH_MODE); [reflexivity|].
  fold (skips_auth_redirect err).
  destruct (is_auth_status st && negb (skips_auth_redirect err)).
  - rewrite dropAuth_total. cbv iota. unfold when.
    destruct (negb _ && negb _); [|reflexivity].
    unfold bind. rewrite saveReturnTo_total. cbv iota.
    rewrite go_total. reflexivity.
  - unfold when.
    destruct (includes handled st); [|reflexivity].
    destruct (negb (startsWith _ _)); [|reflexivity].
    rewrite go_total. reflexivity.
Qed.

Lemma includes_In l z : includes l z = true <-> In z l.
Proof.
  unfold includes. rewrite existsb_exists. split.
  - intros (x & Hx & Hz). apply Z.eqb_eq in Hz. by subst.
  - intros Hz. exists z. split; [exact Hz | apply Z.eqb_refl].
Qed.

Lemma base_query_free suffix :
  wf_base = true -> string_mem "?" suffix = false ->
  string_mem "?" (BASE_URL +:+ suffix) = false.
Proof.
  unfold wf_base. intros Hb Hs. apply negb_true_iff in Hb.
  by rewrite string_mem_app, Hb, Hs.
Qed.

Lemma go_network_assigns w :
  wf_base = true -> wf_location (location w) = true ->
  startsWith (pathname (location w)) (BASE_URL +:+ "/network") = false ->
  go "/network" w = (Normal tt, with_href (fun l => l ++ [BASE_URL +:+ "/network"]) w).
Proof.
  intros Hb Hl Hn.
  apply (go_assigns "/network" (BASE_URL +:+ "/network")); auto.
  apply is_prefix_refl.
Qed.

Lemma handle_failures_cons err errs w :
  handle_failures (err :: errs) w =
  handle_failures errs (world_after (response_interceptor_onRejected (A := unit) err) w).
Proof. reflexivity. Qed.

(** Off the guard every failure of a series assigns the same address again:
    an assignment to [location.href] does not change the path the guard reads,
    which changes only when the browser has loaded the new document. *)
Lemma handle_failures_unguarded errs : forall w,
  wf_base = true -> wf_location (location w) = true ->
  startsWith (pathname (location w)) (BASE_URL +:+ "/network") = false ->
  Forall (fun err => err_response_status err = None) errs ->
  href_assignments (handle_failures errs w)
  = href_assignments w ++ repeat (BASE_URL +:+ "/network") (length errs) /\
  location (handle_failures errs w) = location w.
Proof.
  induction errs as [|err errs IH]; intros w Hb Hl Hoff Hall.
  - cbn [length repeat]. by rewrite app_nil_r.
  - apply Forall_cons in Hall as [Hnone Hall].
    rewrite handle_failures_cons. unfold world_after.
    rewrite onRejected_network by (by right). rewrite Hoff.
    unfold world_after. rewrite go_network_assigns by assumption. cbn [snd].
    set (w1 := with_href _ w).
    destruct (IH w1 Hb Hl Hoff Hall) as [Hh Hloc].
    rewrite Hh, Hloc. split; [|reflexivity].
    unfold w1. cbn [href_assignments with_href length repeat].
    by rewrite <- app_assoc.
Qed.

Lemma network_view_is_guarded path :
  on_network_view path = true -> startsWith path (BASE_URL +:+ "/network") = true.
Proof.
  unfold on_network_view, startsWith. intros Hv.
  apply orb_true_iff in Hv as [Heq | Hpre].
  - apply String.eqb_eq in Heq as ->. apply is_prefix_refl.
  - apply is_prefix_drop in Hpre.
    replace (BASE_URL +:+ "/network/") with ((BASE_URL +:+ "/network") +:+ "/") in Hpre
      by (by rewrite append_assoc).
    rewrite Hpre, append_assoc. apply is_prefix_app.
Qed.

(** C9, as amended.  A failure that produced no response object is rejected
    to the caller, and assigns [location.href = BASE_URL/network] unless the
    current path starts with the string [BASE_URL/network]: the guard is a
    prefix test, passed by the network view ([BASE_URL/network] and the paths
    below it) and by every other path that begins with these characters.
    While the path passes the guard, any series of such failures leaves the
    world, and so the list of navigations, unchanged.  While it does not, each
    failure of a series assigns that one address again, the path the guard
    reads being that of the document still displayed; the address itself is
    the network view, where no further failure navigates. *)
Theorem C9_network_failure_navigation (A : Type) (w : World) :
  wf_base = true -> wf_location (location w) = true ->
  let target := BASE_URL +:+ "/network" in
  let guarded := startsWith (pathname (location w)) target in
  (forall err, err_response_status err = None ->
     response_interceptor_onRejected (A := A) err w =
     (Thrown err, if guarded then w else with_href (fun l => l ++ [target]) w)) /\
  (on_network_view (pathname (location w)) = true -> guarded = true) /\
  on_network_view target = true /\
  (forall errs, Forall (fun err => err_response_status err = None) errs ->
     (guarded = true ->
      handle_failures errs w = w /\
      href_assignments (handle_failures errs w) = href_assignments w) /\
     (guarded = false ->
      href_assignments (handle_failures errs w)
      = href_assignments w ++ repeat target (length errs) /\
      location (handle_failures errs w) = location w)).
Proof.
  intros Hb Hl target guarded. split; [|split; [|split]].
  - intros err Hnone. rewrite onRejected_network by (by right). fold target guarded.
    destruct guarded eqn:E; [reflexivity|].
    unfold world_after. by rewrite go_network_assigns.
  - apply network_view_is_guarded.
  - unfold on_network_view. by rewrite String.eqb_refl.
  - intros errs Hall. split.
    + intros Hon.
      assert (Hw : handle_failures errs w = w).
      { induction Hall as [|err errs Hnone _ IH]; [reflexivity|].
        rewrite handle_failures_cons. unfold world_after.
        rewrite onRejected_network by (by right). fold target guarded.
        rewrite Hon. exact IH. }
      by rewrite Hw.
    + intros Hoff. by apply handle_failures_unguarded.
Qed.

Lemma recognized_not_auth st : In st handled -> is_auth_status st = false.
Proof.
  unfold handled. simpl. intros Hin.
  repeat (destruct Hin as [<- | Hin]; [reflexivity|]). destruct Hin.
Qed.

Lemma recognized_target st :
  In st handled ->
  string_mem "?" ("/error/" +:+ number_to_string st) = false.
Proof.
  unfold handled. simpl. intros Hin.
  repeat (destruct Hin as [<- | Hin]; [reflexivity|]). destruct Hin.
Qed.

(** C8, as amended.  For a failed response that is not handled as an auth
    error, the classifier navigates to [/error/<status>] exactly when the
    status is one of 404, 409, 418, 429, 500, 502, 503, 504 and the current
    path does not already start with [BASE_URL/error/]; for every other status
    (501 and the rest of the 5xx family included) it changes nothing.  The
    error is rejected to the caller in all cases. *)
Theorem C8_recognized_status_navigation (A : Type) (w : World) (err : JsError) (st : Z) :
  wf_base = true -> wf_location (location w) = true ->
  err_response_status err = Some st -> err_code err <> Some "ERR_NETWORK" ->
  is_auth_status st && negb (is_local AUTH_MODE) && negb (skips_auth_redirect err) = false ->
  result_of (response_interceptor_onRejected (A := A) err) w = Thrown err /\
  (In st [404; 409; 418; 429; 500; 502; 503; 504]%Z ->
   world_after (response_interceptor_onRejected (A := A) err) w =
   if startsWith (pathname (location w)) (BASE_URL +:+ "/error/") then w
   else with_href (fun l => l ++ [BASE_URL +:+ "/error/" +:+ number_to_string st]) w) /\
  (~ In st [404; 409; 418; 429; 500; 502; 503; 504]%Z ->
   world_after (response_interceptor_onRejected (A := A) err) w = w).
Proof.
  intros Hb Hl Hst Hcode Hnot. unfold result_of, world_after.
  rewrite (onRejected_response err st w Hst Hcode). cbn [fst snd].
  split; [reflexivity|]. split.
  - intros Hin. change (In st handled) in Hin.
    rewrite (recognized_not_auth st Hin). cbn [andb].
    apply includes_In in Hin as Hinc. rewrite Hinc. cbn [andb].
    destruct (startsWith _ _) eqn:E; [reflexivity|]. cbn [negb].
    unfold world_after.
    rewrite (go_assigns ("/error/" +:+ number_to_string st) (BASE_URL +:+ "/error/"));
      auto.
    + by apply recognized_target.
    + rewrite <- append_assoc. apply is_prefix_app.
  - intros Hout.
    assert (Hinc : includes handled st = false).
    { destruct (includes handled st) eqn:E; [|reflexivity].
      exfalso. apply Hout. apply includes_In in E. exact E. }
    rewrite Hinc. cbn [andb].
    destruct (is_auth_status st) eqn:Ea; cbn [andb] in *; [|reflexivity].
    destruct (is_local AUTH_MODE); [reflexivity|]. cbn [negb andb] in Hnot.
    rewrite Hnot. reflexivity.
Qed.


Lemma segment_at_spec name r :
  segment_at name r = true <-> r = name \/ exists rest, r = name +:+ "/" +:+ rest.
Proof.
  unfold segment_at. split.
  - intros Hs. apply andb_true_iff in Hs as [Hp Hd].
    apply is_prefix_drop in Hp.
    destruct (string_drop (String.length name) r) as [|c rest] eqn:E.
    + left. by rewrite append_nil_r in Hp.
    + right. apply Ascii.eqb_eq in Hd as ->. by exists rest.
  - intros [-> | [rest ->]].
    + rewrite is_prefix_refl. rewrite <- (append_nil_r name) at 2.
      by rewrite string_drop_app.
    + rewrite is_prefix_app, string_drop_app. reflexivity.
Qed.

(** The whitelist pattern in words: the path is [/name] or starts with
    [/name/], for [name] one of error, network, profile, register. *)
Lemma whitelist_test_spec s :
  whitelist_test s = true <->
  exists name, In name exempt_segments /\
    (s = "/" +:+ name \/ exists rest, s = "/" +:+ name +:+ "/" +:+ rest).
Proof.
  unfold whitelist_test, exempt_segments. split.
  - destruct s as [|c r]; [discriminate|]. intros Hs.
    apply andb_true_iff in Hs as [Hc Hs]. apply Ascii.eqb_eq in Hc as ->.
    repeat (apply orb_true_iff in Hs as [Hs | Hs]);
      apply segment_at_spec in Hs;
      [exists "error" | exists "network" | exists "profile" | exists "register"];
      (split; [simpl; tauto|]);
      (destruct Hs as [-> | [rest ->]]; [left; reflexivity | right; by exists rest]).
  - intros (name & Hin & Hs).
    assert (Hseg : forall r, (r = name \/ exists rest, r = name +:+ "/" +:+ rest) ->
              segment_at "error" r || segment_at "network" r
              || segment_at "profile" r || segment_at "register" r = true).
    { intros r Hr. apply segment_at_spec in Hr.
      simpl in Hin. destruct Hin as [<- | [<- | [<- | [<- | []]]]]; rewrite Hr;
        rewrite ?orb_true_r; reflexivity. }
    destruct Hs as [-> | [rest ->]]; rewrite append_cons, append_nil_l;
      cbv beta iota; rewrite Ascii.eqb_refl; cbn [andb]; apply Hseg;
      [by left | right; by exists rest].
Qed.

(** C1, as amended.  For a failed response with status 401 or 403 handled in
    'basic' or 'hybrid' mode, the storage being accessible: with the opt-out
    header [x-skip-auth-redirect]
    equal to "1" the world is left as it was; otherwise the three credential
    keys are removed from localStorage and the default [Authorization] header
    is deleted, and, unless the current path with the first occurrence of the
    base address removed is [/error], [/network], [/profile] or [/register] or
    continues one of these with a slash, or the path equals [BASE_URL/profile],
    the path and query are stored under [return_to] and one navigation to
    [BASE_URL/profile?expired=1] is made.  The error is rejected to the caller
    in every branch. *)
Theorem C1_auth_failure_handling (A : Type) (w : World) (err : JsError) (st : Z) :
  wf_base = true -> wf_location (location w) = true ->
  storage_denied w = false ->
  is_local AUTH_MODE = false ->
  err_response_status err = Some st -> err_code err <> Some "ERR_NETWORK" ->
  st = 401%Z \/ st = 403%Z ->
  let path := pathname (location w) in
  let w' := world_after (response_interceptor_onRejected (A := A) err) w in
  result_of (response_interceptor_onRejected (A := A) err) w = Thrown err /\
  (getHeaderValue (err_config_headers err) "x-skip-auth-redirect" = Some "1" -> w' = w) /\
  (getHeaderValue (err_config_headers err) "x-skip-auth-redirect" <> Some "1" ->
   localStorage w'
   = delete AUTH_BASIC_KEY_SECOND
       (delete AUTH_BASIC_KEY_PRIMARY (delete AUTH_LOCAL_KEY (localStorage w))) /\
   defaults_headers_common w' = plain_delete "Authorization" (defaults_headers_common w) /\
   (exempt_from_redirect path = true ->
    sessionStorage w' = sessionStorage w /\ href_assignments w' = href_assignments w) /\
   (exempt_from_redirect path = false ->
    sessionStorage w' = <[RETURN_TO_KEY := path +:+ search (location w)]> (sessionStorage w) /\
    href_assignments w' = href_assignments w ++ [BASE_URL +:+ "/profile?expired=1"])).
Proof.
  intros Hb Hl Hok Hmode Hst Hcode H401 path w'. subst w'.
  unfold result_of, world_after.
  rewrite (onRejected_response err st w Hst Hcode). cbn [fst snd].
  assert (Ha : is_auth_status st = true) by (destruct H401 as [-> | ->]; reflexivity).
  rewrite Ha, Hmode. cbn [andb]. fold path.
  split; [reflexivity|]. split.
  - intros Hskip. unfold skips_auth_redirect.
    rewrite (bool_decide_eq_true_2 _ Hskip). cbn [negb].
    assert (Hinc : includes handled st = false) by (destruct H401 as [-> | ->]; reflexivity).
    rewrite Hinc. reflexivity.
  - intros Hskip. unfold skips_auth_redirect.
    rewrite (bool_decide_eq_false_2 _ Hskip). cbn [negb].
    unfold world_after. rewrite dropAuth_eval, Hok. cbn [snd].
    unfold exempt_from_redirect. fold path.
    destruct (whitelist_test (replace_first BASE_URL "" path)
              || String.eqb path (BASE_URL +:+ "/profile")) eqn:Ex.
    + apply orb_true_iff in Ex.
      assert (Hg : negb (whitelist_test (replace_first BASE_URL "" path))
                   && negb (String.eqb path (BASE_URL +:+ "/profile")) = false).
      { destruct Ex as [-> | ->]; rewrite ?andb_false_r; reflexivity. }
      rewrite Hg. repeat split; try reflexivity; discriminate.
    + apply orb_false_iff in Ex as [Ew Ep]. rewrite Ew, Ep. cbn [negb andb].
      set (w1 := with_defaults _ _).
      change (path +:+ search (location w))
        with (pathname (location w1) +:+ search (location w1)).
      rewrite (saveReturnTo_current w1).
      change (storage_denied w1) with (storage_denied w). rewrite Hok. cbn [snd].
      rewrite go_absolute by reflexivity. cbn [snd]. unfold w1.
      match goal with
      | |- context [String.eqb (?a +:+ ?b) ?c] => destruct (String.eqb (a +:+ b) c) eqn:E
      end.
      * exfalso. apply String.eqb_eq in E.
        change (pathname (location w) +:+ search (location w)
                = BASE_URL +:+ ("/profile" +:+ "?expired=1")) in E.
        rewrite <- append_assoc in E.
        apply (query_split (location w)) in E; [|exact Hl|by apply base_query_free].
        fold path in E. rewrite E, String.eqb_refl in Ep. discriminate.
      * repeat split; try reflexivity; discriminate.
Qed.

End Interceptor.

(** C9 at concrete worlds: a network failure on [/articles] navigates once;
    three more failures on [/network] navigate nowhere. *)
Lemma C9_network_failure_witness :
  let err := AxiosError (Some "ERR_NETWORK") None None in
  let w := page_load ∅ ∅ (at_path "/articles") (frozen_clock 0) in
  let v := page_load ∅ ∅ (at_path "/network") (frozen_clock 0) in
  response_interceptor_onRejected (H := basic_root) (A := unit) err w
  = (Thrown err, with_href (fun l => l ++ ["/network"]) w) /\
  handle_failures (H := basic_root) [err; err; err] v = v.
Proof.
  intros err w v. split.
  - exact (proj1 (C9_network_failure_navigation (H := basic_root) unit w eq_refl eq_refl)
             err eq_refl).
  - apply (proj1 (proj2 (proj2 (proj2
             (C9_network_failure_navigation (H := basic_root) unit v eq_refl eq_refl)))
             [err; err; err] ltac:(repeat constructor))).
    reflexivity.
Defined.

(** C9 as stated fails off the network view: on [/networking], which is not
    the view, a failure without a response navigates nowhere, the path
    beginning with the characters of [/network]. *)
Lemma C9_prefix_guard_counterexample :
  let err := AxiosError (Some "ERR_NETWORK") None None in
  let w := page_load ∅ ∅ (at_path "/networking") (frozen_clock 0) in
  err_response_status err = None /\
  on_network_view (H := basic_root) (pathname (location w)) = false /\
  response_interceptor_onRejected (H := basic_root) (A := unit) err w = (Thrown err, w) /\
  href_assignments (world_after (response_interceptor_onRejected (H := basic_root)
                                   (A := unit) err) w) = [].
Proof. vm_compute. repeat split. Qed.

(** C8 at a concrete world: a 404 on [/articles]. *)
Lemma C8_recognized_status_witness :
  let err := AxiosError (Some "ERR_BAD_REQUEST") (Some 404%Z) None in
  let w := page_load ∅ ∅ (at_path "/articles") (frozen_clock 0) in
  world_after (response_interceptor_onRejected (H := basic_root) (A := unit) err) w
  = with_href (fun l => l ++ ["/error/404"]) w.
Proof.
  intros err w.
  apply (proj1 (proj2 (C8_recognized_status_navigation (H := basic_root) unit w err 404
                         eq_refl eq_refl eq_refl ltac:(discriminate) eq_refl))).
  left. reflexivity.
Defined.

(** C8 as stated fails for the rest of the 5xx family: a 501 on [/articles]
    causes no navigation. *)
Lemma C8_5xx_family_counterexample :
  let err := AxiosError (Some "ERR_BAD_RESPONSE") (Some 501%Z) None in
  let w := page_load ∅ ∅ (at_path "/articles") (frozen_clock 0) in
  (500 <= 501 < 600)%Z /\
  href_assignments
    (world_after (response_interceptor_onRejected (H := basic_root) (A := unit) err) w)
  = [].
Proof. vm_compute. repeat split; intros; discriminate. Qed.

(** C1 at Scenario C: a 403 on [/edit/42] in basic mode, no opt-out header. *)
Lemma C1_auth_failure_witness :
  let config := {| url := "/articles/42"; headers := Some (AxiosHeaders ∅) |} in
  let err := AxiosError (Some "ERR_BAD_REQUEST") (Some 403%Z) (Some config) in
  let w := page_load
             {[ AUTH_BASIC_KEY_PRIMARY := Serialized (basic_record (js "user") (js "pw") 9000) ]}
             ∅ (at_path "/edit/42") (frozen_clock 1000) in
  let w' := world_after (response_interceptor_onRejected (H := basic_root) (A := unit) err) w in
  result_of (response_interceptor_onRejected (H := basic_root) (A := unit) err) w = Thrown err /\
  localStorage w' = ∅ /\
  sessionStorage w' !! RETURN_TO_KEY = Some "/edit/42" /\
  href_assignments w' = ["/profile?expired=1"].
Proof.
  intros config err w w'.
  destruct (C1_auth_failure_handling (H := basic_root) unit w err 403
              eq_refl eq_refl eq_refl eq_refl eq_refl ltac:(discriminate)
              (or_intror eq_refl))
    as (Hres & _ & Hdrop).
  destruct (Hdrop ltac:(discriminate)) as (Hls & _ & _ & Hnav).
  destruct (Hnav eq_refl) as [Hss Hhref].
  split; [exact Hres|]. split; [|split].
  - fold w' in Hls. rewrite Hls. vm_compute. reflexivity.
  - fold w' in Hss. rewrite Hss. reflexivity.
  - exact Hhref.
Defined.

(** C1 as stated fails on a path that starts with [/error] without being an
    error page: on [/errors] the path counts as exempt in the claim's words,
    yet the handler stores it under [return_to] and navigates to the login
    surface. *)
Lemma C1_prefix_whitelist_counterexample :
  let config := {| url := "/articles"; headers := Some (AxiosHeaders ∅) |} in
  let err := AxiosError (Some "ERR_BAD_REQUEST") (Some 401%Z) (Some config) in
  let w := page_load ∅ ∅ (at_path "/errors") (frozen_clock 0) in
  let w' := world_after (response_interceptor_onRejected (H := basic_root) (A := unit) err) w in
  claimed_exempt (H := basic_root) "/errors" = true /\
  sessionStorage w' !! RETURN_TO_KEY = Some "/errors" /\
  href_assignments w' = ["/profile?expired=1"].
Proof. vm_compute. repeat split. Qed.

(** ** Mode isolation: a credential-free session in local mode *)

Lemma credential_free_frame w w' :
  defaults_headers_common w' = defaults_headers_common w ->
  sent_requests w' = sent_requests w ->
  credential_free w -> credential_free w'.
Proof. unfold credential_free. by intros -> ->. Qed.

Lemma preserves_ret {A} (a : A) : preserves (ret a).
Proof. by intros w Hw. Qed.

Lemma preserves_throw {A} e : preserves (throw (A := A) e).
Proof. by intros w Hw. Qed.

Lemma preserves_get_world : preserves get_world.
Proof. by intros w Hw. Qed.

Lemma preserves_bind {A B} (m : JS A) (k : A -> JS B) :
  preserves m -> (forall a, preserves (k a)) -> preserves (bind m k).
Proof.
  intros Hm Hk w Hw. unfold world_after, bind.
  specialize (Hm w Hw). unfold world_after in Hm.
  destruct (m w) as [[a|e] w1]; simpl in *; [by apply Hk | exact Hm].
Qed.

Lemma preserves_try_catch {A} (m : JS A) (h : JsError -> JS A) :
  preserves m -> (forall e, preserves (h e)) -> preserves (try_catch m h).
Proof.
  intros Hm Hh w Hw. unfold world_after, try_catch.
  specialize (Hm w Hw). unfold world_after in Hm.
  destruct (m w) as [[a|e] w1]; simpl in *; [exact Hm | by apply Hh].
Qed.

Lemma preserves_when b m : preserves m -> preserves (when b m).
Proof. intros Hm. destruct b; [exact Hm | apply preserves_ret]. Qed.

Lemma preserves_modify f :
  (forall w, defaults_headers_common (f w) = defaults_headers_common w) ->
  (forall w, sent_requests (f w) = sent_requests w) ->
  preserves (modify f).
Proof. intros Hd Hs w Hw. by apply (credential_free_frame w). Qed.

Lemma forallb_filter {A} (f g : A -> bool) l :
  forallb f l = true -> forallb f (List.filter g l) = true.
Proof.
  induction l as [|a l IH]; simpl; [done|]. intros Hl.
  apply andb_true_iff in Hl as [Ha Hl].
  destruct (g a); simpl; rewrite ?Ha; auto.
Qed.

Lemma no_authorization_delete d :
  no_authorization d = true -> no_authorization (plain_delete "Authorization" d) = true.
Proof. apply forallb_filter. Qed.

Lemma preserves_delete_default :
  preserves (modify (with_defaults (plain_delete "Authorization"))).
Proof.
  intros w [Hd Hs]. split; [|exact Hs].
  change (no_authorization (plain_delete "Authorization" (defaults_headers_common w)) = true).
  by apply no_authorization_delete.
Qed.

Lemma preserves_storage_access {A} (m : JS A) :
  preserves m -> preserves (storage_access m).
Proof.
  intros Hm w Hw. unfold world_after, storage_access.
  destruct (storage_denied w); [exact Hw | by apply Hm].
Qed.

Create HintDb preserve.
#[local] Hint Resolve preserves_ret preserves_throw preserves_get_world
  preserves_delete_default : preserve.

Ltac preserve_step :=
  first
    [ solve [auto with preserve]
    | apply preserves_bind; [|intros ?]
    | apply preserves_try_catch; [|intros ?]
    | apply preserves_when
    | apply preserves_storage_access
    | apply preserves_modify; [intros ?; reflexivity | intros ?; reflexivity]
    | match goal with
      | |- preserves (match ?x with _ => _ end) => destruct x
      | |- preserves (if ?b then _ else _) => destruct b
      end ].

Ltac preserve := repeat preserve_step.

Lemma preserves_Date_now : preserves Date_now.
Proof. intros w Hw. by apply (credential_free_frame w). Qed.

Lemma preserves_localStorage_getItem k : preserves (localStorage_getItem k).
Proof. apply preserves_storage_access. by intros w Hw. Qed.

Lemma preserves_sessionStorage_getItem k : preserves (sessionStorage_getItem k).
Proof. apply preserves_storage_access. by intros w Hw. Qed.

Lemma preserves_JSON_parse t : preserves (JSON_parse t).
Proof. destruct t; preserve. Qed.

Section Local.
Context `{Config}.
Hypothesis Hlocal : AUTH_MODE = ModeLocal.

Lemma preserves_go to : preserves (go to).
Proof. unfold go. preserve. Qed.

Lemma preserves_readLocalAuth : preserves readLocalAuth.
Proof.
  unfold readLocalAuth, localStorage_removeItem.
  apply preserves_try_catch; [|intros ?; preserve].
  apply preserves_bind; [apply preserves_localStorage_getItem|]. intros raw.
  destruct raw as [[[|c s]|o]|]; try apply preserves_ret;
    (apply preserves_bind; [apply preserves_JSON_parse|]; intros parsed;
     destruct (negb _); [preserve|];
     apply preserves_bind; [apply preserves_Date_now|]; intros now; preserve).
Qed.

Lemma preserves_rememberLocalAuth u days : preserves (rememberLocalAuth u days).
Proof.
  unfold rememberLocalAuth, localStorage_setItem.
  apply preserves_bind; [apply preserves_Date_now|]. intros now. preserve.
Qed.

Lemma preserves_rememberAuth u p days : preserves (rememberAuth u p days).
Proof. unfold rememberAuth. rewrite Hlocal. apply preserves_rememberLocalAuth. Qed.

Lemma preserves_dropAuth : preserves dropAuth.
Proof. unfold dropAuth, localStorage_removeItem. preserve. Qed.

Lemma preserves_saveReturnTo p : preserves (saveReturnTo p).
Proof. unfold saveReturnTo, sessionStorage_setItem. preserve. Qed.

Lemma preserves_consumeReturnTo : preserves consumeReturnTo.
Proof.
  unfold consumeReturnTo, sessionStorage_removeItem.
  apply preserves_try_catch; [|intros ?; preserve].
  apply preserves_bind; [apply preserves_sessionStorage_getItem|]. intros v. preserve.
Qed.

Lemma preserves_onRejected {A} err : preserves (response_interceptor_onRejected (A := A) err).
Proof.
  unfold response_interceptor_onRejected. rewrite Hlocal.
  apply preserves_bind; [apply preserves_get_world|]. intros w0.
  destruct (_ || _).
  - apply preserves_bind; [|intros ?; preserve].
    apply preserves_when, preserves_go.
  - cbv zeta. rewrite andb_true_r.
    destruct (is_auth_status _); [preserve|]. cbn [andb].
    apply preserves_bind; [|intros ?; preserve].
    apply preserves_when, preserves_when, preserves_go.
Qed.

Lemma concat_no_authorization d own :
  no_authorization d = true -> no_authorization own = true ->
  AxiosHeaders_concat d own !! "authorization" = None.
Proof.
  unfold AxiosHeaders_concat, no_authorization. intros Hd Hown.
  assert (Hall : forallb (fun kv => negb (String.eqb (toLowerCase (fst kv)) "authorization"))
                   (d ++ own) = true) by (rewrite forallb_app, Hd, Hown; reflexivity).
  clear Hd Hown. generalize (d ++ own) Hall. clear Hall. intros l.
  assert (Hgen : forall (m : gmap string string),
            m !! "authorization" = None ->
            forallb (fun kv => negb (String.eqb (toLowerCase (fst kv)) "authorization")) l
            = true ->
            fold_left (fun h kv => <[toLowerCase (fst kv) := snd kv]> h) l m
            !! "authorization" = None).
  { induction l as [|[k v] l IH]; intros m Hm Hl; [exact Hm|].
    cbn [fold_left forallb fst snd] in *. apply andb_true_iff in Hl as [Hk Hl].
    apply IH; [|exact Hl]. rewrite lookup_insert_ne; [exact Hm|].
    intros Heq. rewrite Heq, String.eqb_refl in Hk. discriminate. }
  intros Hl. apply Hgen; [apply lookup_empty | exact Hl].
Qed.

Lemma preserves_api_request url own net :
  no_authorization own = true -> preserves (api_request url own net).
Proof.
  intros Hown. unfold api_request.
  apply preserves_try_catch; [|intros e; apply preserves_onRejected].
  intros w Hw. unfold world_after, bind, get_world, request_interceptor.
  rewrite Hlocal. cbn [is_local negb ret fst snd modify].
  set (config := {| url := url; headers := _ |}).
  assert (Hsent : credential_free (with_sent (fun l => l ++ [config]) w)).
  { destruct Hw as [Hd Hs]. split; [exact Hd|].
    cbn [sent_requests with_sent]. apply Forall_app. split; [exact Hs|].
    constructor; [|constructor]. unfold unauthenticated, config. cbn [headers getHeaderValue].
    by apply concat_no_authorization. }
  destruct (net config) as [st d|c]; [destruct (_ && _)|]; exact Hsent.
Qed.

Lemma preserves_loginLocal p : preserves (loginLocal p).
Proof.
  unfold loginLocal. destruct (_ <? _)%nat; [preserve|].
  apply preserves_bind; [|intros ?; preserve].
  apply preserves_when, preserves_rememberLocalAuth.
Qed.

Lemma preserves_unwrap t : preserves t -> preserves (unwrap t).
Proof. intros Ht. unfold unwrap. apply preserves_bind; [exact Ht|]. intros r. preserve. Qed.

Lemma preserves_dispatch_login p net : preserves (dispatch_login p net).
Proof.
  unfold dispatch_login, login. rewrite Hlocal.
  apply preserves_bind; [preserve|]. intros _.
  apply preserves_bind.
  - apply preserves_try_catch; [|intros ?; preserve].
    apply preserves_bind; [apply preserves_unwrap, preserves_loginLocal|].
    intros ?. preserve.
  - intros r. preserve.
Qed.

Lemma preserves_dispatch_initAuth net : preserves (dispatch_initAuth net).
Proof.
  unfold dispatch_initAuth, initAuth. rewrite Hlocal.
  apply preserves_bind; [preserve|]. intros _.
  apply preserves_bind.
  - apply preserves_try_catch; [|intros ?; preserve].
    apply preserves_bind; [apply preserves_readLocalAuth|]. intros s. preserve.
  - intros r. preserve.
Qed.

Lemma preserves_dispatch_logout : preserves dispatch_logout.
Proof.
  unfold dispatch_logout. apply preserves_bind; [apply preserves_dropAuth|].
  intros ?. preserve.
Qed.

Lemma preserves_loginUserApi u p net : preserves (loginUserApi u p net).
Proof.
  unfold loginUserApi. rewrite Hlocal.
  apply preserves_bind; [apply preserves_rememberAuth|]. intros ?. preserve.
Qed.

Lemma preserves_registerUserApi n l p a net_register net :
  preserves (registerUserApi n l p a net_register net).
Proof.
  unfold registerUserApi. rewrite Hlocal.
  apply preserves_bind; [by apply preserves_api_request|]. intros ?. preserve.
Qed.

Lemma preserves_handleLogin u p net : preserves (handleLogin u p net).
Proof.
  unfold handleLogin. rewrite Hlocal. cbv zeta. cbn [is_local].
  destruct (bool_decide _); [preserve|].
  apply preserves_try_catch; [|intros ?; preserve].
  apply preserves_bind; [apply preserves_unwrap, preserves_dispatch_login|]. intros ?.
  apply preserves_bind; [apply preserves_consumeReturnTo|]. intros target.
  unfold nav. preserve.
Qed.

Lemma preserves_ProfilePage_effect from : preserves (ProfilePage_effect from).
Proof.
  unfold ProfilePage_effect, nav, sessionStorage_removeItem.
  apply preserves_bind; [apply preserves_get_world|]. intros w0.
  destruct (negb _); [preserve|]. destruct (truthy_string from); [preserve|].
  apply preserves_bind; [apply preserves_sessionStorage_getItem|]. intros back. preserve.
Qed.

Lemma run_op_credential_free op w :
  op_without_authorization op = true ->
  credential_free w -> credential_free (run_op op w).
Proof.
  intros Hop Hw. destruct op; cbn [run_op].
  - revert w Hw. unfold bootstrapAuthFromStorage. rewrite Hlocal. cbn [is_local negb].
    apply preserves_delete_default.
  - by apply preserves_dispatch_initAuth.
  - by apply preserves_dispatch_login.
  - by apply preserves_dispatch_logout.
  - by apply preserves_rememberAuth.
  - by apply preserves_loginUserApi.
  - by apply preserves_registerUserApi.
  - by apply preserves_handleLogin.
  - by apply preserves_ProfilePage_effect.
  - by apply preserves_api_request.
Qed.

Lemma run_ops_credential_free ops w :
  forallb op_without_authorization ops = true ->
  credential_free w -> credential_free (run_ops ops w).
Proof.
  revert w. induction ops as [|op ops IH]; intros w Hops Hw; [exact Hw|].
  cbn [forallb] in Hops. apply andb_true_iff in Hops as [Hop Hops].
  change (credential_free (run_ops ops (run_op op w))).
  apply IH; [exact Hops|]. by apply run_op_credential_free.
Qed.

Lemma forallb_filter_weaken {A} (f g h : A -> bool) l :
  (forall a, h a = true -> g a = true -> f a = true) ->
  forallb h l = true -> forallb f (List.filter g l) = true.
Proof.
  intros Himp. induction l as [|a l IH]; simpl; [done|]. intros Hl.
  apply andb_true_iff in Hl as [Ha Hl].
  destruct (g a) eqn:Hg; simpl; [|auto]. rewrite (Himp a Ha Hg). auto.
Qed.

Lemma bootstrap_local_credential_free w :
  code_written_defaults w = true -> sent_requests w = [] ->
  credential_free (world_after bootstrapAuthFromStorage w).
Proof.
  intros Hd Hs. unfold world_after, bootstrapAuthFromStorage. rewrite Hlocal.
  cbn [is_local negb modify snd]. split.
  - cbn [defaults_headers_common with_defaults].
    unfold no_authorization, plain_delete.
    refine (forallb_filter_weaken _ _ _ _ _ Hd). intros [k v]. cbn [fst].
    intros Hw Hne. apply negb_true_iff in Hne.
    rewrite (String.eqb_sym k), Hne, orb_false_r in Hw. exact Hw.
  - cbn [sent_requests with_defaults]. rewrite Hs. constructor.
Qed.

End Local.

(** ** Requests in basic and hybrid mode *)

Lemma tryRead_frame key w :
  sent_requests (world_after (tryRead key) w) = sent_requests w /\
  defaults_headers_common (world_after (tryRead key) w) = defaults_headers_common w.
Proof.
  unfold world_after. destruct (storage_denied w) eqn:Hd.
  { by rewrite tryRead_denied. }
  rewrite tryRead_eval by exact Hd.
  destruct (localStorage w !! key) as [[[|c s]|r]|]; try (split; reflexivity).
  destruct (_ && _); [destruct (later_than _ _)|]; split; reflexivity.
Qed.

Lemma readBasicAuth_in_force w r u p :
  in_force w r u p ->
  exists w1, readBasicAuth w = (Normal (Some r), w1) /\
    sent_requests w1 = sent_requests w /\
    defaults_headers_common w1 = defaults_headers_common w.
Proof.
  intros [Hok [[Hget Hv] | (Hnull & Hget & Hv)]].
  - exists (with_clock_reads S w). rewrite readBasicAuth_eval.
    rewrite (tryRead_valid _ _ _ _ _ Hok Hget Hv). repeat split.
  - set (w1 := world_after (tryRead AUTH_BASIC_KEY_PRIMARY) w) in *.
    exists (with_clock_reads S w1). rewrite (readBasicAuth_after_null w Hnull). fold w1.
    assert (Hget1 : localStorage w1 !! AUTH_BASIC_KEY_SECOND = Some (Serialized r)).
    { unfold w1. rewrite tryRead_keeps_other_keys by discriminate. exact Hget. }
    assert (Hok1 : storage_denied w1 = false).
    { unfold w1. by rewrite tryRead_access. }
    rewrite (tryRead_valid _ _ _ _ _ Hok1 Hget1 Hv).
    destruct (tryRead_frame AUTH_BASIC_KEY_PRIMARY w) as [Hs Hd].
    repeat split; [exact Hs | exact Hd].
Qed.

Section Requests.
Context `{Config}.

Lemma go_sent to w : sent_requests (world_after (go to) w) = sent_requests w.
Proof. unfold world_after. rewrite go_eval. cbv zeta. cbn [snd]. by destruct (String.eqb _ _). Qed.

Lemma dropAuth_sent w : sent_requests (world_after dropAuth w) = sent_requests w.
Proof. unfold world_after. rewrite dropAuth_eval. cbn [snd]. by destruct (storage_denied w). Qed.

Lemma saveReturnTo_sent p w :
  sent_requests (world_after (saveReturnTo p) w) = sent_requests w.
Proof.
  unfold world_after, saveReturnTo, try_catch, bind, get_world, sessionStorage_setItem,
    storage_access, modify, ret.
  by destruct (storage_denied w).
Qed.

Lemma onRejected_sent {A} err w :
  sent_requests (world_after (response_interceptor_onRejected (A := A) err) w)
  = sent_requests w.
Proof.
  destruct (decide (err_code err = Some "ERR_NETWORK")) as [Hc | Hc].
  { unfold world_after. rewrite onRejected_network by (by left). cbn [snd].
    destruct (startsWith _ _); [reflexivity | apply go_sent]. }
  destruct (err_response_status err) as [st|] eqn:Hst.
  2:{ unfold world_after. rewrite onRejected_network by (by right). cbn [snd].
      destruct (startsWith _ _); [reflexivity | apply go_sent]. }
  unfold world_after. rewrite (onRejected_response err st w Hst Hc). cbn [snd]. cbv zeta.
  destruct (_ && is_local _); [reflexivity|].
  destruct (_ && negb (skips_auth_redirect _)).
  - destruct (_ && _); [|apply dropAuth_sent].
    by rewrite go_sent, saveReturnTo_sent, dropAuth_sent.
  - destruct (_ && _); [|reflexivity].
    fold (world_after (go ("/error/" +:+ number_to_string st)) w). apply go_sent.
Qed.

(** In basic and hybrid mode a request made while a valid record is in force
    leaves the client with [Authorization: Basic base64(username:password)];
    when [btoa] rejects the credentials, the interceptor throws and nothing is
    sent. *)
Lemma api_request_with_record url own net w r u p :
  is_local AUTH_MODE = false -> in_force w r u p ->
  match btoa (colon_join u p) with
  | Some token =>
      exists config,
        sent_requests (world_after (api_request url own net) w)
        = sent_requests w ++ [config] /\
        getHeaderValue (headers config) "authorization" = Some ("Basic " +:+ token)
  | None => sent_requests (world_after (api_request url own net) w) = sent_requests w
  end.
Proof.
  intros Hmode Hforce.
  destruct (readBasicAuth_in_force w r u p Hforce) as (w1 & Hread & Hs & Hd).
  assert (Hu : username r = Some u /\ password r = Some p).
  { destruct Hforce as [_ [[_ Hv] | (_ & _ & Hv)]]; destruct Hv as (? & _ & ? & _); by split. }
  destruct Hu as [Hu Hp].
  unfold world_after, api_request, try_catch, bind, get_world, request_interceptor.
  rewrite Hmode. cbn [negb]. unfold bind. rewrite Hread, Hu, Hp. cbn [field_text].
  unfold btoa_js.
  destruct (btoa (colon_join u p)) as [token|].
  - cbn [ret headers]. unfold modify.
    set (config := with_headers _ _).
    exists config. split.
    + destruct (net config) as [st d|c]; [destruct (_ && _)|]; cbn [ret throw snd fst].
      * cbn [sent_requests with_sent]. by rewrite Hs.
      * fold (world_after (response_interceptor_onRejected (A := ApiUserProfile)
                  (AxiosError (error_code_of_status st) (Some st) (Some config)))
                (with_sent (fun l => l ++ [config]) w1)).
        rewrite onRejected_sent. cbn [sent_requests with_sent]. by rewrite Hs.
      * fold (world_after (response_interceptor_onRejected (A := ApiUserProfile)
                  (AxiosError c None (Some config)))
                (with_sent (fun l => l ++ [config]) w1)).
        rewrite onRejected_sent. cbn [sent_requests with_sent]. by rewrite Hs.
    + unfold config, with_headers. cbn [headers getHeaderValue].
      apply lookup_insert_eq.
  - cbn [throw].
    fold (world_after (response_interceptor_onRejected (A := ApiUserProfile)
             InvalidCharacterError) w1).
    rewrite onRejected_sent. exact Hs.
Qed.

End Requests.

Lemma request_interceptor_local `{Config} config w :
  AUTH_MODE = ModeLocal -> request_interceptor config w = (Normal config, w).
Proof. intros Hlocal. unfold request_interceptor. by rewrite Hlocal. Qed.

Lemma bootstrap_local_deletes `{Config} w :
  AUTH_MODE = ModeLocal ->
  plain_get "Authorization"
    (defaults_headers_common (world_after bootstrapAuthFromStorage w)) = None.
Proof.
  intros Hlocal. unfold world_after, bootstrapAuthFromStorage. rewrite Hlocal.
  apply plain_get_delete.
Qed.

(** C3.  In local mode the request interceptor returns every config as it
    received it, [bootstrapAuthFromStorage] deletes the default
    [Authorization] header, and from a page load on, whatever operations of the
    application follow (none of them passing an [Authorization] header of its
    own), no request handed to the network names an [Authorization] header.
    In basic and hybrid mode, while a valid record {username, password} is in
    force, every request handed to the network carries
    [Authorization: Basic base64(username:password)] of that record (and when
    [btoa] rejects the pair the interceptor throws, so nothing is sent). *)
Theorem C3_mode_isolation `{Config} :
  (AUTH_MODE = ModeLocal ->
   (forall config w, request_interceptor config w = (Normal config, w)) /\
   (forall w, plain_get "Authorization"
                (defaults_headers_common (world_after bootstrapAuthFromStorage w)) = None) /\
   (forall w ops,
      code_written_defaults w = true -> sent_requests w = [] ->
      forallb op_without_authorization ops = true ->
      Forall unauthenticated
        (sent_requests (run_ops (Op_bootstrapAuthFromStorage :: ops) w)))) /\
  (AUTH_MODE <> ModeLocal ->
   forall w r u p url own net,
     in_force w r u p ->
     match btoa (colon_join u p) with
     | Some token =>
         exists config,
           sent_requests (world_after (api_request url own net) w)
           = sent_requests w ++ [config] /\
           getHeaderValue (headers config) "authorization" = Some ("Basic " +:+ token)
     | None => sent_requests (world_after (api_request url own net) w) = sent_requests w
     end).
Proof.
  split.
  - intros Hlocal. split; [|split].
    + intros config w. by apply request_interceptor_local.
    + intros w. by apply bootstrap_local_deletes.
    + intros w ops Hd Hs Hops.
      change (Forall unauthenticated
                (sent_requests (run_ops ops (world_after bootstrapAuthFromStorage w)))).
      apply (run_ops_credential_free Hlocal ops); [exact Hops|].
      by apply bootstrap_local_credential_free.
  - intros Hmode w r u p url own net Hforce.
    apply (api_request_with_record url own net w r u p); [|exact Hforce].
    destruct AUTH_MODE; [congruence | reflexivity | reflexivity].
Qed.

(** C3 at concrete sessions: a local-mode session that starts with a stale
    default header, logs in and loads articles; and a basic-mode request made
    with a valid record under the primary key. *)
Lemma C3_mode_isolation_witness :
  let stale := with_defaults (plain_assign "Authorization" "Basic dXNlcjpwdw==")
                 (page_load ∅ ∅ (at_path "/") (frozen_clock 1000)) in
  let ops := [Op_login {| arg_username := js "archmagos"; arg_password := [];
                          arg_remember := Some true |} server_down;
              Op_request "/articles" [] (server_status 200)] in
  let r := basic_record (js "user") (js "pw") 9000 in
  let w := page_load {[ AUTH_BASIC_KEY_PRIMARY := Serialized r ]} ∅ (at_path "/")
             (frozen_clock 1000) in
  Forall unauthenticated
    (sent_requests (run_ops (H := local_root) (Op_bootstrapAuthFromStorage :: ops) stale)) /\
  exists config,
    sent_requests (world_after (api_request (H := basic_root) "/articles" [] server_down) w)
    = sent_requests w ++ [config] /\
    getHeaderValue (headers config) "authorization" = Some ("Basic " +:+ "dXNlcjpwdw==").
Proof.
  intros stale ops r w. split.
  - apply (proj1 (C3_mode_isolation (H := local_root)) eq_refl); reflexivity.
  - apply (proj2 (C3_mode_isolation (H := basic_root)) ltac:(discriminate)
             w r (js "user") (js "pw") "/articles" [] server_down).
    split; [reflexivity|]. left. split; [reflexivity|].
    repeat split; try discriminate.
    intros e He. injection He as <-. vm_compute. discriminate.
Defined.

(** ** Requests made after the stored record has lapsed *)

(** In basic and hybrid mode, with no valid record in the store, the
    interceptor attaches nothing: the config goes out as axios built it, the
    default headers included. *)
Lemma request_interceptor_without_record `{Config} config w w1 :
  is_local AUTH_MODE = false ->
  readBasicAuth w = (Normal None, w1) ->
  request_interceptor config w = (Normal config, w1).
Proof.
  intros Hmode Hread. unfold request_interceptor. rewrite Hmode. cbn [negb].
  unfold bind. by rewrite Hread.
Qed.

(** The default header primed by [rememberBasicAuth] is what the network
    receives once the stored record has lapsed: the read purges the entry and
    returns null, the interceptor attaches nothing, and the merged default goes
    out.  Here the record is written at time 1000 for 7 days and the request is
    made 8 days later. *)
Lemma stale_default_header_is_sent :
  let lapse : nat -> Z :=
    fun n => match n with O => 1000 | S _ => 1000 + 8 * ms_per_day end%Z in
  let w0 := page_load ∅ ∅ (at_path "/articles") lapse in
  let w1 := world_after (rememberBasicAuth (js "user") (js "pw") 7) w0 in
  let w2 := world_after (api_request (H := basic_root) "/articles" [] (server_status 200)) w1 in
  localStorage w1 !! AUTH_BASIC_KEY_PRIMARY
  = Some (Serialized (basic_record (js "user") (js "pw") (1000 + 7 * ms_per_day))) /\
  result_of readBasicAuth w1 = Normal None /\
  localStorage w2 !! AUTH_BASIC_KEY_PRIMARY = None /\
  sent_requests w2
  = [ {| url := "/articles";
         headers := Some (AxiosHeaders {[ "accept" := "application/json";
                                          "authorization" := "Basic dXNlcjpwdw==" ]}) |} ] /\
  getHeaderValue
    (Some (AxiosHeaders {[ "accept" := "application/json";
                           "authorization" := "Basic dXNlcjpwdw==" ]}))
    "authorization" = Some "Basic dXNlcjpwdw==".
Proof. vm_compute. repeat split. Qed.

Lemma readBasicAuth_frame w :
  sent_requests (world_after readBasicAuth w) = sent_requests w /\
  defaults_headers_common (world_after readBasicAuth w) = defaults_headers_common w.
Proof.
  unfold world_after at 1 2. rewrite readBasicAuth_eval.
  destruct (tryRead_frame AUTH_BASIC_KEY_PRIMARY w) as [Hs Hd].
  unfold world_after in Hs, Hd.
  destruct (tryRead AUTH_BASIC_KEY_PRIMARY w) as [[[r|]|e] w1]; cbn [snd] in *;
    try (by split);
    destruct (tryRead_frame AUTH_BASIC_KEY_SECOND w1) as [Hs2 Hd2];
    unfold world_after in Hs2, Hd2; rewrite Hs2, Hd2; by split.
Qed.

(** C6, what the code does.  In basic and hybrid mode a request made while
    the store yields no record (absent or expired) goes out with exactly the
    merge of the default headers and the call's own: the interceptor attaches
    nothing, but a default [Authorization] primed earlier by
    [rememberBasicAuth] or [bootstrapAuthFromStorage] is part of what is sent,
    because nothing on the expiry path deletes it. *)
Theorem C6_request_without_record_sends_defaults `{Config} url own net w w1 :
  is_local AUTH_MODE = false ->
  readBasicAuth w = (Normal None, w1) ->
  sent_requests (world_after (api_request url own net) w)
  = sent_requests w
    ++ [ {| url := url;
            headers := Some (AxiosHeaders
                               (AxiosHeaders_concat (defaults_headers_common w) own)) |} ].
Proof.
  intros Hmode Hread.
  destruct (readBasicAuth_frame w) as [Hs _]. unfold world_after in Hs.
  rewrite Hread in Hs. cbn [snd] in Hs.
  unfold world_after, api_request, try_catch, bind, get_world.
  rewrite (request_interceptor_without_record _ w w1 Hmode Hread).
  unfold modify. set (config := {| url := url; headers := _ |}).
  destruct (net config) as [st d|c]; [destruct (_ && _)|]; cbn [ret throw snd fst].
  - cbn [sent_requests with_sent]. by rewrite Hs.
  - fold (world_after (response_interceptor_onRejected (A := ApiUserProfile)
             (AxiosError (error_code_of_status st) (Some st) (Some config)))
           (with_sent (fun l => l ++ [config]) w1)).
    rewrite onRejected_sent. cbn [sent_requests with_sent]. by rewrite Hs.
  - fold (world_after (response_interceptor_onRejected (A := ApiUserProfile)
             (AxiosError c None (Some config)))
           (with_sent (fun l => l ++ [config]) w1)).
    rewrite onRejected_sent. cbn [sent_requests with_sent]. by rewrite Hs.
Qed.

(** C6 at the failing input: credentials remembered at time 1000 for 7 days,
    a request made 8 days later. *)
Lemma C6_stale_default_witness :
  let lapse : nat -> Z :=
    fun n => match n with O => 1000 | S _ => 1000 + 8 * ms_per_day end%Z in
  let w0 := page_load ∅ ∅ (at_path "/articles") lapse in
  let w1 := world_after (rememberBasicAuth (js "user") (js "pw") 7) w0 in
  sent_requests (world_after (api_request (H := basic_root) "/articles" []
                                (server_status 200)) w1)
  = sent_requests w1
    ++ [ {| url := "/articles";
            headers := Some (AxiosHeaders
                               (AxiosHeaders_concat
                                  [("Accept", "application/json");
                                   ("Authorization", "Basic dXNlcjpwdw==")] [])) |} ].
Proof.
  intros lapse w0 w1.
  apply (C6_request_without_record_sends_defaults (H := basic_root) "/articles" []
           (server_status 200) w1 (world_after readBasicAuth w1) eq_refl).
  vm_compute. reflexivity.
Defined.

(** ** The permission of the storage is the browser's, not the client's *)

Lemma keeps_access_ret {A} (a : A) : keeps_access (ret a).
Proof. by intros w. Qed.

Lemma keeps_access_throw {A} e : keeps_access (throw (A := A) e).
Proof. by intros w. Qed.

Lemma keeps_access_get_world : keeps_access get_world.
Proof. by intros w. Qed.

Lemma keeps_access_bind {A B} (m : JS A) (k : A -> JS B) :
  keeps_access m -> (forall a, keeps_access (k a)) -> keeps_access (bind m k).
Proof.
  intros Hm Hk w. unfold world_after, bind.
  specialize (Hm w). unfold world_after in Hm.
  destruct (m w) as [[a|e] w1]; simpl in *; [|exact Hm].
  rewrite <- Hm. apply Hk.
Qed.

Lemma keeps_access_try_catch {A} (m : JS A) (h : JsError -> JS A) :
  keeps_access m -> (forall e, keeps_access (h e)) -> keeps_access (try_catch m h).
Proof.
  intros Hm Hh w. unfold world_after, try_catch.
  specialize (Hm w). unfold world_after in Hm.
  destruct (m w) as [[a|e] w1]; simpl in *; [exact Hm|].
  rewrite <- Hm. apply Hh.
Qed.

Lemma keeps_access_when b m : keeps_access m -> keeps_access (when b m).
Proof. intros Hm. destruct b; [exact Hm | apply keeps_access_ret]. Qed.

Lemma keeps_access_modify f :
  (forall w, storage_denied (f w) = storage_denied w) -> keeps_access (modify f).
Proof. intros Hf w. apply Hf. Qed.

Lemma keeps_access_storage_access {A} (m : JS A) :
  keeps_access m -> keeps_access (storage_access m).
Proof.
  intros Hm w. unfold world_after, storage_access.
  destruct (storage_denied w) eqn:Hd; [exact Hd|]. rewrite <- Hd. apply Hm.
Qed.

Lemma keeps_access_tryRead key : keeps_access (tryRead key).
Proof. intros w. apply tryRead_access. Qed.

Lemma keeps_access_btoa_js s : keeps_access (btoa_js s).
Proof. intros w. unfold world_after, btoa_js. by destruct (btoa s). Qed.

Lemma keeps_access_Date_now : keeps_access Date_now.
Proof. by intros w. Qed.

Create HintDb access.
#[local] Hint Resolve keeps_access_ret keeps_access_throw keeps_access_get_world
  keeps_access_tryRead keeps_access_btoa_js : access.

Ltac access_step :=
  first
    [ solve [auto with access]
    | apply keeps_access_bind; [|intros ?]
    | apply keeps_access_try_catch; [|intros ?]
    | apply keeps_access_when
    | apply keeps_access_storage_access
    | apply keeps_access_modify; intros ?; reflexivity
    | match goal with
      | |- keeps_access (match ?x with _ => _ end) => destruct x
      | |- keeps_access (if ?b then _ else _) => destruct b
      end ].

Ltac access := repeat access_step.

Section Access.
Context `{Config}.

Lemma keeps_access_go to : keeps_access (go to).
Proof. unfold go. access. Qed.

Lemma keeps_access_dropAuth : keeps_access dropAuth.
Proof. unfold dropAuth, localStorage_removeItem. access. Qed.

Lemma keeps_access_saveReturnTo p : keeps_access (saveReturnTo p).
Proof. unfold saveReturnTo, sessionStorage_setItem. access. Qed.

Lemma keeps_access_onRejected {A} err :
  keeps_access (response_interceptor_onRejected (A := A) err).
Proof.
  pose proof keeps_access_go. pose proof keeps_access_dropAuth.
  pose proof keeps_access_saveReturnTo.
  unfold response_interceptor_onRejected. access.
Qed.

Lemma keeps_access_readBasicAuth : keeps_access readBasicAuth.
Proof. unfold readBasicAuth. access. Qed.

Lemma keeps_access_request_interceptor config :
  keeps_access (request_interceptor config).
Proof.
  pose proof keeps_access_readBasicAuth. unfold request_interceptor. access.
Qed.

Lemma keeps_access_api_request url own net : keeps_access (api_request url own net).
Proof.
  unfold api_request.
  apply keeps_access_try_catch; [|intros e; apply keeps_access_onRejected].
  apply keeps_access_bind; [apply keeps_access_get_world|]. intros w.
  apply keeps_access_bind; [apply keeps_access_request_interceptor|]. intros config.
  access.
Qed.

Lemma keeps_access_fetchMyProfileWithBasic u p net :
  keeps_access (fetchMyProfileWithBasic u p net).
Proof.
  unfold fetchMyProfileWithBasic.
  apply keeps_access_bind; [apply keeps_access_btoa_js|]. intros token.
  apply keeps_access_api_request.
Qed.

Lemma keeps_access_rememberLocalAuth u days : keeps_access (rememberLocalAuth u days).
Proof.
  pose proof keeps_access_Date_now.
  unfold rememberLocalAuth, localStorage_setItem. access.
Qed.

Lemma keeps_access_rememberBasicAuth u p days :
  keeps_access (rememberBasicAuth u p days).
Proof.
  pose proof keeps_access_Date_now.
  unfold rememberBasicAuth, localStorage_setItem. access.
Qed.

Lemma keeps_access_rememberHybridAuth u p days :
  keeps_access (rememberHybridAuth u p days).
Proof.
  pose proof keeps_access_rememberLocalAuth. pose proof keeps_access_rememberBasicAuth.
  unfold rememberHybridAuth. access.
Qed.

Lemma keeps_access_login p net : keeps_access (login p net).
Proof.
  pose proof keeps_access_rememberLocalAuth. pose proof keeps_access_rememberBasicAuth.
  pose proof keeps_access_rememberHybridAuth.
  pose proof keeps_access_fetchMyProfileWithBasic.
  unfold login, unwrap, loginLocal, loginBasic, loginHybrid. access.
Qed.

Lemma keeps_access_dispatch_login p net : keeps_access (dispatch_login p net).
Proof.
  unfold dispatch_login.
  apply keeps_access_bind; [access|]. intros _.
  apply keeps_access_bind; [apply keeps_access_login|]. intros r. access.
Qed.

End Access.

(** ** Login *)

Section Login.
Context `{Config}.

Lemma loginHybrid_fallback p net w e w1 :
  storage_denied w = false ->
  fetchMyProfileWithBasic (arg_username p) (arg_password p) net w = (Thrown e, w1) ->
  loginHybrid p net w =
  if (3 <=? length (trim (arg_username p)))%nat then
    (Normal (Fulfilled (placeholderProfile (arg_username p))),
     with_localStorage
       (insert AUTH_LOCAL_KEY
          (Serialized (local_record (arg_username p)
                         (next_reading w1 + 7 * 24 * 3600 * 1000))))
       (with_clock_reads S w1))
  else (Normal (Rejected Msg_bad_login_or_password), w1).
Proof.
  intros Hok Hfetch.
  assert (Hok1 : storage_denied w1 = false).
  { pose proof (keeps_access_fetchMyProfileWithBasic
                  (arg_username p) (arg_password p) net w) as Hk.
    unfold world_after in Hk. rewrite Hfetch in Hk. cbn [snd] in Hk. congruence. }
  unfold loginHybrid, try_catch, bind. rewrite Hfetch.
  destruct (3 <=? _)%nat; [|reflexivity].
  by rewrite rememberLocalAuth_eval.
Qed.

Lemma login_hybrid_fallback p net w e w1 :
  AUTH_MODE = ModeHybrid ->
  storage_denied w = false ->
  fetchMyProfileWithBasic (arg_username p) (arg_password p) net w = (Thrown e, w1) ->
  login p net w =
  if (3 <=? length (trim (arg_username p)))%nat then
    (Normal (Fulfilled (placeholderProfile (arg_username p))),
     with_localStorage
       (insert AUTH_LOCAL_KEY
          (Serialized (local_record (arg_username p)
                         (next_reading w1 + 7 * 24 * 3600 * 1000))))
       (with_clock_reads S w1))
  else (Normal (Rejected Msg_login_error), w1).
Proof.
  intros Hmode Hok Hfetch. unfold login, try_catch, bind, unwrap, bind. rewrite Hmode.
  rewrite (loginHybrid_fallback p net w e w1 Hok Hfetch).
  destruct (3 <=? _)%nat; reflexivity.
Qed.

(** C4, as amended.  In hybrid mode, with the storage accessible, for a login
    through the facade thunk [login] whose remote verification fails: when the identity with surrounding
    white space trimmed has length at least 3, the login is fulfilled with the
    placeholder profile {id 0, name identity, ava ""}, a Local record for the
    identity as typed is written under [fw_auth_local] with a 7-day expiry, and
    the session becomes authenticated; when the trimmed identity is shorter
    than 3, the login is rejected with the authentication error, nothing is
    written, and the session is left unauthenticated. *)
Theorem C4_hybrid_fallback (p : LoginArgs) (net : RequestConfig -> Outcome)
    (w w1 : World) (e : JsError) :
  AUTH_MODE = ModeHybrid ->
  storage_denied w = false ->
  fetchMyProfileWithBasic (arg_username p) (arg_password p) net (with_auth login_pending w)
  = (Thrown e, w1) ->
  let u := arg_username p in
  let w' := world_after (dispatch_login p net) w in
  ((3 <= length (trim u))%nat ->
   result_of (dispatch_login p net) w = Normal (Fulfilled (placeholderProfile u)) /\
   localStorage w' !! AUTH_LOCAL_KEY
   = Some (Serialized (local_record u (next_reading w1 + 7 * 24 * 3600 * 1000))) /\
   isAuthed (auth w') = true /\ me (auth w') = Some (placeholderProfile u)) /\
  ((length (trim u) < 3)%nat ->
   result_of (dispatch_login p net) w = Normal (Rejected Msg_login_error) /\
   localStorage w' = localStorage w1 /\
   isAuthed (auth w') = false /\ me (auth w') = None).
Proof.
  intros Hmode Hok Hfetch u w'. subst w'.
  unfold result_of, world_after, dispatch_login, bind, modify.
  rewrite (login_hybrid_fallback p net (with_auth login_pending w) e w1 Hmode Hok Hfetch).
  fold u.
  split; intros Hlen.
  - apply Nat.leb_le in Hlen. rewrite Hlen. cbn [fst snd].
    repeat split. cbn [localStorage with_auth with_localStorage].
    apply lookup_insert_eq.
  - apply Nat.leb_gt in Hlen. rewrite Hlen. cbn [fst snd]. repeat split.
Qed.
End Login.

(** C4 at a concrete login: identity [archmagos], server unreachable. *)
Lemma C4_hybrid_fallback_witness :
  let p := {| arg_username := js "archmagos"; arg_password := js "pw"; arg_remember := None |} in
  let w := page_load ∅ ∅ (at_path "/profile") (frozen_clock 1000) in
  let w' := world_after (dispatch_login (H := hybrid_root) p server_down) w in
  result_of (dispatch_login (H := hybrid_root) p server_down) w
  = Normal (Fulfilled (placeholderProfile (js "archmagos"))) /\
  localStorage w' !! AUTH_LOCAL_KEY
  = Some (Serialized (local_record (js "archmagos") (1000 + 7 * 24 * 3600 * 1000))) /\
  isAuthed (auth w') = true /\ me (auth w') = Some (placeholderProfile (js "archmagos")).
Proof.
  intros p w w'.
  refine (proj1 (C4_hybrid_fallback (H := hybrid_root) p server_down w _ _
                   eq_refl eq_refl eq_refl) _).
  vm_compute. lia.
Defined.

(** C4 as stated fails on an identity padded with white space: [a  ] has
    length 3, its trimmed form has length 1, and the login is rejected with
    nothing written. *)
Lemma C4_untrimmed_length_counterexample :
  let p := {| arg_username := js "a  "; arg_password := js "pw"; arg_remember := None |} in
  let w := page_load ∅ ∅ (at_path "/profile") (frozen_clock 1000) in
  let w' := world_after (dispatch_login (H := hybrid_root) p server_down) w in
  (3 <= length (arg_username p))%nat /\
  result_of (dispatch_login (H := hybrid_root) p server_down) w
  = Normal (Rejected Msg_login_error) /\
  localStorage w' !! AUTH_LOCAL_KEY = None /\
  isAuthed (auth w') = false.
Proof. vm_compute. repeat split. lia. Qed.

Section LoginUserApi.
Context `{Config}.

Lemma go_keeps_credentials to w :
  localStorage (world_after (go to) w) = localStorage w /\
  defaults_headers_common (world_after (go to) w) = defaults_headers_common w.
Proof.
  unfold world_after. rewrite go_eval. cbv zeta. cbn [snd].
  destruct (String.eqb _ _); by split.
Qed.

(** C5, what the code does.  With the storage accessible, [loginUserApi] in
    basic mode writes the credentials before it verifies them, and a verification that ends without a
    response (server unreachable, time-out) does not take them back: the call
    is rejected, yet the pair stays under [fw_auth] and the default
    [Authorization] header stays primed. *)
Theorem C5_loginUserApi_keeps_unverified_credentials (u p : jsstring) (c : option string)
    (w : World) (token : string) :
  AUTH_MODE = ModeBasic ->
  storage_denied w = false ->
  btoa (colon_join u p) = Some token -> u <> [] -> p <> [] ->
  (clock w (S (clock_reads w)) <= clock w (clock_reads w) + 7 * 24 * 3600 * 1000)%Z ->
  let w' := world_after (loginUserApi u p (fun _ => NoResponse c)) w in
  (exists config, result_of (loginUserApi u p (fun _ => NoResponse c)) w
                  = Thrown (AxiosError c None (Some config))) /\
  localStorage w' !! AUTH_BASIC_KEY_PRIMARY
  = Some (Serialized (basic_record u p (next_reading w + 7 * 24 * 3600 * 1000))) /\
  plain_get "Authorization" (defaults_headers_common w') = Some ("Basic " +:+ token).
Proof.
  intros Hmode Hok Hbtoa Hu Hp Hclock w'. subst w'.
  unfold result_of, world_after, loginUserApi, rememberAuth, myProfile.
  rewrite Hmode. cbn [is_local]. unfold bind.
  rewrite rememberBasicAuth_eval by exact Hok. rewrite Hbtoa. cbv zeta. cbv iota.
  set (wa := with_defaults _ _).
  set (r := basic_record u p (next_reading w + 7 * 24 * 3600 * 1000)).
  assert (Hget : localStorage wa !! AUTH_BASIC_KEY_PRIMARY = Some (Serialized r)).
  { unfold wa. cbn [localStorage with_defaults with_localStorage]. apply lookup_insert_eq. }
  assert (Hvalid : valid_at (next_reading wa) r u p).
  { repeat split; auto. intros e0 He. injection He as <-.
    unfold next_reading, wa. cbn [clock clock_reads with_defaults with_localStorage
      with_clock_reads]. unfold next_reading. lia. }
  assert (Hread : readBasicAuth wa = (Normal (Some r), with_clock_reads S wa)).
  { assert (Hoka : storage_denied wa = false) by exact Hok.
    rewrite readBasicAuth_eval. by rewrite (tryRead_valid _ _ _ _ _ Hoka Hget Hvalid). }
  unfold api_request, try_catch, bind, get_world, request_interceptor.
  rewrite Hmode. cbn [is_local negb]. unfold bind. rewrite Hread.
  cbn [username password r basic_record field_text]. unfold btoa_js. rewrite Hbtoa.
  cbn [ret headers]. unfold modify. cbn [throw].
  set (config := with_headers _ _).
  set (ws := with_sent _ _).
  rewrite (onRejected_network (A := ApiUserProfile) (AxiosError c None (Some config)) ws)
    by (by right).
  cbn [fst snd]. split; [by exists config|].
  assert (Hls : localStorage ws = localStorage wa) by reflexivity.
  assert (Hd : defaults_headers_common ws = defaults_headers_common wa) by reflexivity.
  destruct (startsWith _ _).
  - rewrite Hls, Hd. split; [exact Hget|]. unfold wa.
    cbn [defaults_headers_common with_defaults]. apply plain_get_assign.
  - destruct (go_keeps_credentials "/network" ws) as [Hg1 Hg2].
    rewrite Hg1, Hg2, Hls, Hd. split; [exact Hget|]. unfold wa.
    cbn [defaults_headers_common with_defaults]. apply plain_get_assign.
Qed.

End LoginUserApi.

(** C5 at the failing input: a guessed password while the server is
    unreachable. *)
Lemma C5_unverified_credentials_witness :
  let w := page_load ∅ ∅ (at_path "/profile") (frozen_clock 1000) in
  let w' := world_after (loginUserApi (H := basic_root) (js "user") (js "guess") server_down) w in
  (exists config,
     result_of (loginUserApi (H := basic_root) (js "user") (js "guess") server_down) w
     = Thrown (AxiosError (Some "ERR_NETWORK") None (Some config))) /\
  localStorage w' !! AUTH_BASIC_KEY_PRIMARY
  = Some (Serialized (basic_record (js "user") (js "guess") (1000 + 7 * 24 * 3600 * 1000))) /\
  plain_get "Authorization" (defaults_headers_common w') = Some ("Basic " +:+ "dXNlcjpndWVzcw==").
Proof.
  intros w w'.
  apply (C5_loginUserApi_keeps_unverified_credentials (H := basic_root)
           (js "user") (js "guess") (Some "ERR_NETWORK") w "dXNlcjpndWVzcw=="
           eq_refl eq_refl eq_refl); [discriminate | discriminate |].
  vm_compute. discriminate.
Defined.

(** The same failed login through [loginUserApi] and through the thunk
    [login] (which verifies with [fetchMyProfileWithBasic] before it writes):
    the first leaves the guessed pair in the store and in the default header,
    also when the server answers 500; the second leaves nothing. *)
Lemma loginUserApi_and_login_thunk_compared :
  let w := page_load ∅ ∅ (at_path "/profile") (frozen_clock 1000) in
  let args := {| arg_username := js "user"; arg_password := js "guess";
                 arg_remember := None |} in
  let via_api := world_after (loginUserApi (H := basic_root) (js "user") (js "guess") server_down) w in
  let via_api_500 :=
    world_after (loginUserApi (H := basic_root) (js "user") (js "guess") (server_status 500)) w in
  let via_thunk := world_after (dispatch_login (H := basic_root) args server_down) w in
  localStorage via_api !! AUTH_BASIC_KEY_PRIMARY
  = Some (Serialized (basic_record (js "user") (js "guess") 604801000)) /\
  plain_get "Authorization" (defaults_headers_common via_api) = Some "Basic dXNlcjpndWVzcw==" /\
  localStorage via_api_500 !! AUTH_BASIC_KEY_PRIMARY
  = Some (Serialized (basic_record (js "user") (js "guess") 604801000)) /\
  result_of (dispatch_login (H := basic_root) args server_down) w
  = Normal (Rejected Msg_login_error) /\
  localStorage via_thunk = ∅ /\
  plain_get "Authorization" (defaults_headers_common via_thunk) = None /\
  isAuthed (auth via_thunk) = false.
Proof. vm_compute. repeat split. Qed.

(** ** Return target *)

Section ReturnTarget.
Context `{Config}.

Lemma consumeReturnTo_eval w :
  storage_denied w = false ->
  consumeReturnTo w =
  (Normal (sessionStorage w !! RETURN_TO_KEY),
   if truthy_string (sessionStorage w !! RETURN_TO_KEY)
   then with_sessionStorage (delete RETURN_TO_KEY) w else w).
Proof.
  intros Hok.
  unfold consumeReturnTo, try_catch, bind, sessionStorage_getItem, when,
    sessionStorage_removeItem, storage_access, modify, ret.
  rewrite Hok. destruct (truthy_string _); [|reflexivity]. by rewrite Hok.
Qed.

(** With the storage denied, [consumeReturnTo] swallows the error and gives
    null. *)
Lemma consumeReturnTo_denied w :
  storage_denied w = true -> consumeReturnTo w = (Normal None, w).
Proof.
  intros Hno.
  unfold consumeReturnTo, try_catch, bind, sessionStorage_getItem, storage_access.
  by rewrite Hno.
Qed.

Lemma ProfilePage_effect_eval from w :
  storage_denied w = false \/ truthy_string from = true ->
  ProfilePage_effect from w =
  (Normal tt,
   if negb (isAuthed (auth w)) then w
   else if truthy_string from then with_router (fun l => l ++ [default "" from]) w
   else if truthy_string (sessionStorage w !! RETURN_TO_KEY)
     then with_router (fun l => l ++ [default "" (sessionStorage w !! RETURN_TO_KEY)])
            (with_sessionStorage (delete RETURN_TO_KEY) w)
     else w).
Proof.
  intros Hok.
  unfold ProfilePage_effect, bind, get_world, nav, modify, ret, when,
    sessionStorage_getItem, sessionStorage_removeItem, storage_access.
  destruct (negb _); [reflexivity|]. destruct (truthy_string from); [reflexivity|].
  destruct Hok as [Hok | Hok]; [|discriminate]. rewrite Hok.
  destruct (truthy_string _); [|reflexivity]. by rewrite Hok.
Qed.

Lemma handleLogin_fulfilled u p net w prof :
  storage_denied w = false ->
  form_filled u p = true ->
  result_of (dispatch_login {| arg_username := u; arg_password := p; arg_remember := None |}
               net) w = Normal (Fulfilled prof) ->
  let w1 := world_after (dispatch_login {| arg_username := u; arg_password := p;
                                           arg_remember := None |} net) w in
  handleLogin u p net w =
  (Normal tt,
   with_router (fun l => l ++ [target_or_root (sessionStorage w1 !! RETURN_TO_KEY)])
     (if truthy_string (sessionStorage w1 !! RETURN_TO_KEY)
      then with_sessionStorage (delete RETURN_TO_KEY) w1 else w1)).
Proof.
  intros Hok.
  pose proof (keeps_access_dispatch_login
                {| arg_username := u; arg_password := p; arg_remember := None |} net w)
    as Hok1.
  rewrite Hok in Hok1. revert Hok1.
  unfold form_filled, result_of, world_after. intros Hok1 Hfilled Hres. cbv zeta.
  unfold handleLogin. cbv zeta. apply negb_true_iff in Hfilled. rewrite Hfilled.
  unfold try_catch, bind, unwrap, bind.
  destruct (dispatch_login _ net w) as [c w1]. cbn [fst snd] in *. subst c.
  cbn [ret]. by rewrite consumeReturnTo_eval.
Qed.

(** C7, as amended.  Two pieces of code resolve the return target on the
    profile surface once the session is authenticated; the browser is taken to
    grant access to the storage wherever [return_to] is read.  The effect of
    [ProfilePage] navigates to the in-memory target when there is one and then
    leaves the [return_to] value untouched; otherwise it navigates to the
    [return_to] value, which it deletes; otherwise it navigates nowhere.
    [handleLogin] of [LoginForm], after a fulfilled login, never consults the
    in-memory target: it reads [return_to], deletes it when it is not empty,
    and navigates to it, or to the fixed default ["/"] when there is none. *)
Theorem C7_return_target_resolution :
  (forall w from,
     isAuthed (auth w) = true ->
     (forall f, from = Some f -> f <> "" ->
        world_after (ProfilePage_effect from) w = with_router (fun l => l ++ [f]) w) /\
     (storage_denied w = false -> truthy_string from = false ->
      forall back, sessionStorage w !! RETURN_TO_KEY = Some back -> back <> "" ->
        world_after (ProfilePage_effect from) w
        = with_router (fun l => l ++ [back])
            (with_sessionStorage (delete RETURN_TO_KEY) w)) /\
     (storage_denied w = false -> truthy_string from = false ->
      truthy_string (sessionStorage w !! RETURN_TO_KEY) = false ->
      world_after (ProfilePage_effect from) w = w)) /\
  (forall w u p net prof,
     storage_denied w = false ->
     form_filled u p = true ->
     result_of (dispatch_login {| arg_username := u; arg_password := p;
                                  arg_remember := None |} net) w
     = Normal (Fulfilled prof) ->
     let w1 := world_after (dispatch_login {| arg_username := u; arg_password := p;
                                              arg_remember := None |} net) w in
     let w' := world_after (handleLogin u p net) w in
     (forall back, sessionStorage w1 !! RETURN_TO_KEY = Some back -> back <> "" ->
        router_navigations w' = router_navigations w1 ++ [back] /\
        sessionStorage w' = delete RETURN_TO_KEY (sessionStorage w1)) /\
     (truthy_string (sessionStorage w1 !! RETURN_TO_KEY) = false ->
        router_navigations w' = router_navigations w1 ++ ["/"] /\
        sessionStorage w' = sessionStorage w1)).
Proof.
  split.
  - intros w from Hauth. unfold world_after. split; [|split].
    + intros f -> Hf.
      rewrite ProfilePage_effect_eval, Hauth by (right; by destruct f).
      destruct f; [congruence | reflexivity].
    + intros Hok Hfrom back Hback Hne.
      rewrite ProfilePage_effect_eval, Hauth, Hfrom, Hback by (by left).
      destruct back; [congruence | reflexivity].
    + intros Hok Hfrom Hnone.
      by rewrite ProfilePage_effect_eval, Hauth, Hfrom, Hnone by (by left).
  - intros w u p net prof Hok Hfilled Hres w1 w'. subst w'. unfold world_after.
    rewrite (handleLogin_fulfilled u p net w prof Hok Hfilled Hres). fold w1. cbn [snd].
    split.
    + intros back Hback Hne. rewrite Hback. destruct back; [congruence|]. by split.
    + intros Hnone. rewrite Hnone. unfold target_or_root. rewrite Hnone. by split.
Qed.

End ReturnTarget.

(** C7 at a concrete session holding [/edit/42] under [return_to]: the effect
    of [ProfilePage] with and without an in-memory target, and [handleLogin]. *)
Lemma C7_return_target_witness :
  let w := page_load ∅ {[ RETURN_TO_KEY := "/edit/42" ]} (at_path "/profile")
             (frozen_clock 1000) in
  let authed := with_auth (login_fulfilled (placeholderProfile (js "archmagos"))) w in
  let w' := world_after (handleLogin (H := local_root) (js "archmagos") [] server_down) w in
  world_after (ProfilePage_effect (Some "/new")) authed
  = with_router (fun l => l ++ ["/new"]) authed /\
  world_after (ProfilePage_effect None) authed
  = with_router (fun l => l ++ ["/edit/42"])
      (with_sessionStorage (delete RETURN_TO_KEY) authed) /\
  router_navigations w' = ["/edit/42"] /\
  sessionStorage w' = ∅.
Proof.
  intros w authed w'.
  destruct (proj1 (C7_return_target_resolution (H := local_root)) authed (Some "/new")
              eq_refl) as [Ha _].
  destruct (proj1 (C7_return_target_resolution (H := local_root)) authed None
              eq_refl) as (_ & Hb & _).
  destruct (proj2 (C7_return_target_resolution (H := local_root)) w (js "archmagos") []
              server_down (placeholderProfile (js "archmagos")) eq_refl eq_refl eq_refl)
    as [Hc _].
  destruct (Hc "/edit/42" eq_refl ltac:(discriminate)) as [Hnav Hss].
  split; [|split; [|split]].
  - apply (Ha "/new" eq_refl). discriminate.
  - apply (Hb eq_refl eq_refl "/edit/42" eq_refl). discriminate.
  - exact Hnav.
  - fold w' in Hss. rewrite Hss. vm_compute. reflexivity.
Defined.

(** C7 as stated fails when both targets exist at login: in the claim's words
    the destination is the in-memory target and [return_to] stays; in the code
    [handleLogin] consumes [return_to] and navigates to it, and the effect of
    [ProfilePage] then navigates to the in-memory target, so the persisted
    value is gone afterwards. *)
Lemma C7_persisted_target_consumed_counterexample :
  let w := page_load ∅ {[ RETURN_TO_KEY := "/edit/42" ]} (at_path "/profile")
             (frozen_clock 1000) in
  let w1 := world_after (handleLogin (H := local_root) (js "archmagos") [] server_down) w in
  let w2 := world_after (ProfilePage_effect (Some "/new")) w1 in
  resolve_as_claimed (Some "/new") (sessionStorage w !! RETURN_TO_KEY) "/"
  = ("/new", Some "/edit/42") /\
  isAuthed (auth w1) = true /\
  router_navigations w1 = ["/edit/42"] /\
  sessionStorage w1 !! RETURN_TO_KEY = None /\
  router_navigations w2 = ["/edit/42"; "/new"] /\
  sessionStorage w2 !! RETURN_TO_KEY = None.
Proof. vm_compute. repeat split. Qed.

(** * Further properties of the session code *)

(** ** Frames *)

Section Respects.
Variable R : World -> World -> Prop.
Context `{!PreOrder R}.

Lemma respects_ret {A} (a : A) : respects R (ret a).
Proof. intros w. reflexivity. Qed.

Lemma respects_throw {A} e : respects R (throw (A := A) e).
Proof. intros w. reflexivity. Qed.

Lemma respects_get_world : respects R get_world.
Proof. intros w. reflexivity. Qed.

Lemma respects_bind {A B} (m : JS A) (k : A -> JS B) :
  respects R m -> (forall a, respects R (k a)) -> respects R (bind m k).
Proof.
  intros Hm Hk w. unfold world_after, bind.
  specialize (Hm w). unfold world_after in Hm.
  destruct (m w) as [[a|e] w1]; simpl in *; [|exact Hm].
  etransitivity; [exact Hm | apply Hk].
Qed.

Lemma respects_try_catch {A} (m : JS A) (h : JsError -> JS A) :
  respects R m -> (forall e, respects R (h e)) -> respects R (try_catch m h).
Proof.
  intros Hm Hh w. unfold world_after, try_catch.
  specialize (Hm w). unfold world_after in Hm.
  destruct (m w) as [[a|e] w1]; simpl in *; [exact Hm|].
  etransitivity; [exact Hm | apply Hh].
Qed.

Lemma respects_when b m : respects R m -> respects R (when b m).
Proof. intros Hm. destruct b; [exact Hm | apply respects_ret]. Qed.

Lemma respects_modify f : (forall w, R w (f w)) -> respects R (modify f).
Proof. intros Hf w. apply Hf. Qed.

Lemma respects_storage_access {A} (m : JS A) :
  respects R m -> respects R (storage_access m).
Proof.
  intros Hm w. unfold world_after, storage_access.
  destruct (storage_denied w) eqn:Hd; [reflexivity|].
  specialize (Hm w). unfold world_after in Hm. exact Hm.
Qed.

Lemma respects_Date_now :
  (forall w, R w (with_clock_reads S w)) -> respects R Date_now.
Proof. intros Hc w. apply Hc. Qed.

Lemma respects_localStorage_getItem key : respects R (localStorage_getItem key).
Proof. apply respects_storage_access. intros w. reflexivity. Qed.

Lemma respects_sessionStorage_getItem key : respects R (sessionStorage_getItem key).
Proof. apply respects_storage_access. intros w. reflexivity. Qed.

Lemma respects_btoa_js s : respects R (btoa_js s).
Proof. unfold btoa_js. destruct (btoa s); [apply respects_ret | apply respects_throw]. Qed.

Lemma respects_JSON_parse t : respects R (JSON_parse t).
Proof. destruct t; [apply respects_throw | apply respects_ret]. Qed.

End Respects.

#[local] Instance same_preorder {B} (f : World -> B) : PreOrder (same f).
Proof.
  split; [intros w; reflexivity|].
  intros a b c Hab Hbc. unfold same in *. congruence.
Qed.

#[local] Instance forgets_preorder : PreOrder forgets.
Proof.
  split.
  - intros w. split; [reflexivity | auto].
  - intros a b c [H1 H2] [H3 H4]. split; [by etransitivity | auto].
Qed.

(** One step of a frame proof: the monadic structure is taken apart; what a
    [modify] or a reading of the clock does to the world is left to [tac]. *)
Ltac respect_step tac :=
  lazymatch goal with
  | |- respects _ (ret _) => apply respects_ret; typeclasses eauto
  | |- respects _ (throw _) => apply respects_throw; typeclasses eauto
  | |- respects _ get_world => apply respects_get_world; typeclasses eauto
  | |- respects _ (btoa_js _) => apply respects_btoa_js; typeclasses eauto
  | |- respects _ (JSON_parse _) => apply respects_JSON_parse; typeclasses eauto
  | |- respects _ (localStorage_getItem _) =>
      apply respects_localStorage_getItem; typeclasses eauto
  | |- respects _ (sessionStorage_getItem _) =>
      apply respects_sessionStorage_getItem; typeclasses eauto
  | |- respects _ Date_now => apply respects_Date_now; try typeclasses eauto; intros ?; tac
  | |- respects _ (bind _ _) => apply respects_bind; try typeclasses eauto; [|intros ?]
  | |- respects _ (try_catch _ _) =>
      apply respects_try_catch; try typeclasses eauto; [|intros ?]
  | |- respects _ (when _ _) => apply respects_when; try typeclasses eauto
  | |- respects _ (storage_access _) =>
      apply respects_storage_access; try typeclasses eauto
  | |- respects _ (modify _) => apply respects_modify; intros ?; tac
  | |- respects _ (match ?x with _ => _ end) => destruct x
  | |- respects _ _ => solve [auto]
  end.

Ltac respect tac := repeat (respect_step tac).

(** ** The credential store *)

(** X1.  What [rememberBasicAuth] and [rememberLocalAuth] write, the matching
    read gives back: with the storage accessible, a non-empty username (and,
    for the Basic record, a non-empty password) and an integer [days] for which
    the expiry is exact in doubles, a read whose clock reading is not later
    than the expiry returns the record just written, with the expiry
    [days*24*3600*1000] ms after the writer's clock reading.  For the Basic
    record this holds whether or not [btoa] accepted the pair. *)
Theorem X1_remembered_credentials_are_read_back (u p : jsstring) (days : Z) (w : World) :
  storage_denied w = false -> u <> [] ->
  exact_expiry (next_reading w) days ->
  (clock w (S (clock_reads w)) <= double_expiry (next_reading w) days)%Z ->
  let e := double_expiry (next_reading w) days in
  e = (next_reading w + days * 24 * 3600 * 1000)%Z /\
  (p <> [] ->
   result_of readBasicAuth (world_after (rememberBasicAuth u p days) w)
   = Normal (Some (basic_record u p e))) /\
  result_of readLocalAuth (world_after (rememberLocalAuth u days) w)
  = Normal (Some (local_record u e)).
Proof.
  intros Hok Hu Hex Hclock e. subst e.
  rewrite (double_expiry_exact _ _ Hex) in *.
  set (e := (next_reading w + days * 24 * 3600 * 1000)%Z).
  split; [reflexivity|]. split.
  - intros Hp. unfold result_of, world_after at 1.
    rewrite rememberBasicAuth_eval by exact Hok. cbv zeta.
    set (stored := with_localStorage _ _).
    assert (Hread : forall w1, storage_denied w1 = false ->
              localStorage w1 = localStorage stored -> clock w1 = clock stored ->
              clock_reads w1 = clock_reads stored ->
              fst (readBasicAuth w1) = Normal (Some (basic_record u p e))).
    { intros w1 Hok1 Hls Hc Hr. rewrite readBasicAuth_eval.
      rewrite (tryRead_valid AUTH_BASIC_KEY_PRIMARY w1 (basic_record u p e) u p); [reflexivity|..].
      - exact Hok1.
      - rewrite Hls. unfold stored. cbn [localStorage with_localStorage].
        apply lookup_insert_eq.
      - repeat split; auto. intros e0 He0. injection He0 as <-.
        unfold next_reading. rewrite Hc, Hr. unfold stored, e, next_reading.
        cbn [clock clock_reads with_localStorage with_clock_reads]. exact Hclock. }
    destruct (btoa (colon_join u p)); cbn [snd]; by apply Hread.
  - unfold result_of, world_after.
    rewrite rememberLocalAuth_eval by exact Hok. cbn [snd].
    set (stored := with_localStorage _ _).
    rewrite (readLocalAuth_valid stored (local_record u e) u); [reflexivity|..]; auto.
    + unfold stored. cbn [localStorage with_localStorage]. apply lookup_insert_eq.
    + intros e0 He0. injection He0 as <-.
      unfold next_reading, stored, e, next_reading.
      cbn [clock clock_reads with_localStorage with_clock_reads]. exact Hclock.
Qed.

(** X1 on a page load at time 1000 with a clock that stands still. *)
Lemma X1_remembered_credentials_witness :
  let w := page_load ∅ ∅ (at_path "/") (frozen_clock 1000) in
  result_of readBasicAuth (world_after (rememberBasicAuth (js "user") (js "pw") 7) w)
  = Normal (Some (basic_record (js "user") (js "pw") (1000 + 7 * 24 * 3600 * 1000))) /\
  result_of readLocalAuth (world_after (rememberLocalAuth (js "user") 7) w)
  = Normal (Some (local_record (js "user") (1000 + 7 * 24 * 3600 * 1000))).
Proof.
  intros w.
  destruct (X1_remembered_credentials_are_read_back (js "user") (js "pw") 7 w eq_refl
              ltac:(discriminate)
              ltac:(unfold exact_expiry, safe_integer; vm_compute; repeat split; discriminate)
              ltac:(vm_compute; discriminate)) as (He & Hb & Hl).
  split; [apply Hb; discriminate | exact Hl].
Defined.

(** X2.  [dropAuth] never throws and always deletes the default
    [Authorization] header.  With the storage accessible it removes the three
    credential keys and nothing else, so that the reads that follow find no
    record; with the storage denied it leaves the store as it was. *)
Theorem X2_dropAuth_clears_credentials (w : World) :
  let w' := world_after dropAuth w in
  result_of dropAuth w = Normal tt /\
  plain_get "Authorization" (defaults_headers_common w') = None /\
  (storage_denied w = false ->
   localStorage w' !! AUTH_LOCAL_KEY = None /\
   localStorage w' !! AUTH_BASIC_KEY_PRIMARY = None /\
   localStorage w' !! AUTH_BASIC_KEY_SECOND = None /\
   (forall key, key <> AUTH_LOCAL_KEY -> key <> AUTH_BASIC_KEY_PRIMARY ->
                key <> AUTH_BASIC_KEY_SECOND ->
                localStorage w' !! key = localStorage w !! key) /\
   readBasicAuth w' = (Normal None, w') /\
   readLocalAuth w' = (Normal None, w')) /\
  (storage_denied w = true -> localStorage w' = localStorage w).
Proof.
  intros w'. subst w'. unfold result_of, world_after. rewrite dropAuth_eval. cbn [fst snd].
  split; [reflexivity|]. split; [apply plain_get_delete|]. split.
  - intros Hok. rewrite Hok. set (w' := with_defaults _ _).
    assert (Hok' : storage_denied w' = false) by exact Hok.
    assert (Hl : localStorage w' !! AUTH_LOCAL_KEY = None).
    { unfold w'. cbn [localStorage with_defaults with_localStorage].
      rewrite !lookup_delete_ne by discriminate. apply lookup_delete_eq. }
    assert (Hp : localStorage w' !! AUTH_BASIC_KEY_PRIMARY = None).
    { unfold w'. cbn [localStorage with_defaults with_localStorage].
      rewrite lookup_delete_ne by discriminate. apply lookup_delete_eq. }
    assert (Hs : localStorage w' !! AUTH_BASIC_KEY_SECOND = None).
    { unfold w'. cbn [localStorage with_defaults with_localStorage].
      apply lookup_delete_eq. }
    repeat split; try assumption.
    + intros key H1 H2 H3. unfold w'. cbn [localStorage with_defaults with_localStorage].
      by rewrite !lookup_delete_ne by congruence.
    + rewrite readBasicAuth_eval, (tryRead_absent _ _ Hok' Hp).
      apply (tryRead_absent _ _ Hok' Hs).
    + rewrite readLocalAuth_eval by exact Hok'. by rewrite Hl.
  - by intros ->.
Qed.

(** ** The return target *)

(** X3.  The return target is read once.  With the storage accessible, a path
    saved by [saveReturnTo] is what the next [consumeReturnTo] returns; that
    call deletes it, so a second call returns null.  A call without a path (or
    with the empty one) saves the current path and query string. *)
Theorem X3_return_target_is_read_once (path : option string) (w : World) :
  storage_denied w = false ->
  let saved := if truthy_string path then default "" path
               else pathname (location w) +:+ search (location w) in
  let w1 := world_after (saveReturnTo path) w in
  let w2 := world_after consumeReturnTo w1 in
  saved <> "" ->
  result_of consumeReturnTo w1 = Normal (Some saved) /\
  sessionStorage w2 = delete RETURN_TO_KEY (sessionStorage w) /\
  result_of consumeReturnTo w2 = Normal None.
Proof.
  intros Hok saved w1 w2 Hne.
  assert (Hw1 : w1 = with_sessionStorage (insert RETURN_TO_KEY saved) w).
  { unfold w1, world_after, saveReturnTo, try_catch, bind, get_world,
      sessionStorage_setItem, storage_access, modify. by rewrite Hok. }
  assert (Hok1 : storage_denied w1 = false) by (by rewrite Hw1).
  assert (Hget : sessionStorage w1 !! RETURN_TO_KEY = Some saved).
  { rewrite Hw1. cbn [sessionStorage with_sessionStorage]. apply lookup_insert_eq. }
  assert (Hw2 : w2 = with_sessionStorage (delete RETURN_TO_KEY) w1).
  { unfold w2, world_after. rewrite consumeReturnTo_eval by exact Hok1. rewrite Hget.
    destruct saved; [congruence | reflexivity]. }
  split; [|split].
  - unfold result_of. rewrite consumeReturnTo_eval by exact Hok1. by rewrite Hget.
  - rewrite Hw2, Hw1. cbn [sessionStorage with_sessionStorage].
    apply delete_insert_eq.
  - unfold result_of. rewrite consumeReturnTo_eval by (by rewrite Hw2).
    rewrite Hw2. cbn [sessionStorage with_sessionStorage fst].
    by rewrite lookup_delete_eq.
Qed.

(** X3 for the path [/edit/42] saved from the home page. *)
Lemma X3_return_target_witness :
  let w := page_load ∅ ∅ (at_path "/") (frozen_clock 1000) in
  let w1 := world_after (saveReturnTo (Some "/edit/42")) w in
  let w2 := world_after consumeReturnTo w1 in
  result_of consumeReturnTo w1 = Normal (Some "/edit/42") /\
  sessionStorage w2 = delete RETURN_TO_KEY (sessionStorage w) /\
  result_of consumeReturnTo w2 = Normal None.
Proof.
  intros w w1 w2.
  apply (X3_return_target_is_read_once (Some "/edit/42") w eq_refl). discriminate.
Defined.

Lemma consumeReturnTo_returns w : exists v w', consumeReturnTo w = (Normal v, w').
Proof.
  destruct (storage_denied w) eqn:Hd.
  - eexists _, _. by apply consumeReturnTo_denied.
  - eexists _, _. by apply consumeReturnTo_eval.
Qed.

(** X4.  Neither helper of the return target throws, whatever the browser does
    with the storage: with access denied [saveReturnTo] saves nothing and
    [consumeReturnTo] returns null, and both leave the world as it was. *)
Theorem X4_return_target_never_throws (path : option string) (w : World) :
  (exists w', saveReturnTo path w = (Normal tt, w')) /\
  (exists v w', consumeReturnTo w = (Normal v, w')) /\
  (storage_denied w = true ->
   saveReturnTo path w = (Normal tt, w) /\ consumeReturnTo w = (Normal None, w)).
Proof.
  split; [|split].
  - eexists. apply saveReturnTo_total.
  - apply consumeReturnTo_returns.
  - intros Hd. split; [|by apply consumeReturnTo_denied].
    unfold saveReturnTo, try_catch, bind, get_world, sessionStorage_setItem, storage_access.
    by rewrite Hd.
Qed.

(** ** The response error handler and the shared client *)

(** A projection of the world that the setters named in the hypotheses leave
    alone is left alone by the functions that only use those setters. *)
Section Untouched.
Context `{Config} {B : Type} (f : World -> B).
Hypothesis Hls : forall g w, f (with_localStorage g w) = f w.
Hypothesis Hss : forall g w, f (with_sessionStorage g w) = f w.
Hypothesis Hdef : forall g w, f (with_defaults g w) = f w.
Hypothesis Hhref : forall g w, f (with_href g w) = f w.
Hypothesis Hsent : forall g w, f (with_sent g w) = f w.
Hypothesis Hclk : forall g w, f (with_clock_reads g w) = f w.
Hypothesis Hauth : forall g w, f (with_auth g w) = f w.

Lemma go_same to : respects (same f) (go to).
Proof. unfold go. respect ltac:(unfold same; auto). Qed.

Lemma dropAuth_same : respects (same f) dropAuth.
Proof. unfold dropAuth, localStorage_removeItem. respect ltac:(unfold same; auto). Qed.

Lemma saveReturnTo_same p : respects (same f) (saveReturnTo p).
Proof. unfold saveReturnTo, sessionStorage_setItem. respect ltac:(unfold same; auto). Qed.

Lemma consumeReturnTo_same : respects (same f) consumeReturnTo.
Proof.
  unfold consumeReturnTo, sessionStorage_removeItem. respect ltac:(unfold same; auto).
Qed.

Lemma tryRead_same key : respects (same f) (tryRead key).
Proof.
  unfold tryRead, localStorage_removeItem.
  apply respects_try_catch; try typeclasses eauto;
    [|intros e; respect ltac:(unfold same; auto)].
  apply respects_bind; try typeclasses eauto; [respect ltac:(unfold same; auto)|].
  intros raw. destruct raw as [[[|c s]|o]|]; respect ltac:(unfold same; auto).
Qed.

Lemma readBasicAuth_same : respects (same f) readBasicAuth.
Proof.
  pose proof tryRead_same. unfold readBasicAuth. respect ltac:(unfold same; auto).
Qed.

Lemma readLocalAuth_same : respects (same f) readLocalAuth.
Proof.
  unfold readLocalAuth, localStorage_removeItem.
  apply respects_try_catch; try typeclasses eauto;
    [|intros e; respect ltac:(unfold same; auto)].
  apply respects_bind; try typeclasses eauto; [respect ltac:(unfold same; auto)|].
  intros raw. destruct raw as [[[|c s]|o]|]; respect ltac:(unfold same; auto).
Qed.

Lemma rememberLocalAuth_same u days : respects (same f) (rememberLocalAuth u days).
Proof.
  unfold rememberLocalAuth, localStorage_setItem. respect ltac:(unfold same; auto).
Qed.

Lemma rememberBasicAuth_same u p days : respects (same f) (rememberBasicAuth u p days).
Proof.
  unfold rememberBasicAuth, localStorage_setItem. respect ltac:(unfold same; auto).
Qed.

Lemma rememberHybridAuth_same u p days : respects (same f) (rememberHybridAuth u p days).
Proof.
  pose proof rememberLocalAuth_same. pose proof rememberBasicAuth_same.
  unfold rememberHybridAuth. respect ltac:(unfold same; auto).
Qed.

Lemma request_interceptor_same config : respects (same f) (request_interceptor config).
Proof.
  pose proof readBasicAuth_same. unfold request_interceptor.
  respect ltac:(unfold same; auto).
Qed.

Lemma onRejected_same {A} err : respects (same f) (response_interceptor_onRejected (A := A) err).
Proof.
  pose proof go_same. pose proof dropAuth_same. pose proof saveReturnTo_same.
  unfold response_interceptor_onRejected. respect ltac:(unfold same; auto).
Qed.

Lemma api_request_same url own net : respects (same f) (api_request url own net).
Proof.
  pose proof request_interceptor_same. pose proof (onRejected_same (A := ApiUserProfile)).
  unfold api_request. respect ltac:(unfold same; auto).
Qed.

Lemma fetchMyProfileWithBasic_same u p net :
  respects (same f) (fetchMyProfileWithBasic u p net).
Proof.
  pose proof api_request_same. unfold fetchMyProfileWithBasic.
  respect ltac:(unfold same; auto).
Qed.

Lemma login_same p net : respects (same f) (login p net).
Proof.
  pose proof rememberLocalAuth_same. pose proof rememberBasicAuth_same.
  pose proof rememberHybridAuth_same. pose proof fetchMyProfileWithBasic_same.
  unfold login, unwrap, loginLocal, loginBasic, loginHybrid.
  respect ltac:(unfold same; auto).
Qed.

Lemma dispatch_login_same p net : respects (same f) (dispatch_login p net).
Proof.
  pose proof login_same. unfold dispatch_login. respect ltac:(unfold same; auto).
Qed.

Lemma dispatch_initAuth_same net : respects (same f) (dispatch_initAuth net).
Proof.
  pose proof readLocalAuth_same. pose proof api_request_same.
  unfold dispatch_initAuth, initAuth. respect ltac:(unfold same; auto).
Qed.

End Untouched.

Section Handler.
Context `{Config}.

(** The handler rejects with the error it was given, in every branch. *)
Lemma onRejected_result {A} err w :
  result_of (response_interceptor_onRejected (A := A) err) w = Thrown err.
Proof.
  unfold result_of.
  destruct (decide (err_code err = Some "ERR_NETWORK")) as [Hc | Hc].
  { by rewrite onRejected_network by (by left). }
  destruct (err_response_status err) as [st|] eqn:Hst.
  - by rewrite (onRejected_response err st w Hst Hc).
  - by rewrite onRejected_network by (by right).
Qed.

(** X5.  A call through the shared client resolves only with the body of a 2xx
    response to the request it sent, and a call that resolves has navigated
    nowhere; every other outcome is a rejection, and the response error handler
    rejects with the very error it was given, whatever branch it takes. *)
Theorem X5_client_resolves_only_on_2xx (url : string) (own : list (string * string))
    (net : RequestConfig -> Outcome) (w : World) :
  (forall d, result_of (api_request url own net) w = Normal d ->
     let w' := world_after (api_request url own net) w in
     exists config st,
       sent_requests w' = sent_requests w ++ [config] /\
       net config = Responded st d /\ (200 <= st < 300)%Z /\
       href_assignments w' = href_assignments w) /\
  (forall A err w0, result_of (response_interceptor_onRejected (A := A) err) w0 = Thrown err).
Proof.
  split; [|intros A err w0; apply onRejected_result].
  intros d. unfold result_of, world_after, api_request, try_catch, bind, get_world.
  set (config0 := {| url := url; headers := _ |}).
  pose proof (request_interceptor_same sent_requests
                ltac:(reflexivity) ltac:(reflexivity) config0 w) as Hs.
  pose proof (request_interceptor_same href_assignments
                ltac:(reflexivity) ltac:(reflexivity) config0 w) as Hh.
  unfold same, world_after in Hs, Hh.
  destruct (request_interceptor config0 w) as [[config|e] w1]; cbn [snd] in Hs, Hh.
  2:{ intros Hres. pose proof (onRejected_result (A := ApiUserProfile) e w1) as Hr.
      unfold result_of in Hr. congruence. }
  unfold modify.
  destruct (net config) as [st d'|c] eqn:Hnet.
  - destruct ((200 <=? st)%Z && (st <? 300)%Z) eqn:Hst.
    + cbn [ret fst snd]. intros [= ->]. exists config, st.
      apply andb_true_iff in Hst as [H1 H2].
      apply Z.leb_le in H1. apply Z.ltb_lt in H2.
      cbn [sent_requests href_assignments with_sent]. rewrite Hs, Hh.
      repeat split; auto.
    + cbn [throw]. intros Hres.
      pose proof (onRejected_result (A := ApiUserProfile)
                    (AxiosError (error_code_of_status st) (Some st) (Some config))
                    (with_sent (fun l => l ++ [config]) w1)) as Hr.
      unfold result_of in Hr. congruence.
  - cbn [throw]. intros Hres.
    pose proof (onRejected_result (A := ApiUserProfile) (AxiosError c None (Some config))
                  (with_sent (fun l => l ++ [config]) w1)) as Hr.
    unfold result_of in Hr. congruence.
Qed.

(** X6.  In local mode a 401 or 403 answer changes nothing besides the record
    of the request: no credential is cleared, no return target saved, no
    navigation made; the request went out as the defaults and its own headers
    make it, and the call is rejected with the error of the response. *)
Theorem X6_local_mode_ignores_auth_failures (url : string) (own : list (string * string))
    (net : RequestConfig -> Outcome) (w : World) (st : Z) (d : ApiUserProfile) :
  AUTH_MODE = ModeLocal ->
  let config :=
    {| url := url;
       headers := Some (AxiosHeaders (AxiosHeaders_concat (defaults_headers_common w) own)) |} in
  net config = Responded st d -> st = 401%Z \/ st = 403%Z ->
  api_request url own net w
  = (Thrown (AxiosError (Some "ERR_BAD_REQUEST") (Some st) (Some config)),
     with_sent (fun l => l ++ [config]) w).
Proof.
  intros Hlocal config Hnet Hst.
  unfold api_request, try_catch, bind, get_world. fold config.
  rewrite (request_interceptor_local config w Hlocal). unfold modify. rewrite Hnet.
  assert (H2xx : (200 <=? st)%Z && (st <? 300)%Z = false) by (destruct Hst; subst; reflexivity).
  assert (Hcode : error_code_of_status st = Some "ERR_BAD_REQUEST")
    by (destruct Hst; subst; reflexivity).
  rewrite H2xx, Hcode. cbn [throw].
  rewrite (onRejected_response _ st) by (reflexivity || discriminate).
  cbv zeta. rewrite Hlocal. cbn [is_local].
  assert (Hauth : is_auth_status st = true) by (destruct Hst; subst; reflexivity).
  by rewrite Hauth.
Qed.

(** X7.  One failure causes at most one navigation, and only to one of three
    places: the network view, the login surface with the expired flag, or the
    error view of a status of the recognized list. *)
Theorem X7_handler_navigation_targets (A : Type) (err : JsError) (w : World) :
  let w' := world_after (response_interceptor_onRejected (A := A) err) w in
  href_assignments w' = href_assignments w \/
  exists target,
    href_assignments w' = href_assignments w ++ [BASE_URL +:+ target] /\
    (target = "/network" \/ target = "/profile?expired=1" \/
     exists st, err_response_status err = Some st /\ In st handled /\
                target = "/error/" +:+ number_to_string st).
Proof.
  intros w'. subst w'.
  assert (Hgo : forall to w0, startsWith to "/" = true ->
            href_assignments (world_after (go to) w0) = href_assignments w0 \/
            href_assignments (world_after (go to) w0)
            = href_assignments w0 ++ [BASE_URL +:+ to]).
  { intros to w0 Hto. unfold world_after. rewrite go_absolute by exact Hto. cbn [snd].
    destruct (String.eqb _ _); [by left | by right]. }
  assert (Hnet : err_code err = Some "ERR_NETWORK" \/ err_response_status err = None ->
            href_assignments (world_after (response_interceptor_onRejected (A := A) err) w)
            = href_assignments w \/
            href_assignments (world_after (response_interceptor_onRejected (A := A) err) w)
            = href_assignments w ++ [BASE_URL +:+ "/network"]).
  { intros Hn.
    assert (Heq : world_after (response_interceptor_onRejected (A := A) err) w
                  = snd (response_interceptor_onRejected (A := A) err w)) by reflexivity.
    rewrite onRejected_network in Heq by exact Hn. cbn [snd] in Heq. rewrite Heq.
    destruct (startsWith _ _); [by left|]. by apply Hgo. }
  destruct (decide (err_code err = Some "ERR_NETWORK")) as [Hc | Hc];
    [|destruct (err_response_status err) as [st|] eqn:Hst].
  - destruct (Hnet (or_introl Hc)) as [-> | ->]; [by left|].
    right. exists "/network". split; [reflexivity | by left].
  - assert (Heq : world_after (response_interceptor_onRejected (A := A) err) w
                  = snd (response_interceptor_onRejected (A := A) err w)) by reflexivity.
    rewrite (onRejected_response err st w Hst Hc) in Heq. cbn [snd] in Heq.
    cbv zeta in Heq. rewrite Heq. clear Heq.
    pose proof (dropAuth_same href_assignments ltac:(reflexivity) ltac:(reflexivity) w) as Hd.
    unfold same in Hd.
    destruct (_ && is_local _); [by left|].
    destruct (_ && negb (skips_auth_redirect _)).
    + destruct (_ && _); [|by left].
      set (w1 := world_after (saveReturnTo _) _).
      assert (Hw1 : href_assignments w1 = href_assignments w).
      { unfold w1.
        pose proof (saveReturnTo_same href_assignments ltac:(reflexivity)
                      (Some (pathname (location w) +:+ search (location w)))
                      (world_after dropAuth w)) as Hs.
        unfold same in Hs. congruence. }
      destruct (Hgo "/profile?expired=1" w1 eq_refl) as [-> | ->]; rewrite Hw1; [by left|].
      right. exists "/profile?expired=1". split; [reflexivity | right; by left].
    + destruct (includes handled st) eqn:Hin; cbn [andb]; [|by left].
      destruct (negb _); [|by left].
      destruct (Hgo ("/error/" +:+ number_to_string st) w eq_refl) as [-> | ->]; [by left|].
      right. exists ("/error/" +:+ number_to_string st). split; [reflexivity|].
      right; right. exists st. apply includes_In in Hin. by repeat split.
  - destruct (Hnet (or_intror eq_refl)) as [-> | ->]; [by left|].
    right. exists "/network". split; [reflexivity | by left].
Qed.

(** X8.  In basic and hybrid mode a browser that denies the storage blocks
    every call through the shared client: the read of the credential store
    throws inside the request interceptor, nothing is handed to the network,
    the call is rejected with that error, and the handler treats it as a
    network failure (navigation to the network view unless already there). *)
Theorem X8_denied_storage_blocks_requests (url : string) (own : list (string * string))
    (net : RequestConfig -> Outcome) (w : World) :
  is_local AUTH_MODE = false -> storage_denied w = true ->
  api_request url own net w
  = (Thrown SecurityError,
     if startsWith (pathname (location w)) (BASE_URL +:+ "/network") then w
     else world_after (go "/network") w) /\
  sent_requests (world_after (api_request url own net) w) = sent_requests w.
Proof.
  intros Hmode Hno.
  assert (Heval : api_request url own net w
                  = (Thrown SecurityError,
                     if startsWith (pathname (location w)) (BASE_URL +:+ "/network") then w
                     else world_after (go "/network") w)).
  { unfold api_request, try_catch, bind, get_world, request_interceptor.
    rewrite Hmode. cbn [negb]. unfold bind. rewrite readBasicAuth_eval.
    rewrite (tryRead_denied _ _ Hno).
    by rewrite onRejected_network by (by right). }
  split; [exact Heval|]. unfold world_after at 1. rewrite Heval. cbn [snd].
  destruct (startsWith _ _); [reflexivity | apply go_sent].
Qed.

(** X9.  After [dropAuth], in basic and hybrid mode with the storage
    accessible, the next request carries no [Authorization] header, provided it
    sets none of its own and the default headers held that name only under the
    spelling the client writes. *)
Theorem X9_request_after_dropAuth_is_unauthenticated (url : string)
    (own : list (string * string)) (net : RequestConfig -> Outcome) (w : World) :
  is_local AUTH_MODE = false -> storage_denied w = false ->
  code_written_defaults w = true -> no_authorization own = true ->
  exists config,
    sent_requests (world_after (api_request url own net) (world_after dropAuth w))
    = sent_requests w ++ [config] /\
    unauthenticated config.
Proof.
  intros Hmode Hok Hd Hown.
  set (w1 := world_after dropAuth w).
  assert (Hw1 : w1 = with_defaults (plain_delete "Authorization")
                       (with_localStorage
                          (fun ls => delete AUTH_BASIC_KEY_SECOND
                                       (delete AUTH_BASIC_KEY_PRIMARY
                                          (delete AUTH_LOCAL_KEY ls))) w)).
  { unfold w1, world_after. rewrite dropAuth_eval. cbn [snd]. by rewrite Hok. }
  assert (Hok1 : storage_denied w1 = false) by (by rewrite Hw1).
  assert (Hread : readBasicAuth w1 = (Normal None, w1)).
  { rewrite readBasicAuth_eval.
    rewrite (tryRead_absent AUTH_BASIC_KEY_PRIMARY w1 Hok1).
    - apply (tryRead_absent _ _ Hok1). rewrite Hw1.
      cbn [localStorage with_defaults with_localStorage]. apply lookup_delete_eq.
    - rewrite Hw1. cbn [localStorage with_defaults with_localStorage].
      rewrite lookup_delete_ne by discriminate. apply lookup_delete_eq. }
  assert (Hs1 : sent_requests w1 = sent_requests w) by (by rewrite Hw1).
  assert (Hnone : no_authorization (defaults_headers_common w1) = true).
  { rewrite Hw1. cbn [defaults_headers_common with_defaults with_localStorage].
    unfold no_authorization, plain_delete.
    refine (forallb_filter_weaken _ _ _ _ _ Hd). intros [k v]. cbn [fst].
    intros Hw Hne. apply negb_true_iff in Hne.
    rewrite (String.eqb_sym k), Hne, orb_false_r in Hw. exact Hw. }
  set (config := {| url := url;
                    headers := Some (AxiosHeaders
                                       (AxiosHeaders_concat (defaults_headers_common w1) own)) |}).
  exists config. split.
  - unfold world_after at 1. unfold api_request, try_catch, bind, get_world. fold config.
    rewrite (request_interceptor_without_record config w1 w1 Hmode Hread).
    unfold modify.
    destruct (net config) as [st d|c]; [destruct (_ && _)|]; cbn [ret throw snd fst].
    + cbn [sent_requests with_sent]. by rewrite Hs1.
    + fold (world_after (response_interceptor_onRejected (A := ApiUserProfile)
               (AxiosError (error_code_of_status st) (Some st) (Some config)))
             (with_sent (fun l => l ++ [config]) w1)).
      rewrite onRejected_sent. cbn [sent_requests with_sent]. by rewrite Hs1.
    + fold (world_after (response_interceptor_onRejected (A := ApiUserProfile)
               (AxiosError c None (Some config)))
             (with_sent (fun l => l ++ [config]) w1)).
      rewrite onRejected_sent. cbn [sent_requests with_sent]. by rewrite Hs1.
  - unfold unauthenticated, config. cbn [headers getHeaderValue].
    by apply concat_no_authorization.
Qed.

End Handler.

(** ** Nothing but a login adds a credential *)

Lemma forgets_frame w w' :
  localStorage w' = localStorage w ->
  defaults_headers_common w' = defaults_headers_common w -> forgets w w'.
Proof. intros Hl Hd. unfold forgets. rewrite Hl, Hd. split; [reflexivity | auto]. Qed.

Lemma forgets_delete key w : forgets w (with_localStorage (delete key) w).
Proof.
  split; [|auto]. cbn [localStorage with_localStorage]. apply delete_subseteq.
Qed.

Lemma forgets_delete_default w :
  forgets w (with_defaults (plain_delete "Authorization") w).
Proof.
  split; [reflexivity|]. cbn [defaults_headers_common with_defaults]. intros v.
  by rewrite plain_get_delete.
Qed.

Ltac forgets_leaf :=
  first [ apply forgets_delete | apply forgets_delete_default
        | apply forgets_frame; reflexivity ].

Section Forgets.
Context `{Config}.

Lemma go_forgets to : respects forgets (go to).
Proof. unfold go. respect forgets_leaf. Qed.

Lemma dropAuth_forgets : respects forgets dropAuth.
Proof. unfold dropAuth, localStorage_removeItem. respect forgets_leaf. Qed.

Lemma saveReturnTo_forgets p : respects forgets (saveReturnTo p).
Proof. unfold saveReturnTo, sessionStorage_setItem. respect forgets_leaf. Qed.

Lemma tryRead_forgets key : respects forgets (tryRead key).
Proof.
  unfold tryRead, localStorage_removeItem.
  apply respects_try_catch; try typeclasses eauto; [|intros e; respect forgets_leaf].
  apply respects_bind; try typeclasses eauto; [respect forgets_leaf|].
  intros raw. destruct raw as [[[|c s]|o]|]; respect forgets_leaf.
Qed.

Lemma readBasicAuth_forgets : respects forgets readBasicAuth.
Proof. pose proof tryRead_forgets. unfold readBasicAuth. respect forgets_leaf. Qed.

Lemma readLocalAuth_forgets : respects forgets readLocalAuth.
Proof.
  unfold readLocalAuth, localStorage_removeItem.
  apply respects_try_catch; try typeclasses eauto; [|intros e; respect forgets_leaf].
  apply respects_bind; try typeclasses eauto; [respect forgets_leaf|].
  intros raw. destruct raw as [[[|c s]|o]|]; respect forgets_leaf.
Qed.

Lemma request_interceptor_forgets config : respects forgets (request_interceptor config).
Proof.
  pose proof readBasicAuth_forgets. unfold request_interceptor. respect forgets_leaf.
Qed.

Lemma onRejected_forgets {A} err :
  respects forgets (response_interceptor_onRejected (A := A) err).
Proof.
  pose proof go_forgets. pose proof dropAuth_forgets. pose proof saveReturnTo_forgets.
  unfold response_interceptor_onRejected. respect forgets_leaf.
Qed.

Lemma api_request_forgets url own net : respects forgets (api_request url own net).
Proof.
  pose proof request_interceptor_forgets. pose proof (onRejected_forgets (A := ApiUserProfile)).
  unfold api_request. respect forgets_leaf.
Qed.

Lemma fetchMyProfileWithBasic_forgets u p net :
  respects forgets (fetchMyProfileWithBasic u p net).
Proof.
  pose proof api_request_forgets. unfold fetchMyProfileWithBasic. respect forgets_leaf.
Qed.

Lemma dispatch_initAuth_forgets net : respects forgets (dispatch_initAuth net).
Proof.
  pose proof readLocalAuth_forgets. pose proof api_request_forgets.
  unfold dispatch_initAuth, initAuth. respect forgets_leaf.
Qed.

(** X10.  No request through the shared client, and no start-up session check,
    ever adds a credential: whatever the server answers, every entry of
    localStorage afterwards was there before, and a default [Authorization]
    header afterwards was there before with the same value. *)
Theorem X10_requests_never_add_credentials (url : string) (own : list (string * string))
    (net : RequestConfig -> Outcome) (w : World) :
  let after_request := world_after (api_request url own net) w in
  let after_init := world_after (dispatch_initAuth net) w in
  (localStorage after_request ⊆ localStorage w /\
   forall v, plain_get "Authorization" (defaults_headers_common after_request) = Some v ->
             plain_get "Authorization" (defaults_headers_common w) = Some v) /\
  (localStorage after_init ⊆ localStorage w /\
   forall v, plain_get "Authorization" (defaults_headers_common after_init) = Some v ->
             plain_get "Authorization" (defaults_headers_common w) = Some v).
Proof.
  split; [apply (api_request_forgets url own net w) | apply (dispatch_initAuth_forgets net w)].
Qed.

End Forgets.

(** ** The login thunks *)

Lemma rememberBasicAuth_denied u p days w :
  storage_denied w = true ->
  rememberBasicAuth u p days w = (Thrown SecurityError, with_clock_reads S w).
Proof.
  intros Hno. unfold rememberBasicAuth, bind, Date_now, localStorage_setItem, storage_access.
  cbn [storage_denied with_clock_reads]. by rewrite Hno.
Qed.

Lemma rememberLocalAuth_denied u days w :
  storage_denied w = true ->
  rememberLocalAuth u days w = (Thrown SecurityError, with_clock_reads S w).
Proof.
  intros Hno. unfold rememberLocalAuth, bind, Date_now, localStorage_setItem, storage_access.
  cbn [storage_denied with_clock_reads]. by rewrite Hno.
Qed.

Section Thunks.
Context `{Config}.

(** The facade [login] around one of the three thunks: a payload passes
    through, a rejection value loses its message, an error keeps its own. *)
Lemma facade_eval (t : JS ThunkOutcome) w :
  try_catch (r <- unwrap t ;; ret (Fulfilled r))
            (fun e => ret (Rejected (message_of_caught e))) w
  = match t w with
    | (Normal (Fulfilled r), w1) => (Normal (Fulfilled r), w1)
    | (Normal (Rejected _), w1) => (Normal (Rejected Msg_login_error), w1)
    | (Thrown e, w1) => (Normal (Rejected (message_of_caught e)), w1)
    end.
Proof.
  unfold try_catch, bind, unwrap, bind.
  destruct (t w) as [[[r|m]|e] w1]; reflexivity.
Qed.

Lemma login_eval p net w :
  login p net w =
  match (match AUTH_MODE with
         | ModeLocal => loginLocal p
         | ModeHybrid => loginHybrid p net
         | ModeBasic => loginBasic p net
         end) w with
  | (Normal (Fulfilled r), w1) => (Normal (Fulfilled r), w1)
  | (Normal (Rejected _), w1) => (Normal (Rejected Msg_login_error), w1)
  | (Thrown e, w1) => (Normal (Rejected (message_of_caught e)), w1)
  end.
Proof. unfold login. destruct AUTH_MODE; apply facade_eval. Qed.

Lemma dispatch_login_eval p net w :
  dispatch_login p net w =
  match login p net (with_auth login_pending w) with
  | (Normal (Fulfilled r), w1) => (Normal (Fulfilled r), with_auth (login_fulfilled r) w1)
  | (Normal (Rejected m), w1) => (Normal (Rejected m), with_auth (login_rejected m) w1)
  | (Thrown e, w1) => (Thrown e, w1)
  end.
Proof.
  unfold dispatch_login, bind, modify.
  destruct (login p net _) as [[[r|m]|e] w1]; reflexivity.
Qed.

Lemma loginBasic_eval p net w :
  loginBasic p net w =
  match fetchMyProfileWithBasic (arg_username p) (arg_password p) net w with
  | (Normal raw, w1) =>
      match rememberBasicAuth (arg_username p) (arg_password p) 7 w1 with
      | (Normal _, w2) => (Normal (Fulfilled (normalizeUser raw)), w2)
      | (Thrown _, w2) => (Normal (Rejected Msg_bad_login_or_password), w2)
      end
  | (Thrown _, w1) => (Normal (Rejected Msg_bad_login_or_password), w1)
  end.
Proof.
  unfold loginBasic, try_catch, bind.
  destruct (fetchMyProfileWithBasic _ _ net w) as [[raw|e] w1]; [|reflexivity].
  destruct (rememberBasicAuth _ _ 7 w1) as [[[]|e] w2]; reflexivity.
Qed.

Lemma fetch_resolved_encodes u p net w raw w1 :
  fetchMyProfileWithBasic u p net w = (Normal raw, w1) ->
  exists token, btoa (colon_join u p) = Some token.
Proof.
  unfold fetchMyProfileWithBasic, bind, btoa_js.
  destruct (btoa (colon_join u p)) as [token|]; [eauto | discriminate].
Qed.

Lemma loginLocal_returns p w :
  storage_denied w = false -> exists r w1, loginLocal p w = (Normal r, w1).
Proof.
  intros Hok. unfold loginLocal. destruct (_ <? _)%nat; [by eexists _, _|].
  unfold bind, when. destruct (remember_or_default _); [|by eexists _, _].
  rewrite rememberLocalAuth_eval by exact Hok. by eexists _, _.
Qed.

Lemma loginHybrid_returns p net w :
  storage_denied w = false -> exists r w1, loginHybrid p net w = (Normal r, w1).
Proof.
  intros Hok. unfold loginHybrid, try_catch.
  set (body := bind _ _).
  assert (Hk : keeps_access body).
  { unfold body. apply keeps_access_bind; [apply keeps_access_fetchMyProfileWithBasic|].
    intros raw. apply keeps_access_bind; [apply keeps_access_rememberHybridAuth|].
    intros _. apply keeps_access_ret. }
  specialize (Hk w). unfold world_after in Hk.
  destruct (body w) as [[r|e] w1]; [by eexists _, _|]. cbn [snd] in Hk.
  destruct (3 <=? _)%nat; [|by eexists _, _].
  unfold bind. rewrite rememberLocalAuth_eval by congruence. by eexists _, _.
Qed.

(** X11.  The facade thunk [login] never throws, and the messages of the three
    thunks behind it never reach its caller: with the storage accessible every
    rejection of [login], in every mode, carries the fallback message of the
    facade, whatever the thunk behind it said. *)
Theorem X11_login_rejects_with_the_fallback_message (p : LoginArgs)
    (net : RequestConfig -> Outcome) (w : World) :
  (exists r w1, login p net w = (Normal r, w1)) /\
  (storage_denied w = false ->
   forall m, result_of (login p net) w = Normal (Rejected m) -> m = Msg_login_error).
Proof.
  split.
  - rewrite login_eval.
    destruct (_ w) as [[[r|m]|e] w1]; by eexists _, _.
  - intros Hok m. unfold result_of. rewrite login_eval.
    assert (Hret : exists r w1,
              (match AUTH_MODE with
               | ModeLocal => loginLocal p
               | ModeHybrid => loginHybrid p net
               | ModeBasic => loginBasic p net
               end) w = (Normal r, w1)).
    { destruct AUTH_MODE.
      - by apply loginLocal_returns.
      - rewrite loginBasic_eval.
        destruct (fetchMyProfileWithBasic _ _ net w) as [[raw|e] w1]; [|by eexists _, _].
        destruct (rememberBasicAuth _ _ 7 w1) as [[[]|e] w2]; by eexists _, _.
      - by apply loginHybrid_returns. }
    destruct Hret as (r & w1 & ->). destruct r as [r|m']; cbn [fst]; congruence.
Qed.

Lemma concat_own_last d own k v :
  AxiosHeaders_concat d (own ++ [(k, v)]) !! toLowerCase k = Some v.
Proof.
  unfold AxiosHeaders_concat. rewrite app_assoc, fold_left_app. cbn [fold_left fst snd].
  apply lookup_insert_eq.
Qed.

(** A call through the shared client that resolves: the request interceptor
    let it through and the network answered 2xx with the body. *)
Lemma api_request_resolved url own net w d w' :
  api_request url own net w = (Normal d, w') ->
  exists config st w1,
    request_interceptor
      {| url := url;
         headers := Some (AxiosHeaders
                            (AxiosHeaders_concat (defaults_headers_common w) own)) |} w
    = (Normal config, w1) /\
    net config = Responded st d /\ (200 <= st < 300)%Z /\
    w' = with_sent (fun l => l ++ [config]) w1.
Proof.
  unfold api_request, try_catch, bind, get_world.
  set (config0 := {| url := url; headers := _ |}).
  destruct (request_interceptor config0 w) as [[config|e] w1].
  2:{ intros Hres. pose proof (onRejected_result (A := ApiUserProfile) e w1) as Hr.
      unfold result_of in Hr. rewrite Hres in Hr. discriminate. }
  unfold modify.
  destruct (net config) as [st d'|c] eqn:Hnet.
  - destruct ((200 <=? st)%Z && (st <? 300)%Z) eqn:Hst.
    + cbn [ret]. intros [= -> <-]. exists config, st, w1.
      apply andb_true_iff in Hst as [H1 H2].
      apply Z.leb_le in H1. apply Z.ltb_lt in H2. repeat split; auto.
    + cbn [throw]. intros Hres.
      pose proof (onRejected_result (A := ApiUserProfile)
                    (AxiosError (error_code_of_status st) (Some st) (Some config))
                    (with_sent (fun l => l ++ [config]) w1)) as Hr.
      unfold result_of in Hr. rewrite Hres in Hr. discriminate.
  - cbn [throw]. intros Hres.
    pose proof (onRejected_result (A := ApiUserProfile) (AxiosError c None (Some config))
                  (with_sent (fun l => l ++ [config]) w1)) as Hr.
    unfold result_of in Hr. rewrite Hres in Hr. discriminate.
Qed.

(** X12.  The thunk login in basic mode persists credentials only after a 2xx
    answer to its profile request.  When it is fulfilled, the request of
    [fetchMyProfileWithBasic] was sent and answered 2xx, the payload is the
    normalized body, the typed pair is under [fw_auth] with a 7-day expiry, the
    default [Authorization] header is primed with it and the session is
    authenticated.  The answered request carried the typed pair when the
    request interceptor read no stored record; with a record in force it
    carries the stored pair instead, so a 2xx answer is not by itself a
    verification of what was typed.  When the thunk is rejected, it is with the
    facade's message, no credential has been added to the store or to the
    default headers, and the session is left unauthenticated.  It never
    throws. *)
Theorem X12_basic_login_persists_after_a_2xx_answer (p : LoginArgs)
    (net : RequestConfig -> Outcome) (w : World) :
  AUTH_MODE = ModeBasic ->
  let u := arg_username p in
  let pw := arg_password p in
  let w' := world_after (dispatch_login p net) w in
  match result_of (dispatch_login p net) w with
  | Normal (Fulfilled prof) =>
      exists raw w1 token config st,
        fetchMyProfileWithBasic u pw net (with_auth login_pending w) = (Normal raw, w1) /\
        prof = normalizeUser raw /\
        btoa (colon_join u pw) = Some token /\
        sent_requests w1 = sent_requests w ++ [config] /\
        net config = Responded st raw /\ (200 <= st < 300)%Z /\
        (result_of readBasicAuth (with_auth login_pending w) = Normal None ->
         getHeaderValue (headers config) "authorization" = Some ("Basic " +:+ token)) /\
        localStorage w' !! AUTH_BASIC_KEY_PRIMARY
        = Some (Serialized (basic_record u pw (next_reading w1 + 7 * 24 * 3600 * 1000))) /\
        plain_get "Authorization" (defaults_headers_common w') = Some ("Basic " +:+ token) /\
        isAuthed (auth w') = true
  | Normal (Rejected m) =>
      m = Msg_login_error /\ forgets w w' /\
      isAuthed (auth w') = false /\ me (auth w') = None
  | Thrown _ => False
  end.
Proof.
  intros Hmode u pw w'. subst w'. unfold result_of, world_after.
  rewrite dispatch_login_eval, login_eval, Hmode, loginBasic_eval. fold u pw.
  set (w0 := with_auth login_pending w).
  assert (H0 : forgets w w0) by (apply forgets_frame; reflexivity).
  pose proof (fetchMyProfileWithBasic_forgets u pw net w0) as Hfg. unfold world_after in Hfg.
  destruct (fetchMyProfileWithBasic u pw net w0) as [[raw|e] w1] eqn:Hf; cbn [snd] in Hfg.
  - destruct (fetch_resolved_encodes _ _ _ _ _ _ Hf) as [token Htoken].
    destruct (storage_denied w1) eqn:Hd.
    + rewrite rememberBasicAuth_denied by exact Hd. cbn [fst snd].
      split; [reflexivity|]. split; [|by split].
      transitivity w0; [exact H0|]. transitivity w1; [exact Hfg|].
      apply forgets_frame; reflexivity.
    + rewrite rememberBasicAuth_eval by exact Hd. rewrite Htoken. cbv zeta. cbn [fst snd].
      assert (Hreq : api_request "/myProfile" [("Authorization", basic_header token)] net w0
                     = (Normal raw, w1)).
      { revert Hf. unfold fetchMyProfileWithBasic, bind, btoa_js. by rewrite Htoken. }
      destruct (api_request_resolved _ _ _ _ _ _ Hreq) as (config & st & w2 & Hri & Hnet & Hst & ->).
      match type of Hri with
      | request_interceptor ?c0 _ = _ =>
          pose proof (request_interceptor_same sent_requests
                        ltac:(reflexivity) ltac:(reflexivity) c0 w0) as Hs
      end.
      unfold same, world_after in Hs. rewrite Hri in Hs. cbn [snd] in Hs.
      exists raw, (with_sent (fun l => l ++ [config]) w2), token, config, st.
      split; [reflexivity|]. split; [reflexivity|]. split; [reflexivity|].
      split; [cbn [sent_requests with_sent]; by rewrite Hs|].
      split; [exact Hnet|]. split; [exact Hst|]. split.
      * intros Hnone. unfold result_of in Hnone.
        destruct (readBasicAuth w0) as [c w3] eqn:Hread. cbn [fst] in Hnone. subst c.
        rewrite (request_interceptor_without_record _ w0 w3) in Hri
          by (rewrite ?Hmode; done).
        injection Hri as <- _. cbn [headers getHeaderValue].
        exact (concat_own_last (defaults_headers_common w0) [] "Authorization"
                 (basic_header token)).
      * split; [|split; [|reflexivity]].
        -- cbn [localStorage with_auth with_defaults with_localStorage]. apply lookup_insert_eq.
        -- cbn [defaults_headers_common with_auth with_defaults]. apply plain_get_assign.
  - cbn [fst snd]. split; [reflexivity|]. split; [|by split].
    transitivity w0; [exact H0|]. transitivity w1; [exact Hfg|].
    apply forgets_frame; reflexivity.
Qed.

(** X13.  The thunk login in local mode, with the storage accessible.  No
    request is sent.  A login shorter than 3 code units once trimmed is
    rejected and changes nothing but the state of the slice.  Any other login
    is fulfilled with the placeholder profile and authenticates the session;
    the store then gains exactly one entry, the identity-only record under
    [fw_auth_local] with a 7-day expiry, unless [remember] was false, in which
    case the store is left as it was.  The password is never stored. *)
Theorem X13_local_login (p : LoginArgs) (net : RequestConfig -> Outcome) (w : World) :
  AUTH_MODE = ModeLocal -> storage_denied w = false ->
  let u := arg_username p in
  let w' := world_after (dispatch_login p net) w in
  sent_requests w' = sent_requests w /\
  ((length (trim u) < 3)%nat ->
   result_of (dispatch_login p net) w = Normal (Rejected Msg_login_error) /\
   w' = with_auth (login_rejected Msg_login_error) (with_auth login_pending w)) /\
  ((3 <= length (trim u))%nat ->
   result_of (dispatch_login p net) w = Normal (Fulfilled (placeholderProfile u)) /\
   isAuthed (auth w') = true /\
   localStorage w'
   = if remember_or_default (arg_remember p)
     then <[AUTH_LOCAL_KEY :=
              Serialized (local_record u (next_reading w + 7 * 24 * 3600 * 1000))]>
            (localStorage w)
     else localStorage w).
Proof.
  intros Hmode Hok u w'. subst w'. unfold result_of, world_after.
  rewrite dispatch_login_eval, login_eval, Hmode. unfold loginLocal. fold u.
  destruct (length (trim u) <? 3)%nat eqn:Hlen.
  - apply Nat.ltb_lt in Hlen. cbn [ret fst snd]. split; [reflexivity|].
    split; [by intros _ | intros; lia].
  - apply Nat.ltb_ge in Hlen. unfold bind, when.
    destruct (remember_or_default (arg_remember p)).
    + rewrite rememberLocalAuth_eval by exact Hok. cbn [ret fst snd].
      split; [reflexivity|]. split; [intros; lia|]. intros _. by repeat split.
    + cbn [ret fst snd]. split; [reflexivity|]. split; [intros; lia|]. intros _.
      by repeat split.
Qed.

(** X14.  A remembered local session survives a reload and ends with logout.
    In local mode with the storage accessible, after a fulfilled login that
    remembers the session, [initAuth] on a clock reading not later than the
    expiry restores the session with the placeholder profile of the same
    identity; after [logout], [initAuth] finds no session and leaves the slice
    unauthenticated. *)
Theorem X14_local_session_round_trip (p : LoginArgs) (net net' : RequestConfig -> Outcome)
    (w : World) :
  AUTH_MODE = ModeLocal -> storage_denied w = false ->
  (3 <= length (trim (arg_username p)))%nat ->
  remember_or_default (arg_remember p) = true ->
  (clock w (S (clock_reads w)) <= clock w (clock_reads w) + 7 * 24 * 3600 * 1000)%Z ->
  let u := arg_username p in
  let logged_in := world_after (dispatch_login p net) w in
  let logged_out := world_after dispatch_logout logged_in in
  result_of (dispatch_initAuth net') logged_in = Normal (Fulfilled (placeholderProfile u)) /\
  isAuthed (auth (world_after (dispatch_initAuth net') logged_in)) = true /\
  isAuthed (auth logged_out) = false /\
  result_of (dispatch_initAuth net') logged_out = Normal (Rejected Msg_not_authed) /\
  isAuthed (auth (world_after (dispatch_initAuth net') logged_out)) = false.
Proof.
  intros Hmode Hok Hlen Hrem Hclock u logged_in logged_out.
  assert (Hu : u <> []).
  { intros Hnil. unfold u in Hnil. rewrite Hnil in Hlen. cbn in Hlen. lia. }
  set (e := (next_reading w + 7 * 24 * 3600 * 1000)%Z).
  assert (Hin : logged_in
                = with_auth (login_fulfilled (placeholderProfile u))
                    (with_localStorage (insert AUTH_LOCAL_KEY (Serialized (local_record u e)))
                       (with_clock_reads S (with_auth login_pending w)))).
  { unfold logged_in, world_after.
    rewrite dispatch_login_eval, login_eval, Hmode. unfold loginLocal. fold u.
    destruct (length (trim u) <? 3)%nat eqn:E;
      [apply Nat.ltb_lt in E; unfold u in E; lia|].
    rewrite Hrem. unfold bind, when.
    by rewrite rememberLocalAuth_eval by exact Hok. }
  assert (Hinit : forall w0, dispatch_initAuth net' w0
            = match readLocalAuth (with_auth initAuth_pending w0) with
              | (Normal (Some s), w1) =>
                  (Normal (Fulfilled (placeholderProfile (field_text (username s)))),
                   with_auth (initAuth_fulfilled (placeholderProfile (field_text (username s)))) w1)
              | (Normal None, w1) =>
                  (Normal (Rejected Msg_not_authed), with_auth initAuth_rejected w1)
              | (Thrown err, w1) =>
                  (Normal (Rejected Msg_of_thrown_error), with_auth initAuth_rejected w1)
              end).
  { intros w0. unfold dispatch_initAuth, initAuth, bind, modify, try_catch. rewrite Hmode.
    unfold bind. destruct (readLocalAuth _) as [[[s|]|err] w1]; reflexivity. }
  assert (Hout : logged_out = with_auth logout_fulfilled (world_after dropAuth logged_in)).
  { unfold logged_out, world_after, dispatch_logout, bind, modify.
    by rewrite dropAuth_total. }
  assert (Hin_read : readLocalAuth (with_auth initAuth_pending logged_in)
                     = (Normal (Some (local_record u e)),
                        with_clock_reads S (with_auth initAuth_pending logged_in))).
  { apply (readLocalAuth_valid _ (local_record u e) u); auto.
    - by rewrite Hin.
    - rewrite Hin. cbn [localStorage with_auth with_localStorage]. apply lookup_insert_eq.
    - intros e0 He0. injection He0 as <-. rewrite Hin. exact Hclock. }
  assert (Hout_read : readLocalAuth (with_auth initAuth_pending logged_out)
                      = (Normal None, with_auth initAuth_pending logged_out)).
  { rewrite readLocalAuth_eval.
    - rewrite Hout. unfold world_after. rewrite dropAuth_eval. cbn [snd]. rewrite Hin.
      cbn [storage_denied with_auth with_localStorage with_clock_reads localStorage
           with_defaults]. rewrite Hok.
      cbn [localStorage with_auth with_localStorage with_clock_reads with_defaults].
      rewrite !lookup_delete_ne by discriminate. by rewrite lookup_delete_eq.
    - rewrite Hout. cbn [storage_denied with_auth].
      rewrite (keeps_access_dropAuth logged_in). by rewrite Hin. }
  unfold result_of, world_after. rewrite !Hinit, Hin_read, Hout_read. cbn [fst snd].
  repeat split. by rewrite Hout.
Qed.

Lemma request_interceptor_keeps_skip url h w config w1 :
  h !! "x-skip-auth-redirect" = Some "1" ->
  request_interceptor {| url := url; headers := Some (AxiosHeaders h) |} w
  = (Normal config, w1) ->
  getHeaderValue (headers config) "x-skip-auth-redirect" = Some "1".
Proof.
  intros Hh. unfold request_interceptor.
  destruct (negb _); [|by intros [= <- <-]].
  unfold bind. destruct (readBasicAuth w) as [[[s|]|e] w2];
    [| by intros [= <- <-] | discriminate].
  unfold btoa_js. destruct (btoa _) as [token|]; [|discriminate].
  cbn [headers ret]. intros [= <- <-]. cbn [headers with_headers getHeaderValue].
  by rewrite lookup_insert_ne by discriminate.
Qed.

(** X15.  The start-up session check does not redirect.  In basic mode, when
    the request interceptor lets the profile request of [initAuth] through
    (sent with [X-Skip-Auth-Redirect: 1]) and the server answers 401 or 403,
    the thunk is rejected and the slice left unauthenticated, and nothing else
    happens: the world is the one the request interceptor left, with the
    request recorded; no credential is cleared, no return target saved, no
    navigation made. *)
Theorem X15_session_check_does_not_redirect (net : RequestConfig -> Outcome) (w : World)
    (config : RequestConfig) (w1 : World) (st : Z) (d : ApiUserProfile) :
  AUTH_MODE = ModeBasic ->
  request_interceptor
    {| url := "/myProfile";
       headers := Some (AxiosHeaders
                          (AxiosHeaders_concat (defaults_headers_common w)
                             [("X-Skip-Auth-Redirect", "1")])) |}
    (with_auth initAuth_pending w) = (Normal config, w1) ->
  net config = Responded st d -> st = 401%Z \/ st = 403%Z ->
  dispatch_initAuth net w
  = (Normal (Rejected Msg_not_authed),
     with_auth initAuth_rejected (with_sent (fun l => l ++ [config]) w1)).
Proof.
  intros Hmode Hreq Hnet Hst.
  assert (Hskip : getHeaderValue (headers config) "x-skip-auth-redirect" = Some "1").
  { refine (request_interceptor_keeps_skip _ _ _ _ _ _ Hreq).
    exact (concat_own_last (defaults_headers_common w) [] "X-Skip-Auth-Redirect" "1"). }
  unfold dispatch_initAuth, initAuth. rewrite Hmode.
  unfold bind at 1. unfold modify at 1. unfold bind at 1.
  unfold try_catch at 1. unfold bind at 1.
  unfold api_request, try_catch, bind, get_world.
  cbn [defaults_headers_common with_auth]. rewrite Hreq. unfold modify at 1. rewrite Hnet.
  assert (H2xx : (200 <=? st)%Z && (st <? 300)%Z = false) by (destruct Hst; subst; reflexivity).
  rewrite H2xx. cbn [throw].
  rewrite (onRejected_response _ st) by (reflexivity || (destruct Hst; subst; discriminate)).
  cbv zeta. rewrite Hmode. cbn [is_local]. rewrite andb_false_r.
  unfold skips_auth_redirect. cbn [err_config_headers]. rewrite Hskip.
  rewrite bool_decide_eq_true_2 by reflexivity. cbn [negb]. rewrite andb_false_r.
  assert (Hnot : includes handled st = false) by (destruct Hst; subst; reflexivity).
  rewrite Hnot. cbn [andb ret]. reflexivity.
Qed.

Lemma dispatch_login_fulfilled_authed p net w r w1 :
  dispatch_login p net w = (Normal (Fulfilled r), w1) -> isAuthed (auth w1) = true.
Proof.
  rewrite dispatch_login_eval.
  destruct (login p net _) as [[[r'|m]|e] w2]; [|discriminate..].
  by intros [= <- <-].
Qed.

(** X16.  [handleLogin] never throws, and it navigates only after a fulfilled
    login: either the router is left alone, or the session is authenticated
    and exactly one navigation was made. *)
Theorem X16_handleLogin_navigates_only_when_authenticated (u p : jsstring)
    (net : RequestConfig -> Outcome) (w : World) :
  let w' := world_after (handleLogin u p net) w in
  result_of (handleLogin u p net) w = Normal tt /\
  (router_navigations w' = router_navigations w \/
   isAuthed (auth w') = true /\
   exists target, router_navigations w' = router_navigations w ++ [target]).
Proof.
  intros w'. subst w'. unfold result_of, world_after, handleLogin. cbv zeta.
  destruct (if is_local AUTH_MODE then _ else _); [split; [reflexivity | by left]|].
  unfold try_catch, bind, unwrap, bind.
  set (args := {| arg_username := u; arg_password := p; arg_remember := None |}).
  pose proof (dispatch_login_same router_navigations
                ltac:(reflexivity) ltac:(reflexivity) ltac:(reflexivity) ltac:(reflexivity)
                ltac:(reflexivity) ltac:(reflexivity) ltac:(reflexivity) args net w) as Hr.
  unfold same, world_after in Hr.
  destruct (dispatch_login args net w) as [[[prof|m]|e] w1] eqn:Hd; cbn [snd] in Hr;
    cbn [ret throw fst snd]; try (split; [reflexivity | by left]).
  apply dispatch_login_fulfilled_authed in Hd.
  pose proof (consumeReturnTo_same router_navigations ltac:(reflexivity) w1) as Hc.
  pose proof (consumeReturnTo_same (fun w => isAuthed (auth w)) ltac:(reflexivity) w1) as Ha.
  unfold same, world_after in Hc, Ha.
  destruct (consumeReturnTo_returns w1) as (v & w2 & Hv). rewrite Hv in *.
  cbn [snd] in Hc, Ha. unfold nav, modify. cbn [fst snd]. split; [reflexivity|].
  right. split.
  - cbn [auth with_router]. congruence.
  - exists (target_or_root v). cbn [router_navigations with_router]. congruence.
Qed.

(** X17.  [bootstrapAuthFromStorage] in basic and hybrid mode.  With a valid
    record in force it primes the default [Authorization] header with
    [Basic base64(username:password)] of that record; when [btoa] rejects the
    stored pair it throws and leaves the default headers as they were.  With no
    record to read, it leaves the default headers as they were and does not
    throw. *)
Theorem X17_bootstrap_primes_the_default_header (w : World) :
  is_local AUTH_MODE = false ->
  (forall r u p, in_force w r u p ->
     let w' := world_after bootstrapAuthFromStorage w in
     match btoa (colon_join u p) with
     | Some token =>
         result_of bootstrapAuthFromStorage w = Normal tt /\
         plain_get "Authorization" (defaults_headers_common w') = Some ("Basic " +:+ token)
     | None =>
         result_of bootstrapAuthFromStorage w = Thrown InvalidCharacterError /\
         defaults_headers_common w' = defaults_headers_common w
     end) /\
  (forall w1, readBasicAuth w = (Normal None, w1) ->
     bootstrapAuthFromStorage w = (Normal tt, w1) /\
     defaults_headers_common w1 = defaults_headers_common w).
Proof.
  intros Hmode. split.
  - intros r u p Hforce w'. subst w'.
    destruct (readBasicAuth_in_force w r u p Hforce) as (w1 & Hread & _ & Hd).
    assert (Hu : username r = Some u /\ password r = Some p).
    { destruct Hforce as [_ [[_ Hv] | (_ & _ & Hv)]]; destruct Hv as (? & _ & ? & _);
        by split. }
    destruct Hu as [Hu Hp].
    unfold result_of, world_after, bootstrapAuthFromStorage. rewrite Hmode. cbn [negb].
    unfold bind. rewrite Hread, Hu, Hp. cbn [field_text]. unfold btoa_js.
    destruct (btoa (colon_join u p)) as [token|]; cbn [ret throw modify fst snd].
    + split; [reflexivity|]. cbn [defaults_headers_common with_defaults].
      apply plain_get_assign.
    + by split.
  - intros w1 Hread. split.
    + unfold bootstrapAuthFromStorage. rewrite Hmode. cbn [negb]. unfold bind.
      by rewrite Hread.
    + destruct (readBasicAuth_frame w) as [_ Hd]. unfold world_after in Hd.
      by rewrite Hread in Hd.
Qed.

End Thunks.

(** ** The properties above at concrete sessions *)

(** X6 on a 401 answer to the list of articles. *)
Lemma X6_local_mode_witness :
  let w := page_load ∅ ∅ (at_path "/articles") (frozen_clock 1000) in
  let config :=
    {| url := "/articles";
       headers := Some (AxiosHeaders (AxiosHeaders_concat (defaults_headers_common w) [])) |} in
  api_request (H := local_root) "/articles" [] (server_status 401) w
  = (Thrown (AxiosError (Some "ERR_BAD_REQUEST") (Some 401%Z) (Some config)),
     with_sent (fun l => l ++ [config]) w).
Proof.
  intros w config.
  apply (X6_local_mode_ignores_auth_failures (H := local_root) "/articles" []
           (server_status 401) w 401 no_profile eq_refl eq_refl).
  by left.
Defined.

(** X8 on a request for the list of articles from the home page. *)
Lemma X8_denied_storage_witness :
  let w := page_load_denied (at_path "/") (frozen_clock 1000) in
  api_request (H := basic_root) "/articles" [] (server_status 200) w
  = (Thrown SecurityError, world_after (go (H := basic_root) "/network") w) /\
  sent_requests (world_after (api_request (H := basic_root) "/articles" []
                                (server_status 200)) w) = [].
Proof.
  intros w.
  exact (X8_denied_storage_blocks_requests (H := basic_root) "/articles" []
           (server_status 200) w eq_refl eq_refl).
Defined.

(** X9 after credentials were remembered and primed. *)
Lemma X9_request_after_dropAuth_witness :
  let w := world_after (rememberBasicAuth (js "user") (js "pw") 7)
             (page_load ∅ ∅ (at_path "/") (frozen_clock 1000)) in
  plain_get "Authorization" (defaults_headers_common w) = Some "Basic dXNlcjpwdw==" /\
  exists config,
    sent_requests (world_after (api_request (H := basic_root) "/articles" []
                                  (server_status 200))
                     (world_after dropAuth w))
    = sent_requests w ++ [config] /\
    unauthenticated config.
Proof.
  intros w. split; [reflexivity|].
  apply (X9_request_after_dropAuth_is_unauthenticated (H := basic_root) "/articles" []
           (server_status 200) w); reflexivity.
Defined.

(** X12 on a login the server accepts, with nothing stored: the request that
    was answered carried the typed pair. *)
Lemma X12_basic_login_witness :
  let p := {| arg_username := js "user"; arg_password := js "pw"; arg_remember := None |} in
  let w := page_load ∅ ∅ (at_path "/profile") (frozen_clock 1000) in
  let w' := world_after (dispatch_login (H := basic_root) p (server_status 200)) w in
  exists token config,
    btoa (colon_join (js "user") (js "pw")) = Some token /\
    getHeaderValue (headers config) "authorization" = Some ("Basic " +:+ token) /\
    plain_get "Authorization" (defaults_headers_common w') = Some ("Basic " +:+ token) /\
    isAuthed (auth w') = true.
Proof.
  intros p w w'.
  destruct (X12_basic_login_persists_after_a_2xx_answer (H := basic_root) p
              (server_status 200) w eq_refl)
    as (raw & w1 & token & config & st & _ & _ & Htoken & _ & _ & _ & Hsent & _ & Hh & Ha).
  exists token, config.
  split; [exact Htoken|]. split; [exact (Hsent eq_refl)|]. split; [exact Hh | exact Ha].
Defined.

(** X13 on the login [archmagos]. *)
Lemma X13_local_login_witness :
  let p := {| arg_username := js "archmagos"; arg_password := js "secret";
              arg_remember := None |} in
  let w := page_load ∅ ∅ (at_path "/profile") (frozen_clock 1000) in
  let w' := world_after (dispatch_login (H := local_root) p server_down) w in
  sent_requests w' = [] /\
  result_of (dispatch_login (H := local_root) p server_down) w
  = Normal (Fulfilled (placeholderProfile (js "archmagos"))) /\
  isAuthed (auth w') = true /\
  localStorage w'
  = {[ AUTH_LOCAL_KEY :=
         Serialized (local_record (js "archmagos") (1000 + 7 * 24 * 3600 * 1000)) ]}.
Proof.
  intros p w w'.
  destruct (X13_local_login (H := local_root) p server_down w eq_refl eq_refl)
    as (Hs & _ & Hok).
  split; [exact Hs|]. apply Hok. vm_compute. lia.
Defined.

(** X14 on the login [archmagos]. *)
Lemma X14_local_session_witness :
  let p := {| arg_username := js "archmagos"; arg_password := [];
              arg_remember := Some true |} in
  let w := page_load ∅ ∅ (at_path "/profile") (ticking_clock 1000) in
  let logged_in := world_after (dispatch_login (H := local_root) p server_down) w in
  let logged_out := world_after dispatch_logout logged_in in
  result_of (dispatch_initAuth (H := local_root) server_down) logged_in
  = Normal (Fulfilled (placeholderProfile (js "archmagos"))) /\
  isAuthed (auth (world_after (dispatch_initAuth (H := local_root) server_down) logged_in))
  = true /\
  isAuthed (auth logged_out) = false /\
  result_of (dispatch_initAuth (H := local_root) server_down) logged_out
  = Normal (Rejected Msg_not_authed) /\
  isAuthed (auth (world_after (dispatch_initAuth (H := local_root) server_down) logged_out))
  = false.
Proof.
  intros p w logged_in logged_out.
  apply (X14_local_session_round_trip (H := local_root) p server_down server_down w
           eq_refl eq_refl); [vm_compute; lia | reflexivity | vm_compute; discriminate].
Defined.

(** X15 with a valid record in the store: the record is still there after the
    401 answer. *)
Lemma X15_session_check_witness :
  let r := basic_record (js "user") (js "pw") 9000 in
  let w := page_load {[ AUTH_BASIC_KEY_PRIMARY := Serialized r ]} ∅ (at_path "/articles")
             (frozen_clock 1000) in
  let w' := world_after (dispatch_initAuth (H := basic_root) (server_status 401)) w in
  result_of (dispatch_initAuth (H := basic_root) (server_status 401)) w
  = Normal (Rejected Msg_not_authed) /\
  localStorage w' = localStorage w /\ href_assignments w' = [] /\
  sessionStorage w' = ∅ /\ isAuthed (auth w') = false.
Proof.
  intros r w w'.
  set (config0 := {| url := "/myProfile";
                     headers := Some (AxiosHeaders
                                        (AxiosHeaders_concat (defaults_headers_common w)
                                           [("X-Skip-Auth-Redirect", "1")])) |}).
  set (w0 := with_auth initAuth_pending w).
  set (config := match result_of (request_interceptor (H := basic_root) config0) w0 with
                 | Normal c => c
                 | Thrown _ => config0
                 end).
  set (w1 := world_after (request_interceptor (H := basic_root) config0) w0).
  pose proof (X15_session_check_does_not_redirect (H := basic_root) (server_status 401) w
                config w1 401 no_profile eq_refl eq_refl eq_refl (or_introl eq_refl)) as Heq.
  unfold w', result_of, world_after. rewrite Heq. cbn [fst snd].
  repeat split.
Defined.

(** X17 with a valid record under the primary key. *)
Lemma X17_bootstrap_witness :
  let r := basic_record (js "user") (js "pw") 9000 in
  let w := page_load {[ AUTH_BASIC_KEY_PRIMARY := Serialized r ]} ∅ (at_path "/")
             (frozen_clock 1000) in
  result_of (bootstrapAuthFromStorage (H := basic_root)) w = Normal tt /\
  plain_get "Authorization"
    (defaults_headers_common (world_after (bootstrapAuthFromStorage (H := basic_root)) w))
  = Some ("Basic " +:+ "dXNlcjpwdw==").
Proof.
  intros r w.
  apply (proj1 (X17_bootstrap_primes_the_default_header (H := basic_root) w eq_refl)
           r (js "user") (js "pw")).
  split; [reflexivity|]. left. split; [reflexivity|].
  repeat split; try discriminate.
  intros e He. injection He as <-. vm_compute. discriminate.
Defined.

(** * Article content: where [addContent] puts the new blocks *)

Lemma truncate_nonneg q : Qle_bool 0 q = true -> truncate q = Qfloor q /\ (0 <= Qfloor q)%Z.
Proof.
  intros Hq. unfold truncate. rewrite Hq. split; [reflexivity|].
  apply Qle_bool_iff in Hq. apply (Qfloor_resp_le 0 q Hq).
Qed.

Lemma Qfloor_negative q : Qle_bool 0 q = false -> (Qfloor q < 0)%Z.
Proof.
  intros Hq. destruct (Z.lt_ge_cases (Qfloor q) 0) as [Hlt | Hge]; [exact Hlt|].
  exfalso. assert (H0 : (0 <= q)%Q).
  { apply Qle_trans with (inject_Z (Qfloor q)); [|apply Qfloor_le].
    change 0%Q with (inject_Z 0). by rewrite <- Zle_Qle. }
  apply Qle_bool_iff in H0. congruence.
Qed.

Lemma relative_index_nonneg q len :
  Qle_bool 0 q = true -> relative_index (Finite q) len = Nat.min (Z.to_nat (Qfloor q)) len.
Proof.
  intros Hq. destruct (truncate_nonneg q Hq) as [Ht Hge]. unfold relative_index.
  rewrite Ht. destruct (Z.ltb_spec (Qfloor q) 0); [lia | reflexivity].
Qed.

Lemma slice_head {A} (a : list A) q :
  Qle_bool 0 q = true ->
  slice a (Finite 0) (Some (Finite q)) = firstn (Z.to_nat (Qfloor q)) a.
Proof.
  intros Hq. unfold slice. rewrite (relative_index_nonneg q) by exact Hq.
  rewrite (relative_index_nonneg 0) by reflexivity.
  change (Z.to_nat (Qfloor 0)) with 0%nat. cbn [Nat.min]. rewrite skipn_O, Nat.sub_0_r.
  destruct (Nat.le_ge_cases (Z.to_nat (Qfloor q)) (length a)) as [Hle | Hge].
  - by rewrite Nat.min_l.
  - rewrite Nat.min_r by exact Hge. by rewrite !firstn_all2 by lia.
Qed.

Lemma slice_tail {A} (a : list A) q :
  Qle_bool 0 q = true ->
  slice a (Finite q) None = skipn (Z.to_nat (Qfloor q)) a.
Proof.
  intros Hq. unfold slice. rewrite (relative_index_nonneg q) by exact Hq.
  rewrite firstn_all2 by (rewrite length_skipn; lia).
  destruct (Nat.le_ge_cases (Z.to_nat (Qfloor q)) (length a)) as [Hle | Hge].
  - by rewrite Nat.min_l.
  - rewrite Nat.min_r by exact Hge. by rewrite !skipn_all2 by lia.
Qed.

Lemma addContent_next_at {A} (mainContent : option (list A))
    (blocks : list A) (position : option JsNumber) :
  let exist := default [] mainContent in
  let n := match position with
           | Some (Finite q) => Z.to_nat (Qfloor q)
           | _ => length exist
           end in
  addContent_next mainContent blocks position
  = firstn n exist ++ blocks ++ skipn n exist.
Proof.
  intros exist n. unfold addContent_next. fold exist.
  assert (Hend : slice exist (Finite 0) (Some (Finite (inject_Z (Z.of_nat (length exist)))))
                 ++ blocks ++ slice exist (Finite (inject_Z (Z.of_nat (length exist)))) None
                 = firstn (length exist) exist ++ blocks ++ skipn (length exist) exist).
  { assert (Hq : Qle_bool 0 (inject_Z (Z.of_nat (length exist))) = true).
    { apply Qle_bool_iff. change 0%Q with (inject_Z 0). rewrite <- Zle_Qle. lia. }
    rewrite slice_head, slice_tail by exact Hq. by rewrite Qfloor_Z, Nat2Z.id. }
  destruct position as [[q| | |]|];
    cbn [Number_of default from_option Datatypes.id Number_isFinite andb];
    try exact Hend.
  rewrite bool_decide_eq_true_2 by discriminate. cbn [Math_max andb]. subst n.
  destruct (Qle_bool 0 q) eqn:Hq.
  - by rewrite slice_head, slice_tail by exact Hq.
  - rewrite slice_head, slice_tail by reflexivity.
    pose proof (Qfloor_negative q Hq) as Hneg.
    change (Z.to_nat (Qfloor 0)) with 0%nat.
    replace (Z.to_nat (Qfloor q)) with 0%nat by lia. reflexivity.
Qed.


(** X18.  [addContent] puts the new blocks, in their order and unbroken, at
    one index of the existing content, which keeps its order on both sides:
    the index is the integer part of [position] when that is a finite number
    (a negative one counts as 0, one beyond the end as the end), and the end
    of the content when [position] is omitted, NaN or infinite. *)
Theorem X18_addContent_inserts_at_one_index (A : Type) (mainContent : option (list A))
    (blocks : list A) (position : option JsNumber) :
  let exist := default [] mainContent in
  let n := match position with
           | Some (Finite q) => Nat.min (Z.to_nat (Qfloor q)) (length exist)
           | _ => length exist
           end in
  (n <= length exist)%nat /\
  addContent_next mainContent blocks position
  = firstn n exist ++ blocks ++ skipn n exist.
Proof.
  intros exist n. split.
  - subst n. destruct position as [[q| | |]|]; lia.
  - rewrite addContent_next_at. cbv zeta. fold exist. subst n.
    destruct position as [[q| | |]|]; try reflexivity.
    destruct (Nat.le_ge_cases (Z.to_nat (Qfloor q)) (length exist)) as [Hle | Hge].
    + by rewrite Nat.min_l.
    + rewrite Nat.min_r by exact Hge.
      by rewrite !firstn_all2, !skipn_all2 by lia.
Qed.

(** X19.  The edges of [addContent].  Nothing is lost: the result has the
    length of the existing content plus that of the new blocks.  Without a
    position, or with NaN or an infinity of either sign, the blocks are
    appended; so they are with a position at or beyond the end.  With a
    position below 1, negative ones included, they are put in front.  An
    article without content behaves as one with the empty content. *)
Theorem X19_addContent_edges (A : Type) (mainContent : option (list A)) (blocks : list A) :
  let exist := default [] mainContent in
  (forall position,
     length (addContent_next mainContent blocks position)
     = (length exist + length blocks)%nat) /\
  (forall position, position = None \/ position = Some NaN \/
                    position = Some PosInfinity \/ position = Some NegInfinity ->
     addContent_next mainContent blocks position = exist ++ blocks) /\
  (forall q, (inject_Z (Z.of_nat (length exist)) <= q)%Q ->
     addContent_next mainContent blocks (Some (Finite q)) = exist ++ blocks) /\
  (forall q, (q < 1)%Q ->
     addContent_next mainContent blocks (Some (Finite q)) = blocks ++ exist) /\
  (forall position, addContent_next None blocks position = blocks).
Proof.
  intros exist. split; [|split; [|split; [|split]]].
  - intros position. rewrite addContent_next_at. cbv zeta. fold exist.
    rewrite !length_app. set (n := match position with Some (Finite _) => _ | _ => _ end).
    rewrite length_firstn, length_skipn. lia.
  - intros position Hp. rewrite addContent_next_at. cbv zeta. fold exist.
    assert (Hn : match position with
                 | Some (Finite q) => Z.to_nat (Qfloor q)
                 | _ => length exist
                 end = length exist)
      by (destruct Hp as [-> | [-> | [-> | ->]]]; reflexivity).
    rewrite Hn, firstn_all, skipn_all. by rewrite app_nil_r.
  - intros q Hq. rewrite addContent_next_at. cbv zeta. fold exist.
    assert (Hn : (length exist <= Z.to_nat (Qfloor q))%nat).
    { apply Qfloor_resp_le in Hq. rewrite Qfloor_Z in Hq. lia. }
    rewrite firstn_all2, skipn_all2 by exact Hn. by rewrite app_nil_r.
  - intros q Hq. rewrite addContent_next_at. cbv zeta. fold exist.
    assert (Hn : Z.to_nat (Qfloor q) = 0%nat).
    { assert (Qfloor q < 1)%Z; [|lia].
      rewrite Zlt_Qlt. apply Qle_lt_trans with q; [apply Qfloor_le | exact Hq]. }
    by rewrite Hn.
  - intros position. rewrite addContent_next_at. cbv zeta. cbn [default length].
    destruct position as [[q| | |]|]; by rewrite ?firstn_nil, ?skipn_nil, app_nil_r.
Qed.

(** * The list editor: from the textarea to the list and back *)

Lemma trimStart_split s :
  exists ws, forallb is_js_space ws = true /\ s = ws ++ trimStart s.
Proof.
  induction s as [|c s IH]; [by exists []|]. cbn [trimStart].
  destruct (is_js_space c) eqn:Hc; [|by exists []].
  destruct IH as (ws & Hws & Hs). exists (c :: ws). cbn [forallb]. rewrite Hc, Hws.
  split; [reflexivity|]. cbn [app]. by rewrite <- Hs.
Qed.

Lemma trimStart_head s :
  match trimStart s with
  | [] => True
  | c :: _ => is_js_space c = false
  end.
Proof.
  induction s as [|c s IH]; [exact I|]. cbn [trimStart].
  destruct (is_js_space c) eqn:Hc; [exact IH | exact Hc].
Qed.

Lemma trimStart_fixed c s : is_js_space c = false -> trimStart (c :: s) = c :: s.
Proof. intros Hc. cbn [trimStart]. by rewrite Hc. Qed.

Lemma trimStart_spaces ws s :
  forallb is_js_space ws = true -> trimStart (ws ++ s) = trimStart s.
Proof.
  induction ws as [|c ws IH]; [reflexivity|]. cbn [forallb app trimStart].
  intros Hws. apply andb_true_iff in Hws as [Hc Hws]. rewrite Hc. by apply IH.
Qed.

Lemma trimStart_idem s : trimStart (trimStart s) = trimStart s.
Proof.
  pose proof (trimStart_head s) as Hh. destruct (trimStart s) as [|c t]; [reflexivity|].
  by apply trimStart_fixed.
Qed.

(** A string whose first and last code units are not white space is its own
    trimmed form. *)
Lemma trim_fixed s :
  trimStart s = s -> trimStart (rev s) = rev s -> trim s = s.
Proof. intros H1 H2. unfold trim. by rewrite H1, H2, rev_involutive. Qed.

Lemma trim_ends s : trimStart (trim s) = trim s /\ trimStart (rev (trim s)) = rev (trim s).
Proof.
  unfold trim. set (t := trimStart s). set (u := trimStart (rev t)).
  rewrite rev_involutive. split; [|apply trimStart_idem].
  destruct (trimStart_split (rev t)) as (ws & Hws & Hrev). fold u in Hrev.
  assert (Ht : t = rev u ++ rev ws).
  { rewrite <- (rev_involutive t), Hrev. by rewrite rev_app_distr. }
  pose proof (trimStart_head s) as Hh. fold t in Hh.
  destruct (rev u) as [|c r] eqn:Hu; [reflexivity|].
  rewrite Ht in Hh. cbn [app] in Hh. by apply trimStart_fixed.
Qed.

Lemma trim_idem s : trim (trim s) = trim s.
Proof. destruct (trim_ends s) as [H1 H2]. by apply trim_fixed. Qed.

Lemma trimStart_In x s : In x (trimStart s) -> In x s.
Proof.
  destruct (trimStart_split s) as (ws & _ & Hs). intros Hx. rewrite Hs.
  apply in_or_app. by right.
Qed.

Lemma trim_In x s : In x (trim s) -> In x s.
Proof.
  unfold trim. intros Hx. apply in_rev in Hx. apply trimStart_In in Hx.
  apply in_rev in Hx. by apply trimStart_In.
Qed.

Lemma trim_spaces ws : forallb is_js_space ws = true -> trim ws = [].
Proof.
  intros Hws. unfold trim.
  assert (Ht : trimStart ws = []).
  { rewrite <- (app_nil_r ws). by rewrite trimStart_spaces. }
  by rewrite Ht.
Qed.

(** White space after a string is trimmed away with nothing else. *)
Lemma trim_app_spaces s ws : forallb is_js_space ws = true -> trim (s ++ ws) = trim s.
Proof.
  intros Hws. unfold trim.
  destruct (trimStart_split s) as (pre & Hpre & Hs).
  assert (Hstart : trimStart (s ++ ws)
                   = match trimStart s with [] => [] | _ => trimStart s ++ ws end).
  { rewrite Hs at 1. rewrite <- app_assoc, trimStart_spaces by exact Hpre.
    pose proof (trimStart_head s) as Hh. destruct (trimStart s) as [|c t].
    - cbn [app]. rewrite <- (app_nil_r ws). by rewrite trimStart_spaces.
    - cbn [app]. by apply trimStart_fixed. }
  rewrite Hstart. destruct (trimStart s) as [|c t]; [reflexivity|].
  rewrite rev_app_distr, trimStart_spaces; [reflexivity|].
  rewrite forallb_forall in *. intros x Hx. apply Hws. by apply in_rev.
Qed.

Lemma split_lines_nonempty t : split_lines t <> [].
Proof.
  induction t as [|c t IH]; [discriminate|]. cbn [split_lines].
  destruct (c =? 10)%N; [discriminate|]. by destruct (split_lines t).
Qed.

Lemma split_lines_app l t :
  ~ In 10%N l ->
  split_lines (l ++ t)
  = match split_lines t with
    | h :: r => (l ++ h) :: r
    | [] => [l]
    end.
Proof.
  induction l as [|c l IH]; intros Hl.
  - cbn [app]. pose proof (split_lines_nonempty t). by destruct (split_lines t).
  - cbn [app split_lines]. destruct (N.eqb_spec c 10) as [-> | Hc].
    + exfalso. apply Hl. by left.
    + rewrite IH by (intros Hin; apply Hl; by right).
      by destruct (split_lines t).
Qed.

Lemma split_lines_cons_newline t : split_lines (10%N :: t) = [] :: split_lines t.
Proof. reflexivity. Qed.

Lemma split_lines_no_newline t : Forall (fun l => ~ In 10%N l) (split_lines t).
Proof.
  induction t as [|c t IH]; [repeat constructor; by intros []|]. cbn [split_lines].
  destruct (N.eqb_spec c 10) as [-> | Hc].
  - constructor; [by intros [] | exact IH].
  - destruct (split_lines t) as [|h r]; [repeat constructor; intros [? | []]; congruence|].
    inversion IH as [|? ? Hh Hr]; subst. constructor; [|exact Hr].
    intros [? | Hin]; [congruence | by apply Hh].
Qed.

Lemma split_lines_spaces ws :
  forallb is_js_space ws = true ->
  Forall (fun l => forallb is_js_space l = true) (split_lines ws).
Proof.
  induction ws as [|c ws IH]; [repeat constructor|]. cbn [forallb split_lines].
  intros Hws. apply andb_true_iff in Hws as [Hc Hws]. specialize (IH Hws).
  destruct (c =? 10)%N; [by constructor|].
  destruct (split_lines ws) as [|h r]; [repeat constructor; cbn; by rewrite Hc|].
  inversion IH as [|? ? Hh Hr]; subst. constructor; [|exact Hr].
  cbn [forallb]. by rewrite Hc, Hh.
Qed.

Lemma blank_lines_dropped (L : list jsstring) :
  Forall (fun l => forallb is_js_space l = true) L ->
  List.filter (fun s => negb (bool_decide (s = []))) (map trim L) = [].
Proof.
  induction 1 as [|l L Hl _ IH]; [reflexivity|]. cbn [map List.filter].
  rewrite (trim_spaces l Hl). by rewrite bool_decide_eq_true_2.
Qed.

Lemma kept_lines_survive (ls : list jsstring) (ws : jsstring) :
  Forall kept_line ls -> forallb is_js_space ws = true ->
  List.filter (fun s => negb (bool_decide (s = [])))
    (map trim (split_lines (join_lines ls ++ ws))) = ls.
Proof.
  intros Hls Hws. induction Hls as [|a ls (Hne & Htrim & Hnl) Hls IH].
  - cbn [join_lines app]. apply blank_lines_dropped. by apply split_lines_spaces.
  - assert (Hkeep : forall L, List.filter (fun s => negb (bool_decide (s = [])))
                                (map trim (a :: L))
                    = a :: List.filter (fun s => negb (bool_decide (s = []))) (map trim L)).
    { intros L. cbn [map List.filter]. rewrite Htrim.
      by rewrite bool_decide_eq_false_2. }
    destruct ls as [|b ls].
    + cbn [join_lines]. rewrite split_lines_app by exact Hnl.
      pose proof (split_lines_spaces ws Hws) as Hsp.
      pose proof (split_lines_nonempty ws) as Hn.
      destruct (split_lines ws) as [|h r]; [congruence|].
      inversion Hsp as [|? ? Hh Hr]; subst.
      cbn [map List.filter]. rewrite (trim_app_spaces a h Hh), Htrim.
      rewrite bool_decide_eq_false_2 by exact Hne. cbn [negb].
      by rewrite (blank_lines_dropped r Hr).
    + change (join_lines (a :: b :: ls)) with (a ++ 10%N :: join_lines (b :: ls)).
      rewrite <- app_assoc. cbn [app]. rewrite split_lines_app by exact Hnl.
      rewrite split_lines_cons_newline, app_nil_r, Hkeep. by rewrite IH.
Qed.

(** X20.  Whatever is typed into the textarea of a list block, the list the
    editor makes of it holds only objects with a [content] that is not empty,
    has no white space at either end and contains no line break. *)
Theorem X20_list_editor_keeps_clean_lines (text : jsstring) :
  Forall (fun li => exists line, li = Li_object (Some line) /\ kept_line line)
    (setUlFromTextarea text).
Proof.
  unfold setUlFromTextarea. apply Forall_map. apply List.Forall_forall. intros s Hs.
  apply filter_In in Hs as [Hin Hne]. apply in_map_iff in Hin as (l & <- & Hl).
  exists (trim l). split; [reflexivity|]. split; [|split].
  - apply negb_true_iff in Hne. by apply bool_decide_eq_false_1 in Hne.
  - apply trim_idem.
  - pose proof (split_lines_no_newline text) as Hall.
    rewrite List.Forall_forall in Hall. intros Hx. apply (Hall l Hl). by apply trim_In.
Qed.

(** X21.  The textarea of a list block cannot hold trailing white space.  For
    a list whose items are lines the editor keeps, the text shown for it,
    followed by any run of white space (none, a space, a line break), is read
    back as that same list, every item as an object: the round trip is the
    identity on such lists, and an Enter or a space typed at the end of the
    text is dropped. *)
Theorem X21_list_editor_round_trip (l : list UlItem) (ws : jsstring) :
  Forall (fun li => kept_line (li_text li)) l ->
  forallb is_js_space ws = true ->
  setUlFromTextarea (getUlTextareaValue (Content_list l) ++ ws)
  = map (fun li => Li_object (Some (li_text li))) l.
Proof.
  intros Hl Hws. unfold setUlFromTextarea, getUlTextareaValue.
  rewrite kept_lines_survive; [by rewrite map_map | | exact Hws].
  by apply Forall_map.
Qed.

(** X21 on the list of two items, after Enter was pressed at the end. *)
Lemma X21_list_editor_witness :
  let l := [Li_string (js "bolter"); Li_object (Some (js "chain sword"))] in
  setUlFromTextarea (getUlTextareaValue (Content_list l) ++ [10%N])
  = [Li_object (Some (js "bolter")); Li_object (Some (js "chain sword"))].
Proof.
  intros l. apply (X21_list_editor_round_trip l [10%N]); [|reflexivity].
  repeat constructor; try discriminate; vm_compute; intuition discriminate.
Defined.

(** * The paginator *)

(** Beyond the exact range the sums are rounded: from a start of [2^53] with
    one article to a page, Forward dispatches the same start again. *)
Example Paginator_forward_rounds :
  Paginator_forward (2 ^ 53) 1 = (2 ^ 53)%Z /\ endIndex (2 ^ 53) 3 (2 ^ 53 + 10) = (2 ^ 53 + 4)%Z.
Proof. vm_compute. by split. Qed.

(** X22.  For a start that is not negative, a positive page size and a next
    start, [start + limit], that a double holds exactly (at most [2^53]): the
    paginator is rendered exactly when one of its two buttons is enabled; and
    on a page that starts inside the list the range it shows is in order, ends
    within the list and counts one page or what is left of the list, whichever
    is smaller. *)
Theorem X22_paginator_is_shown_when_it_can_move (start limit total : Z) :
  (0 <= start)%Z -> (0 < limit)%Z -> (start + limit <= 2 ^ 53)%Z ->
  Paginator_hidden start limit total = negb (hasNext start limit total || hasPrev start) /\
  ((start < total)%Z ->
   (1 <= Paginator_first start total <= endIndex start limit total)%Z /\
   (endIndex start limit total <= total)%Z /\
   (endIndex start limit total - Paginator_first start total + 1
    = Z.min limit (total - start))%Z).
Proof.
  intros Hs Hl Hsafe.
  unfold Paginator_hidden, hasNext, hasPrev, Paginator_first, endIndex.
  rewrite (to_double_safe (start + limit)) by (unfold safe_integer; lia).
  rewrite (to_double_safe (start + 1)) by (unfold safe_integer; lia).
  split.
  - destruct (Z.leb_spec total limit), (Z.eqb_spec start 0),
      (Z.ltb_spec (start + limit) total), (Z.ltb_spec 0 start); cbn; try reflexivity; lia.
  - intros Ht. destruct (Z.eqb_spec total 0); lia.
Qed.

(** X22 on the second page of 45 articles, 20 to a page. *)
Lemma X22_paginator_witness :
  Paginator_hidden 20 20 45 = false /\
  Paginator_first 20 45 = 21%Z /\ endIndex 20 20 45 = 40%Z.
Proof.
  destruct (X22_paginator_is_shown_when_it_can_move 20 20 45 ltac:(lia) ltac:(lia)
              ltac:(lia)) as [Hh _].
  split; [exact Hh | split; reflexivity].
Defined.

(** X23.  Where the buttons lead, for a start that is not negative, a positive
    page size and a next start that a double holds exactly (at most [2^53]).
    Back never dispatches a negative start and,
    when it is enabled, moves to an earlier one.  Forward is enabled only when
    the page it leads to starts inside the list, and Back is enabled there.
    Back undoes Forward; Forward undoes Back only from a start of at least one
    page, and from a smaller one leads to [limit]. *)
Theorem X23_paginator_buttons (start limit total : Z) :
  (0 <= start)%Z -> (0 < limit)%Z -> (start + limit <= 2 ^ 53)%Z ->
  (0 <= Paginator_back start limit)%Z /\
  (hasPrev start = true -> (Paginator_back start limit < start)%Z) /\
  (hasNext start limit total = true ->
   (Paginator_forward start limit < total)%Z /\
   hasPrev (Paginator_forward start limit) = true) /\
  Paginator_back (Paginator_forward start limit) limit = start /\
  Paginator_forward (Paginator_back start limit) limit
  = (if (limit <=? start)%Z then start else limit).
Proof.
  intros Hs Hl Hsafe. unfold Paginator_back, Paginator_forward, hasPrev, hasNext.
  rewrite (to_double_safe (start + limit)) by (unfold safe_integer; lia).
  rewrite (to_double_safe (start - limit)) by (unfold safe_integer; lia).
  rewrite (to_double_safe (start + limit - limit)) by (unfold safe_integer; lia).
  rewrite (to_double_safe (Z.max 0 (start - limit) + limit)) by (unfold safe_integer; lia).
  split; [lia|]. split; [intros Hp; apply Z.ltb_lt in Hp; lia|].
  split; [|split; [lia | destruct (Z.leb_spec limit start); lia]].
  intros Hn. apply Z.ltb_lt in Hn. split; [lia | apply Z.ltb_lt; lia].
Qed.

(** X23 on a start that is not a multiple of the page: Back and then Forward
    do not return to it. *)
Lemma X23_paginator_witness :
  Paginator_back 5 20 = 0%Z /\ Paginator_forward (Paginator_back 5 20) 20 = 20%Z.
Proof.
  destruct (X23_paginator_buttons 5 20 45 ltac:(lia) ltac:(lia) ltac:(lia))
    as (_ & _ & _ & _ & Hf).
  split; [reflexivity | exact Hf].
Defined.

(** * The login form *)

(** X24.  The button of the login form and the validation of [handleLogin]
    agree: whenever the button is disabled for the fields alone (a blank
    login, or outside local mode a blank password), a call of [handleLogin],
    which the Enter key makes without consulting the button, returns at once
    and changes nothing. *)
Theorem X24_disabled_form_does_nothing `{Config} (username password : jsstring)
    (net : RequestConfig -> Outcome) (w : World) :
  LoginForm_disabled username password false = true ->
  handleLogin username password net w = (Normal tt, w).
Proof.
  unfold LoginForm_disabled, handleLogin. cbv zeta. rewrite !orb_false_r.
  destruct (is_local AUTH_MODE).
  - intros Hd. apply negb_true_iff, negb_false_iff in Hd. by rewrite Hd.
  - intros Hd. rewrite negb_andb, !negb_involutive in Hd. by rewrite Hd.
Qed.

(** X24 on a form whose password holds white space only. *)
Lemma X24_disabled_form_witness :
  let w := page_load ∅ ∅ (at_path "/profile") (frozen_clock 1000) in
  handleLogin (H := basic_root) (js "user") (js "   ") (server_status 200) w = (Normal tt, w).
Proof.
  intros w.
  exact (X24_disabled_form_does_nothing (H := basic_root) (js "user") (js "   ")
           (server_status 200) w eq_refl).
Defined.

(** * The base address *)

Lemma strip_trailing_slashes_split s :
  exists n, s = strip_trailing_slashes s +:+ slashes n /\
            (strip_trailing_slashes s = "" -> s = slashes n).
Proof.
  induction s as [|c s (n & Hs & Hempty)]; [by exists 0%nat|].
  cbn [strip_trailing_slashes]. cbv zeta.
  destruct (Ascii.eqb c "/" && String.eqb (strip_trailing_slashes s) "") eqn:E.
  - apply andb_true_iff in E as [Hc Hr]. apply Ascii.eqb_eq in Hc.
    apply String.eqb_eq in Hr. subst c. exists (S n). rewrite append_nil_l.
    cbn [slashes]. pose proof (Hempty Hr) as Hsl. split; [|intros _]; by f_equal.
  - exists n. rewrite append_cons, <- Hs. split; [reflexivity | discriminate].
Qed.

Lemma strip_trailing_slashes_end s t : strip_trailing_slashes s <> t +:+ "/".
Proof.
  revert t. induction s as [|c s IH]; intros t.
  - destruct t; discriminate.
  - cbn [strip_trailing_slashes]. cbv zeta.
    destruct (Ascii.eqb c "/" && String.eqb (strip_trailing_slashes s) "") eqn:E.
    + destruct t; discriminate.
    + destruct t as [|d t].
      * rewrite append_nil_l. intros [= -> Hr]. rewrite Hr in E. discriminate.
      * rewrite append_cons. intros [= _ Hr]. by apply (IH t).
Qed.

(** X25.  [BASE_URL] is the configured base address, or ["/"] when none is
    configured, without its trailing slashes: putting a run of slashes back
    after it gives the configured address, and it never ends in a slash, so
    that [BASE_URL] followed by a path that starts with a slash has exactly
    that one slash at the joint. *)
Theorem X25_BASE_URL_has_no_trailing_slash `{Config} :
  (exists n, (if String.eqb env_BASE_URL "" then "/" else env_BASE_URL)
             = BASE_URL +:+ slashes n) /\
  (forall t, BASE_URL <> t +:+ "/").
Proof.
  unfold BASE_URL. split.
  - destruct (strip_trailing_slashes_split
                (if String.eqb env_BASE_URL "" then "/" else env_BASE_URL)) as (n & Hs & _).
    by exists n.
  - apply strip_trailing_slashes_end.
Qed.

(** * Header lookup *)

Lemma scan_keys_app_miss n o1 o2 :
  Forall (fun kv => toLowerCase (fst kv) <> n) o1 ->
  scan_keys n (o1 ++ o2) = scan_keys n o2.
Proof.
  induction 1 as [|[k v] o1 Hk _ IH]; [reflexivity|]. cbn [app scan_keys fst] in *.
  destruct (String.eqb_spec (toLowerCase k) n); [congruence | exact IH].
Qed.

(** X26.  [getHeaderValue] on the headers of a config that are a plain
    object finds a header whatever the capitalisation under which it was set:
    the value of the first key that lower-cases to the name is returned, and
    nothing when there is no such key or no headers at all. *)
Theorem X26_getHeaderValue_ignores_case (k v : string) :
  (forall o1 o2,
     Forall (fun kv => toLowerCase (fst kv) <> toLowerCase k) o1 ->
     getHeaderValue (Some (PlainObject (o1 ++ (k, v) :: o2))) (toLowerCase k) = Some v) /\
  (forall o n,
     Forall (fun kv => toLowerCase (fst kv) <> n) o ->
     getHeaderValue (Some (PlainObject o)) n = None) /\
  (forall n, getHeaderValue None n = None).
Proof.
  split; [|split].
  - intros o1 o2 Ho. cbn [getHeaderValue]. rewrite scan_keys_app_miss by exact Ho.
    cbn [scan_keys]. by rewrite String.eqb_refl.
  - intros o n Ho. cbn [getHeaderValue]. rewrite <- (app_nil_r o).
    by rewrite scan_keys_app_miss.
  - reflexivity.
Qed.

(** * Registration, and the start-up check in hybrid mode *)

Section Startup.
Context `{Config}.

(** X27.  [registerUserApi] stores credentials only after the server accepted
    the registration.  When the POST to [/register] is rejected, the call is
    rejected with the same error, no profile request follows, and no
    credential has been added to the store or to the default headers.  In
    local mode an accepted registration stores nothing either: the call
    resolves with a profile made of the form's name and avatar. *)
Theorem X27_registration_failure_stores_nothing (name login password : jsstring)
    (ava : option jsstring) (net_register net : RequestConfig -> Outcome) (w : World) :
  (forall e w1,
     api_request "/register" [] net_register w = (Thrown e, w1) ->
     registerUserApi name login password ava net_register net w = (Thrown e, w1) /\
     forgets w w1) /\
  (AUTH_MODE = ModeLocal ->
   forall d w1,
     api_request "/register" [] net_register w = (Normal d, w1) ->
     registerUserApi name login password ava net_register net w
     = (Normal (localProfile name (if truthy ava then field_text ava else [])), w1) /\
     forgets w w1).
Proof.
  pose proof (api_request_forgets "/register" [] net_register w) as Hf.
  unfold world_after in Hf. split.
  - intros e w1 Hreg. rewrite Hreg in Hf. split; [|exact Hf].
    unfold registerUserApi, bind. by rewrite Hreg.
  - intros Hlocal d w1 Hreg. rewrite Hreg in Hf. split; [|exact Hf].
    unfold registerUserApi, bind. rewrite Hreg, Hlocal. reflexivity.
Qed.

Lemma go_keeps_store to w : localStorage (world_after (go to) w) = localStorage w.
Proof. apply (go_same localStorage); reflexivity. Qed.

(** A failure of a request that carried the opt-out header, or that has no
    response, leaves the store alone. *)
Lemma onRejected_keeps_store {A} err w :
  skips_auth_redirect err = true \/ err_response_status err = None ->
  localStorage (world_after (response_interceptor_onRejected (A := A) err) w)
  = localStorage w.
Proof.
  intros Hskip.
  assert (Heq : world_after (response_interceptor_onRejected (A := A) err) w
                = snd (response_interceptor_onRejected (A := A) err w)) by reflexivity.
  destruct (decide (err_code err = Some "ERR_NETWORK")) as [Hc | Hc];
    [|destruct (err_response_status err) as [st|] eqn:Hst].
  - rewrite onRejected_network in Heq by (by left). cbn [snd] in Heq. rewrite Heq.
    destruct (startsWith _ _); [reflexivity | apply go_keeps_store].
  - destruct Hskip as [Hskip | ?]; [|discriminate].
    rewrite (onRejected_response err st w Hst Hc) in Heq. cbn [snd] in Heq.
    cbv zeta in Heq. rewrite Hskip in Heq. cbn [negb] in Heq.
    rewrite andb_false_r in Heq. rewrite Heq.
    destruct (is_auth_status st && is_local AUTH_MODE); [reflexivity|].
    destruct (includes handled st && _); [apply go_keeps_store | reflexivity].
  - rewrite onRejected_network in Heq by (by right). cbn [snd] in Heq. rewrite Heq.
    destruct (startsWith _ _); [reflexivity | apply go_keeps_store].
Qed.

Lemma readBasicAuth_throws w e w1 :
  readBasicAuth w = (Thrown e, w1) -> e = SecurityError.
Proof.
  assert (Htry : forall key w0 e0 w2, tryRead key w0 = (Thrown e0, w2) -> e0 = SecurityError).
  { intros key w0 e0 w2. destruct (storage_denied w0) eqn:Hd.
    - rewrite tryRead_denied by exact Hd. by intros [= <- _].
    - destruct (tryRead_returns key w0 Hd) as [r Hr]. unfold result_of in Hr.
      intros Ht. rewrite Ht in Hr. discriminate. }
  rewrite readBasicAuth_eval.
  destruct (tryRead AUTH_BASIC_KEY_PRIMARY w) as [[[r|]|e0] w0] eqn:H1.
  - discriminate.
  - apply Htry.
  - intros [= <- _]. by apply (Htry _ _ _ _ H1).
Qed.

Lemma readBasicAuth_keeps_local w :
  localStorage (world_after readBasicAuth w) !! AUTH_LOCAL_KEY
  = localStorage w !! AUTH_LOCAL_KEY.
Proof.
  unfold world_after. rewrite readBasicAuth_eval.
  pose proof (tryRead_keeps_other_keys AUTH_BASIC_KEY_PRIMARY AUTH_LOCAL_KEY w
                ltac:(discriminate)) as H1.
  unfold world_after in H1.
  destruct (tryRead AUTH_BASIC_KEY_PRIMARY w) as [[[r|]|e] w1]; cbn [snd] in *;
    try exact H1.
  rewrite <- H1.
  apply (tryRead_keeps_other_keys AUTH_BASIC_KEY_SECOND AUTH_LOCAL_KEY w1).
  discriminate.
Qed.

Lemma request_interceptor_keeps_local config w :
  localStorage (world_after (request_interceptor config) w) !! AUTH_LOCAL_KEY
  = localStorage w !! AUTH_LOCAL_KEY.
Proof.
  unfold world_after, request_interceptor. destruct (negb _); [|reflexivity].
  unfold bind. pose proof (readBasicAuth_keeps_local w) as Hr. unfold world_after in Hr.
  destruct (readBasicAuth w) as [[[s|]|e] w1]; cbn [snd] in *; try exact Hr.
  unfold btoa_js. destruct (btoa _); [|exact Hr].
  by destruct (headers config) as [[h|o]|].
Qed.

(** The silent profile request never touches the Local record. *)
Lemma silent_request_keeps_local net w :
  localStorage (world_after (api_request "/myProfile" [("X-Skip-Auth-Redirect", "1")] net) w)
  !! AUTH_LOCAL_KEY
  = localStorage w !! AUTH_LOCAL_KEY.
Proof.
  unfold world_after at 1. unfold api_request, try_catch, bind, get_world.
  set (config0 := {| url := "/myProfile"; headers := _ |}).
  pose proof (request_interceptor_keeps_local config0 w) as Hi. unfold world_after in Hi.
  destruct (request_interceptor config0 w) as [[config|e] w1] eqn:Hreq; cbn [snd] in Hi.
  2:{ fold (world_after (response_interceptor_onRejected (A := ApiUserProfile) e) w1).
      rewrite onRejected_keeps_store; [exact Hi|]. right.
      revert Hreq. unfold request_interceptor. destruct (negb _); [|discriminate].
      unfold bind. destruct (readBasicAuth w) as [[[s|]|e'] w2] eqn:Hread.
      - unfold btoa_js. destruct (btoa _); [|by intros [= <- _]].
        by destruct (headers config0) as [[h|o]|].
      - discriminate.
      - intros [= <- _]. by rewrite (readBasicAuth_throws w e' w2 Hread). }
  assert (Hskip : getHeaderValue (headers config) "x-skip-auth-redirect" = Some "1").
  { refine (request_interceptor_keeps_skip _ _ _ _ _ _ Hreq).
    exact (concat_own_last (defaults_headers_common w) [] "X-Skip-Auth-Redirect" "1"). }
  unfold modify.
  destruct (net config) as [st d|c]; [destruct (_ && _)|]; cbn [ret throw snd fst].
  - exact Hi.
  - fold (world_after (response_interceptor_onRejected (A := ApiUserProfile)
             (AxiosError (error_code_of_status st) (Some st) (Some config)))
           (with_sent (fun l => l ++ [config]) w1)).
    rewrite onRejected_keeps_store; [exact Hi|]. left.
    unfold skips_auth_redirect. cbn [err_config_headers]. rewrite Hskip.
    by apply bool_decide_eq_true_2.
  - fold (world_after (response_interceptor_onRejected (A := ApiUserProfile)
             (AxiosError c None (Some config)))
           (with_sent (fun l => l ++ [config]) w1)).
    rewrite onRejected_keeps_store; [exact Hi | by right].
Qed.

(** X28.  In hybrid mode the start-up check falls back to the Local record
    whenever the profile request fails, for whatever reason (no answer, an
    error status, a 401 or 403 for credentials the server no longer accepts).
    With the storage accessible: when a Local record with a non-empty username
    is in the store and has not expired at the reading of the clock that
    follows the failed request, [initAuth] is fulfilled with the placeholder
    profile of that username and the session is authenticated; when there is
    no Local record, it is rejected and the session is left unauthenticated. *)
Theorem X28_hybrid_startup_falls_back_to_the_local_record
    (net : RequestConfig -> Outcome) (w : World) (e : JsError) (w1 : World) :
  AUTH_MODE = ModeHybrid ->
  storage_denied w = false ->
  api_request "/myProfile" [("X-Skip-Auth-Redirect", "1")] net (with_auth initAuth_pending w)
  = (Thrown e, w1) ->
  let w' := world_after (dispatch_initAuth net) w in
  (forall r u,
     localStorage w !! AUTH_LOCAL_KEY = Some (Serialized r) ->
     username r = Some u -> u <> [] ->
     (forall t, exp r = Some t -> (next_reading w1 <= t)%Z) ->
     result_of (dispatch_initAuth net) w = Normal (Fulfilled (placeholderProfile u)) /\
     isAuthed (auth w') = true) /\
  (localStorage w !! AUTH_LOCAL_KEY = None ->
   result_of (dispatch_initAuth net) w = Normal (Rejected Msg_not_authed) /\
   isAuthed (auth w') = false).
Proof.
  intros Hmode Hok Hreq w'. subst w'.
  set (w0 := with_auth initAuth_pending w) in *.
  assert (Hok1 : storage_denied w1 = false).
  { pose proof (keeps_access_api_request "/myProfile" [("X-Skip-Auth-Redirect", "1")] net w0)
      as Hk. unfold world_after in Hk. rewrite Hreq in Hk. cbn [snd] in Hk.
    by rewrite Hk. }
  assert (Hlocal : localStorage w1 !! AUTH_LOCAL_KEY = localStorage w !! AUTH_LOCAL_KEY).
  { pose proof (silent_request_keeps_local net w0) as Hk. unfold world_after in Hk.
    rewrite Hreq in Hk. exact Hk. }
  assert (Heval : dispatch_initAuth net w
                  = match readLocalAuth w1 with
                    | (Normal (Some s), w2) =>
                        (Normal (Fulfilled (placeholderProfile (field_text (username s)))),
                         with_auth (initAuth_fulfilled
                                      (placeholderProfile (field_text (username s)))) w2)
                    | (Normal None, w2) =>
                        (Normal (Rejected Msg_not_authed), with_auth initAuth_rejected w2)
                    | (Thrown err, w2) =>
                        (Normal (Rejected Msg_of_thrown_error),
                         with_auth initAuth_rejected w2)
                    end).
  { unfold dispatch_initAuth, initAuth. rewrite Hmode.
    unfold bind at 1. unfold modify at 1. fold w0.
    unfold bind at 1. unfold try_catch at 1 2. unfold bind at 1. rewrite Hreq.
    unfold bind, modify. destruct (readLocalAuth w1) as [[[s|]|err] w2]; reflexivity. }
  unfold result_of, world_after. rewrite Heval. split.
  - intros r u Hget Hu Hne Hexp.
    rewrite (readLocalAuth_valid w1 r u); auto; [|by rewrite Hlocal].
    rewrite Hu. by split.
  - intros Hnone. rewrite readLocalAuth_eval by exact Hok1.
    rewrite Hlocal, Hnone. by split.
Qed.

End Startup.

(** X28 on credentials the server no longer accepts: the 401 answer does not
    end the session that the Local record carries. *)
Lemma X28_hybrid_startup_witness :
  let r := local_record (js "archmagos") 9000 in
  let w := page_load {[ AUTH_LOCAL_KEY := Serialized r ]} ∅ (at_path "/")
             (frozen_clock 1000) in
  let w' := world_after (dispatch_initAuth (H := hybrid_root) (server_status 401)) w in
  result_of (dispatch_initAuth (H := hybrid_root) (server_status 401)) w
  = Normal (Fulfilled (placeholderProfile (js "archmagos"))) /\
  isAuthed (auth w') = true.
Proof.
  intros r w w'.
  set (req := api_request (H := hybrid_root) "/myProfile" [("X-Skip-Auth-Redirect", "1")]
                (server_status 401) (with_auth initAuth_pending w)).
  assert (Hreq : req = (Thrown (match fst req with Thrown e => e | Normal _ => SyntaxError end),
                        snd req)) by (vm_compute; reflexivity).
  apply (proj1 (X28_hybrid_startup_falls_back_to_the_local_record (H := hybrid_root)
                  (server_status 401) w _ _ eq_refl eq_refl Hreq) r (js "archmagos"));
    [reflexivity | reflexivity | discriminate |].
  intros t Ht. injection Ht as <-. vm_compute. discriminate.
Defined.

(** * Verification while a record is stored *)

(** X29.  While a valid record is in force, in basic and hybrid mode, the
    verification request of [fetchMyProfileWithBasic] does not carry the
    credentials it was given: the request interceptor replaces the
    [Authorization] header of the call with that of the stored record, so the
    request that reaches the network carries [Basic base64(username:password)]
    of the stored pair. *)
Theorem X29_verification_carries_the_stored_credentials `{Config} (typed_u typed_p : jsstring)
    (net : RequestConfig -> Outcome) (w : World) (r : StoredRecord) (u p : jsstring)
    (token typed_token : string) :
  is_local AUTH_MODE = false -> in_force w r u p ->
  btoa (colon_join u p) = Some token ->
  btoa (colon_join typed_u typed_p) = Some typed_token ->
  exists config,
    sent_requests (world_after (fetchMyProfileWithBasic typed_u typed_p net) w)
    = sent_requests w ++ [config] /\
    getHeaderValue (headers config) "authorization" = Some ("Basic " +:+ token).
Proof.
  intros Hmode Hforce Htoken Htyped.
  pose proof (api_request_with_record "/myProfile"
                [("Authorization", basic_header typed_token)] net w r u p Hmode Hforce)
    as Hreq.
  rewrite Htoken in Hreq.
  unfold world_after, fetchMyProfileWithBasic, bind, btoa_js. rewrite Htyped. exact Hreq.
Qed.

(** X29 on a stored pair the server accepts and a guessed password: the
    request carries the stored pair, the server answers 200, and the login is
    fulfilled although the guess was never checked; the guess then replaces the
    stored pair. *)
Lemma X29_verification_witness :
  let r := basic_record (js "user") (js "pw") 9000 in
  let w := page_load {[ AUTH_BASIC_KEY_PRIMARY := Serialized r ]} ∅ (at_path "/profile")
             (frozen_clock 1000) in
  let net := server_accepting "Basic dXNlcjpwdw==" no_profile in
  let p := {| arg_username := js "user"; arg_password := js "guess"; arg_remember := None |} in
  (exists config,
     sent_requests (world_after (fetchMyProfileWithBasic (H := basic_root)
                                   (js "user") (js "guess") net) w)
     = sent_requests w ++ [config] /\
     getHeaderValue (headers config) "authorization" = Some ("Basic " +:+ "dXNlcjpwdw==")) /\
  result_of (dispatch_login (H := basic_root) p net) w
  = Normal (Fulfilled (normalizeUser no_profile)) /\
  localStorage (world_after (dispatch_login (H := basic_root) p net) w)
  !! AUTH_BASIC_KEY_PRIMARY
  = Some (Serialized (basic_record (js "user") (js "guess") (1000 + 7 * 24 * 3600 * 1000))).
Proof.
  intros r w net p. split; [|split; vm_compute; reflexivity].
  apply (X29_verification_carries_the_stored_credentials (H := basic_root)
           (js "user") (js "guess") net w r (js "user") (js "pw")
           "dXNlcjpwdw==" "dXNlcjpndWVzcw==" eq_refl); [|reflexivity|reflexivity].
  split; [reflexivity|]. left. split; [reflexivity|].
  repeat split; try discriminate.
  intros e He. injection He as <-. vm_compute. discriminate.
Defined.
